(** * Indicator engine and snapshot store of the finance research agents

    A shallow embedding of
    - [sub_agent/research/analysis_team/technical_agent.py]
      ([calculate_technical_indicators]),
    - [sub_agent/research/analysis_team/risk_analysis_agent.py]
      ([calculate_volatility_metrics], [calculate_max_drawdown],
      [analyze_concentration_risk]),
    - [sub_agent/research/analysis_team/sentiment_agent.py]
      ([calculate_text_sentiment], [analyze_news_sentiment],
      [analyze_recommendation_sentiment]),
    - [sub_agent/research/utils/file_utils.py] ([FileUtils]),
    - [sub_agent/research/search_team/industry_info_utils.py] and
      [sub_agent/research/search_team/corporate_info_utils.py] (the stores
      and lookups of the two classes, [_get_period_stats]),
    together with the parts of pandas, numpy, glob and json those functions
    call.

    Numbers.  A Python [float] is modelled as an extended real: a finite real
    number, one of the two infinities, or NaN.  Rounding and the sign of zero
    are not modelled; every operation is the exact one, with the IEEE rules
    for infinities, for division by zero and for NaN.

    Rolling statistics.  pandas computes a rolling mean from one running sum
    in double precision, and what it reports can be far from the mean of
    the window once a large value has passed through.  The rolling mean and
    the rolling standard deviation therefore appear in three forms:
    [Pandas.rolling] is the exact statistic of the window;
    [Binary64] has the loop of pandas on IEEE 754 doubles, and is where the
    two differ on concrete series;
    [calculate_technical_indicators_with] leaves the two statistics to the
    library, and the statements about the moving averages and the RSI are
    made of whatever the library reports.

    Integers.  A column of 64-bit integers is added with wrap-around
    ([analyze_concentration_risk_int64]).

    Frames.  A DataFrame is an object the caller shares with the function:
    [calculate_technical_indicators] is a computation that reads and assigns
    columns of that one frame and returns a value or raises.

    Files.  The store works in one directory, a listing of named files with
    their creation times; the clock reading of a call is an argument of the
    call.  The text of a JSON file is identified with the JSON value it
    denotes.  [Links] has the sweep of old files once more, for a directory
    that may hold symbolic links whose target is gone. *)

From Stdlib Require Import String Ascii Reals Lra Lia ZArith Bool Arith List.
From Stdlib Require Import DecimalString.
From Stdlib Require Import Sorted Permutation.
From Stdlib Require Floats.PrimFloat.
Import ListNotations.

Set Implicit Arguments.
Set Warnings "-register-all".

(** ** Python floats *)

Module Float.

Open Scope R_scope.

Inductive float : Type :=
| Fin (x : R)
| PInf
| NInf
| NaN.

Definition isnan (a : float) : bool :=
  match a with NaN => true | _ => false end.

Definition notna (a : float) : bool := negb (isnan a).

Definition Rltb (x y : R) : bool := if Rlt_dec x y then true else false.
Definition Reqb (x y : R) : bool := if Req_dec_T x y then true else false.

(** The sign of a real, as the three-way test the division rules need. *)
Inductive sign := Neg | Zero | Pos.

Definition Rsign (x : R) : sign :=
  match total_order_T x 0 with
  | inleft (left _) => Neg
  | inleft (right _) => Zero
  | inright _ => Pos
  end.

Definition fneg (a : float) : float :=
  match a with
  | Fin x => Fin (- x)
  | PInf => NInf
  | NInf => PInf
  | NaN => NaN
  end.

Definition fadd (a b : float) : float :=
  match a, b with
  | NaN, _ | _, NaN => NaN
  | Fin x, Fin y => Fin (x + y)
  | PInf, NInf | NInf, PInf => NaN
  | PInf, _ | _, PInf => PInf
  | NInf, _ | _, NInf => NInf
  end.

Definition fsub (a b : float) : float := fadd a (fneg b).

Definition inf_of (s : sign) : float :=
  match s with Pos => PInf | Neg => NInf | Zero => NaN end.

Definition sign_mul (s t : sign) : sign :=
  match s, t with
  | Zero, _ | _, Zero => Zero
  | Pos, Pos | Neg, Neg => Pos
  | _, _ => Neg
  end.

Definition fmul (a b : float) : float :=
  match a, b with
  | NaN, _ | _, NaN => NaN
  | Fin x, Fin y => Fin (x * y)
  | Fin x, PInf | PInf, Fin x => inf_of (Rsign x)
  | Fin x, NInf | NInf, Fin x => inf_of (sign_mul Neg (Rsign x))
  | PInf, PInf | NInf, NInf => PInf
  | PInf, NInf | NInf, PInf => NInf
  end.

(** Division.  A finite non-zero number over zero is an infinity of the sign
    of the numerator, zero over zero is NaN: numpy and pandas do not raise. *)
Definition fdiv (a b : float) : float :=
  match a, b with
  | NaN, _ | _, NaN => NaN
  | Fin x, Fin y =>
      match Rsign y with
      | Zero => inf_of (Rsign x)
      | _ => Fin (x / y)
      end
  | Fin _, (PInf | NInf) => Fin 0
  | PInf, Fin y => match Rsign y with Neg => NInf | _ => PInf end
  | NInf, Fin y => match Rsign y with Neg => PInf | _ => NInf end
  | (PInf | NInf), (PInf | NInf) => NaN
  end.

Definition fsqrt (a : float) : float :=
  match a with
  | Fin x => match Rsign x with Neg => NaN | _ => Fin (sqrt x) end
  | PInf => PInf
  | NInf | NaN => NaN
  end.

(** Comparisons: every comparison with NaN is false, [!=] is true. *)
Definition fltb (a b : float) : bool :=
  match a, b with
  | NaN, _ | _, NaN => false
  | Fin x, Fin y => Rltb x y
  | NInf, (Fin _ | PInf) => true
  | Fin _, PInf => true
  | _, _ => false
  end.

Definition fgtb (a b : float) : bool := fltb b a.

Definition feqb (a b : float) : bool :=
  match a, b with
  | Fin x, Fin y => Reqb x y
  | PInf, PInf | NInf, NInf => true
  | _, _ => false
  end.

Definition fneb (a b : float) : bool := negb (feqb a b).

Definition fleb (a b : float) : bool := fltb a b || feqb a b.

(** [not_null a]: the value is not pandas' missing-value marker. *)
Definition not_null (a : float) : Prop := a <> NaN.

Definition of_nat (n : nat) : float := Fin (INR n).

End Float.

Export Float.

Declare Scope float_scope.
Delimit Scope float_scope with float.
Bind Scope float_scope with float.
Infix "+" := fadd : float_scope.
Infix "-" := fsub : float_scope.
Infix "*" := fmul : float_scope.
Infix "/" := fdiv : float_scope.
Notation "- x" := (fneg x) : float_scope.

(** ** pandas Series and numpy reductions

    A Series is the list of its values; every Series of one call shares the
    index of the frame it was taken from, so the index is kept by the frame
    only. *)

Module Pandas.

Definition Series := list float.

Definition dropna (s : Series) : Series := filter notna s.

Definition lastn {A : Type} (n : nat) (l : list A) : list A :=
  skipn (length l - n) l.

Definition zip_with {A B C : Type} (f : A -> B -> C) (a : list A) (b : list B)
  : list C :=
  map (fun p => f (fst p) (snd p)) (combine a b).

(** [s.shift(1)] *)
Definition shift (s : Series) : Series :=
  match s with
  | [] => []
  | _ :: _ => NaN :: removelast s
  end.

(** [s.diff()]: the first value is missing, then [s[i] - s[i-1]]. *)
Fixpoint diff_from (prev : float) (s : Series) : Series :=
  match s with
  | [] => []
  | x :: t => (x - prev)%float :: diff_from x t
  end.

Definition diff (s : Series) : Series := diff_from NaN s.

(** [s.where(cond, other)] for the two conditions the code uses. *)
Definition where_gt0 (s : Series) (other : float) : Series :=
  map (fun d => if fgtb d (Fin 0) then d else other) s.

Definition where_lt0 (s : Series) (other : float) : Series :=
  map (fun d => if fltb d (Fin 0) then d else other) s.

Definition sneg (s : Series) : Series := map fneg s.

Fixpoint fsum (s : Series) : float :=
  match s with
  | [] => Fin 0
  | x :: t => (x + fsum t)%float
  end.

Definition mean (s : Series) : float := (fsum s / of_nat (length s))%float.

(** Variance and standard deviation with [ddof] delta degrees of freedom;
    missing when there are no more than [ddof] observations. *)
Definition var (ddof : nat) (s : Series) : float :=
  if Nat.leb (length s) ddof then NaN
  else
    let m := mean s in
    (fsum (map (fun x => ((x - m) * (x - m))%float) s)
     / of_nat (length s - ddof))%float.

Definition std (ddof : nat) (s : Series) : float := fsqrt (var ddof s).

(** [s.std()]: missing values are skipped, [ddof = 1]. *)
Definition series_std (s : Series) : float := std 1 (dropna s).

(** [s.min()]: missing values are skipped; missing when nothing is left. *)
Definition series_min (s : Series) : float :=
  match dropna s with
  | [] => NaN
  | x :: t => fold_left (fun m y => if fltb y m then y else m) t x
  end.

(** [s.rolling(window=w)]: the window at position [i] holds the [w] values
    ending at [i] (fewer at the start); [min_periods] defaults to [w], so the
    statistic is missing until the window holds [w] observations.  The
    statistic is computed from the values of the window, exactly. *)
Definition window (w i : nat) (s : Series) : Series :=
  lastn w (firstn (S i) s).

Definition rolling (w : nat) (stat : Series -> float) (s : Series) : Series :=
  map (fun i =>
         let obs := dropna (window w i s) in
         if Nat.ltb (length obs) w then NaN else stat obs)
      (seq 0 (length s)).

Definition rolling_mean (w : nat) : Series -> Series := rolling w mean.
Definition rolling_std (w : nat) : Series -> Series := rolling w (std 1).

(** [s.ewm(span=span, adjust=False).mean()], following pandas' loop:
    [weighted] is the running average, [old_wt] the weight it carries. *)
Definition alpha_of_span (span : nat) : R :=
  1 / (1 + (INR span - 1) / 2).

Fixpoint ewm_loop (alpha : R) (weighted old_wt : float) (s : Series) : Series :=
  match s with
  | [] => []
  | cur :: t =>
      let is_observation := notna cur in
      if notna weighted then
        let old_wt := (old_wt * Fin (1 - alpha))%float in
        if is_observation then
          let weighted' :=
            if fneb weighted cur
            then ((old_wt * weighted + Fin alpha * cur)
                  / (old_wt + Fin alpha))%float
            else weighted in
          weighted' :: ewm_loop alpha weighted' (Fin 1) t
        else weighted :: ewm_loop alpha weighted old_wt t
      else if is_observation then cur :: ewm_loop alpha cur old_wt t
      else weighted :: ewm_loop alpha weighted old_wt t
  end.

Definition ewm_mean (span : nat) (s : Series) : Series :=
  match s with
  | [] => []
  | x0 :: t => x0 :: ewm_loop (alpha_of_span span) x0 (Fin 1) t
  end.

(** [s.expanding(min_periods=1).max()] *)
Fixpoint expanding_max_from (peak : float) (s : Series) : Series :=
  match s with
  | [] => []
  | x :: t =>
      let peak' :=
        if isnan x then peak
        else if isnan peak then x
        else if fltb peak x then x else peak in
      peak' :: expanding_max_from peak' t
  end.

Definition expanding_max (s : Series) : Series := expanding_max_from NaN s.

(** [s.ffill()] and [s.pct_change()], the latter with its default forward
    fill: [s / s.shift(1) - 1]. *)
Fixpoint ffill_from (prev : float) (s : Series) : Series :=
  match s with
  | [] => []
  | x :: t =>
      let x' := if isnan x then prev else x in
      x' :: ffill_from x' t
  end.

Definition ffill (s : Series) : Series := ffill_from NaN s.

Definition pct_change (s : Series) : Series :=
  let data := ffill s in
  map (fun q => (q - Fin 1)%float) (zip_with fdiv data (shift data)).

End Pandas.

Export Pandas.

(** ** Python exceptions and the error monad *)

Inductive exn : Type :=
| IndexError
| KeyError (key : string)
| ValueError
| OverflowError
| OSError.

Definition result (A : Type) : Type := (exn + A)%type.

Definition ok {A : Type} (a : A) : result A := inr a.
Definition raise {A : Type} (e : exn) : result A := inl e.

Definition rbind {A B : Type} (c : result A) (k : A -> result B) : result B :=
  match c with
  | inl e => inl e
  | inr a => k a
  end.

Declare Scope result_scope.
Delimit Scope result_scope with result.
Notation "x <- c ;; k" := (rbind c (fun x => k))
  (at level 61, c at next level, right associativity) : result_scope.

(** ** numpy.percentile, method "linear" *)

Module Numpy.

Fixpoint insert_sorted (x : float) (s : Series) : Series :=
  match s with
  | [] => [x]
  | y :: t => if fleb x y then x :: s else y :: insert_sorted x t
  end.

Definition sort (s : Series) : Series := fold_right insert_sorted [] s.

(** Linear interpolation between [a] and [b]; numpy switches to the formula
    anchored at [b] from the middle on. *)
Definition lerp (a b : float) (t : R) : float :=
  let diff_b_a := (b - a)%float in
  if Rltb t (1 / 2) then (a + diff_b_a * Fin t)%float
  else (b - diff_b_a * Fin (1 - t))%float.

(** [np.percentile(a, q)] for an integer percentage [q].  The virtual index
    is [(n - 1) * q / 100]; its floor and the next position are interpolated.
    An index at or above the last position reads the last value (position
    [-1]), one below zero the first. *)
Definition percentile (a : Series) (q : Z) : result float :=
  if (q <? 0)%Z || (100 <? q)%Z then raise ValueError
  else
    match a with
    | [] => raise IndexError
    | _ :: _ =>
        if existsb isnan a then ok NaN
        else
          let arr := sort a in
          let n := Z.of_nat (length a) in
          let num := ((n - 1) * q)%Z in
          let above := (100 * (n - 1) <=? num)%Z in
          let below := (num <? 0)%Z in
          let previous_index :=
            if below then 0%Z else if above then (-1)%Z else (num / 100)%Z in
          let next_index :=
            if below then 0%Z else if above then (-1)%Z
            else (num / 100 + 1)%Z in
          let at_ (i : Z) :=
            nth (Z.to_nat (if (i <? 0)%Z then (n + i)%Z else i)) arr NaN in
          let gamma := IZR num / 100 - IZR previous_index in
          ok (lerp (at_ previous_index) (at_ next_index) gamma)
    end.

End Numpy.

(** ** pandas DataFrame

    A frame is its index (one date per row) and its columns in order.  The
    frame the caller passes to a function is the very object the function
    works on: an assignment to a column changes the caller's frame. *)

Module Frame.

Record DataFrame : Type := {
  index : list Z;
  columns : list (string * Series)
}.

Fixpoint lookup {A : Type} (k : string) (l : list (string * A)) : option A :=
  match l with
  | [] => None
  | (k', v) :: t => if String.eqb k k' then Some v else lookup k t
  end.

Fixpoint set_assoc {A : Type} (k : string) (v : A) (l : list (string * A))
  : list (string * A) :=
  match l with
  | [] => [(k, v)]
  | (k', v') :: t =>
      if String.eqb k k' then (k, v) :: t else (k', v') :: set_assoc k v t
  end.

(** [df[k]] *)
Definition getitem {A : Type} (l : list (string * A)) (k : string) : result A :=
  match lookup k l with
  | Some v => ok v
  | None => raise (KeyError k)
  end.

(** [df[k] = s]: replaces the column, or appends it after the others. *)
Definition setitem (df : DataFrame) (k : string) (s : Series) : DataFrame :=
  {| index := index df; columns := set_assoc k s (columns df) |}.

(** [df.iloc[-1]]: the last row, as a mapping from column to value. *)
Definition iloc_last (df : DataFrame) : result (list (string * float)) :=
  match index df with
  | [] => raise IndexError
  | _ :: _ => ok (map (fun c => (fst c, last (snd c) NaN)) (columns df))
  end.

End Frame.

Export Frame.

(** ** The price series *)

Record Bar : Type := {
  date : Z;
  bar_open : R;
  bar_high : R;
  bar_low : R;
  bar_close : R;
  bar_volume : R
}.

Definition PriceSeries := list Bar.

Definition field (f : Bar -> R) (bars : PriceSeries) : Series :=
  map (fun b => Fin (f b)) bars.

Definition closes (bars : PriceSeries) : list R := map bar_close bars.

(** The frame the market-data provider hands over for a price series. *)
Definition to_frame (bars : PriceSeries) : DataFrame :=
  {| index := map date bars;
     columns := [ ("Open"%string, field bar_open bars);
                  ("High"%string, field bar_high bars);
                  ("Low"%string, field bar_low bars);
                  ("Close"%string, field bar_close bars);
                  ("Volume"%string, field bar_volume bars) ] |}.

(** ** technical_agent.py *)

Module TechnicalAgent.

Open Scope string_scope.

(** A computation on the caller's frame: it reads and assigns columns of
    [hist], and either returns a value or raises. *)
Definition M (A : Type) : Type := DataFrame -> result A * DataFrame.

Definition ret {A : Type} (a : A) : M A := fun hist => (ok a, hist).

Definition bind {A B : Type} (c : M A) (k : A -> M B) : M B :=
  fun hist =>
    match c hist with
    | (inl e, hist') => (inl e, hist')
    | (inr a, hist') => k a hist'
    end.

Definition lift {A : Type} (r : result A) : M A := fun hist => (r, hist).

Definition col (k : string) : M Series :=
  fun hist => (getitem (columns hist) k, hist).

Definition assign (k : string) (s : Series) : M unit :=
  fun hist => (ok tt, setitem hist k s).

Definition iloc_last_row : M (list (string * float)) :=
  fun hist => (iloc_last hist, hist).

Declare Scope frame_scope.
Delimit Scope frame_scope with frame.
Notation "x <- c ;; k" := (bind c (fun x => k))
  (at level 61, c at next level, right associativity) : frame_scope.
Notation "c ;;; k" := (bind c (fun _ => k))
  (at level 61, right associativity) : frame_scope.

Record Price : Type := {
  current : float;
  open : float;
  high : float;
  low : float;
  volume : float
}.

Record MovingAverages : Type := {
  sma_20 : float;
  sma_50 : float;
  sma_200 : float
}.

Record Momentum : Type := {
  rsi : float;
  macd : float;
  signal_line : float
}.

Record Volatility : Type := {
  bollinger_upper : float;
  bollinger_middle : float;
  bollinger_lower : float
}.

Record IndicatorSnapshot : Type := {
  price : Price;
  moving_averages : MovingAverages;
  momentum : Momentum;
  volatility : Volatility
}.

(** [100 - (100 / (1 + rs))], value by value *)
Definition rsi_of_rs (rs : Series) : Series :=
  map (fun r => (Fin 100 - (Fin 100 / (Fin 1 + r)))%float) rs.

Definition scale (k : R) (s : Series) : Series :=
  map (fun x => (Fin k * x)%float) s.

Definition calculate_technical_indicators : M IndicatorSnapshot :=
  (close <- col "Close" ;; assign "SMA_20" (rolling_mean 20 close) ;;;
   close <- col "Close" ;; assign "SMA_50" (rolling_mean 50 close) ;;;
   close <- col "Close" ;; assign "SMA_200" (rolling_mean 200 close) ;;;
   close <- col "Close" ;;
   let delta := diff close in
   let gain := rolling_mean 14 (where_gt0 delta (Fin 0)) in
   let loss := rolling_mean 14 (sneg (where_lt0 delta (Fin 0))) in
   let rs := zip_with fdiv gain loss in
   assign "RSI" (rsi_of_rs rs) ;;;
   close <- col "Close" ;;
   let exp1 := ewm_mean 12 close in
   close <- col "Close" ;;
   let exp2 := ewm_mean 26 close in
   assign "MACD" (zip_with fsub exp1 exp2) ;;;
   macd_col <- col "MACD" ;;
   assign "Signal_Line" (ewm_mean 9 macd_col) ;;;
   close <- col "Close" ;; assign "BB_Middle" (rolling_mean 20 close) ;;;
   middle <- col "BB_Middle" ;;
   close <- col "Close" ;;
   assign "BB_Upper" (zip_with fadd middle (scale 2 (rolling_std 20 close))) ;;;
   middle <- col "BB_Middle" ;;
   close <- col "Close" ;;
   assign "BB_Lower" (zip_with fsub middle (scale 2 (rolling_std 20 close))) ;;;
   latest <- iloc_last_row ;;
   v_close <- lift (getitem latest "Close") ;;
   v_open <- lift (getitem latest "Open") ;;
   v_high <- lift (getitem latest "High") ;;
   v_low <- lift (getitem latest "Low") ;;
   v_volume <- lift (getitem latest "Volume") ;;
   v_sma_20 <- lift (getitem latest "SMA_20") ;;
   v_sma_50 <- lift (getitem latest "SMA_50") ;;
   v_sma_200 <- lift (getitem latest "SMA_200") ;;
   v_rsi <- lift (getitem latest "RSI") ;;
   v_macd <- lift (getitem latest "MACD") ;;
   v_signal <- lift (getitem latest "Signal_Line") ;;
   v_upper <- lift (getitem latest "BB_Upper") ;;
   v_middle <- lift (getitem latest "BB_Middle") ;;
   v_lower <- lift (getitem latest "BB_Lower") ;;
   ret {| price := {| current := v_close; open := v_open; high := v_high;
                      low := v_low; volume := v_volume |};
          moving_averages := {| sma_20 := v_sma_20; sma_50 := v_sma_50;
                                sma_200 := v_sma_200 |};
          momentum := {| rsi := v_rsi; macd := v_macd;
                         signal_line := v_signal |};
          volatility := {| bollinger_upper := v_upper;
                           bollinger_middle := v_middle;
                           bollinger_lower := v_lower |} |})%frame.

(** The same function with the two rolling statistics left to the library:
    [rolling_mean w s] stands for [s.rolling(window=w).mean()] and
    [rolling_std w s] for [s.rolling(window=w).std()], whatever numbers
    pandas reports for them.  Every other line is as above. *)
Section with_library.

Variables rolling_mean rolling_std : nat -> Series -> Series.

Definition calculate_technical_indicators_with : M IndicatorSnapshot :=
  (close <- col "Close" ;; assign "SMA_20" (rolling_mean 20 close) ;;;
   close <- col "Close" ;; assign "SMA_50" (rolling_mean 50 close) ;;;
   close <- col "Close" ;; assign "SMA_200" (rolling_mean 200 close) ;;;
   close <- col "Close" ;;
   let delta := diff close in
   let gain := rolling_mean 14 (where_gt0 delta (Fin 0)) in
   let loss := rolling_mean 14 (sneg (where_lt0 delta (Fin 0))) in
   let rs := zip_with fdiv gain loss in
   assign "RSI" (rsi_of_rs rs) ;;;
   close <- col "Close" ;;
   let exp1 := ewm_mean 12 close in
   close <- col "Close" ;;
   let exp2 := ewm_mean 26 close in
   assign "MACD" (zip_with fsub exp1 exp2) ;;;
   macd_col <- col "MACD" ;;
   assign "Signal_Line" (ewm_mean 9 macd_col) ;;;
   close <- col "Close" ;; assign "BB_Middle" (rolling_mean 20 close) ;;;
   middle <- col "BB_Middle" ;;
   close <- col "Close" ;;
   assign "BB_Upper" (zip_with fadd middle (scale 2 (rolling_std 20 close))) ;;;
   middle <- col "BB_Middle" ;;
   close <- col "Close" ;;
   assign "BB_Lower" (zip_with fsub middle (scale 2 (rolling_std 20 close))) ;;;
   latest <- iloc_last_row ;;
   v_close <- lift (getitem latest "Close") ;;
   v_open <- lift (getitem latest "Open") ;;
   v_high <- lift (getitem latest "High") ;;
   v_low <- lift (getitem latest "Low") ;;
   v_volume <- lift (getitem latest "Volume") ;;
   v_sma_20 <- lift (getitem latest "SMA_20") ;;
   v_sma_50 <- lift (getitem latest "SMA_50") ;;
   v_sma_200 <- lift (getitem latest "SMA_200") ;;
   v_rsi <- lift (getitem latest "RSI") ;;
   v_macd <- lift (getitem latest "MACD") ;;
   v_signal <- lift (getitem latest "Signal_Line") ;;
   v_upper <- lift (getitem latest "BB_Upper") ;;
   v_middle <- lift (getitem latest "BB_Middle") ;;
   v_lower <- lift (getitem latest "BB_Lower") ;;
   ret {| price := {| current := v_close; open := v_open; high := v_high;
                      low := v_low; volume := v_volume |};
          moving_averages := {| sma_20 := v_sma_20; sma_50 := v_sma_50;
                                sma_200 := v_sma_200 |};
          momentum := {| rsi := v_rsi; macd := v_macd;
                         signal_line := v_signal |};
          volatility := {| bollinger_upper := v_upper;
                           bollinger_middle := v_middle;
                           bollinger_lower := v_lower |} |})%frame.

End with_library.

(** The names of the columns the function assigns, in order. *)
Definition indicator_columns : list string :=
  [ "SMA_20"; "SMA_50"; "SMA_200"; "RSI"; "MACD"; "Signal_Line";
    "BB_Middle"; "BB_Upper"; "BB_Lower" ].

End TechnicalAgent.

(** ** risk_analysis_agent.py *)

Module RiskAgent.

Open Scope string_scope.

Record RiskSnapshot : Type := {
  daily_volatility : float;
  annualized_volatility : float;
  var_95 : float;
  var_99 : float;
  max_drawdown : float
}.

Definition calculate_max_drawdown (prices : Series) : float :=
  let peak := expanding_max prices in
  let drawdown := zip_with fdiv (zip_with fsub prices peak) peak in
  series_min drawdown.

Definition calculate_volatility_metrics (hist : DataFrame)
  : result RiskSnapshot :=
  (close <- getitem (columns hist) "Close" ;;
   let returns := dropna (pct_change close) in
   let daily := series_std returns in
   let annualized := (daily * fsqrt (Fin 252))%float in
   v95 <- Numpy.percentile returns 5 ;;
   v99 <- Numpy.percentile returns 1 ;;
   close' <- getitem (columns hist) "Close" ;;
   let mdd := calculate_max_drawdown close' in
   ok {| daily_volatility := daily;
         annualized_volatility := annualized;
         var_95 := v95;
         var_99 := v99;
         max_drawdown := mdd |})%result.

End RiskAgent.

(** ** The moving averages and the RSI in double precision

    The same lines of [calculate_technical_indicators] once more, on IEEE 754
    binary64 numbers and with the loop by which pandas computes a rolling
    mean ([roll_mean] with [add_mean], [remove_mean] and [calc_mean] in
    [pandas/_libs/window/aggregations.pyx]): one running sum for the whole
    series, to which the value entering the window is added and from which
    the value leaving it is subtracted, each with its own Kahan compensation;
    the result is the sum over the number of observations, replaced by the
    last value when the window holds that value only, and by zero when its
    sign contradicts the signs of the values.  Every operation rounds as the
    processor does. *)

Module Binary64.

Definition double : Set := PrimFloat.float.

Definition Series := list double.

Declare Scope b64_scope.
Delimit Scope b64_scope with b64.
Bind Scope b64_scope with PrimFloat.float.
Infix "+" := PrimFloat.add : b64_scope.
Infix "-" := PrimFloat.sub : b64_scope.
Infix "*" := PrimFloat.mul : b64_scope.
Infix "/" := PrimFloat.div : b64_scope.
Notation "- x" := (PrimFloat.opp x) : b64_scope.
Infix "<?" := PrimFloat.ltb (at level 70, no associativity) : b64_scope.
Infix "=?" := PrimFloat.eqb (at level 70, no associativity) : b64_scope.

Open Scope b64_scope.

Definition zero : double := PrimFloat.zero.
Definition one : double := PrimFloat.one.
Definition two : double := PrimFloat.two.
Definition nan : double := PrimFloat.nan.

(** An integer as a double, digit by digit from the leading bit: exact for
    every integer that is a double. *)
Fixpoint of_pos (p : positive) : double :=
  match p with
  | xH => one
  | xO q => two * of_pos q
  | xI q => two * of_pos q + one
  end.

Definition of_Z (z : Z) : double :=
  match z with
  | Z0 => zero
  | Zpos p => of_pos p
  | Zneg p => - of_pos p
  end.

Definition of_nat (n : nat) : double := of_Z (Z.of_nat n).

Definition isnan (x : double) : bool := negb (x =? x).

Definition signbit (x : double) : bool := PrimFloat.get_sign x.

(** [s.diff()], [s.where(s > 0, 0)], [s.where(s < 0, 0)] and [-s] *)
Fixpoint diff_from (prev : double) (s : Series) : Series :=
  match s with
  | [] => []
  | x :: t => (x - prev) :: diff_from x t
  end.

Definition diff (s : Series) : Series := diff_from nan s.

Definition where_gt0 (s : Series) (other : double) : Series :=
  map (fun d => if zero <? d then d else other) s.

Definition where_lt0 (s : Series) (other : double) : Series :=
  map (fun d => if d <? zero then d else other) s.

Definition sneg (s : Series) : Series := map PrimFloat.opp s.

(** The variables of [roll_mean]. *)
Record window_state : Set := {
  nobs : nat;
  neg_ct : nat;
  sum_x : double;
  compensation_add : double;
  compensation_remove : double;
  num_consecutive_same_value : nat;
  prev_value : double
}.

Definition add_mean (val : double) (st : window_state) : window_state :=
  if isnan val then st
  else
    let y := val - compensation_add st in
    let t := sum_x st + y in
    {| nobs := S (nobs st);
       neg_ct := if signbit val then S (neg_ct st) else neg_ct st;
       sum_x := t;
       compensation_add := t - sum_x st - y;
       compensation_remove := compensation_remove st;
       num_consecutive_same_value :=
         if val =? prev_value st then S (num_consecutive_same_value st) else 1%nat;
       prev_value := val |}.

Definition remove_mean (val : double) (st : window_state) : window_state :=
  if isnan val then st
  else
    let y := - val - compensation_remove st in
    let t := sum_x st + y in
    {| nobs := Nat.pred (nobs st);
       neg_ct := if signbit val then Nat.pred (neg_ct st) else neg_ct st;
       sum_x := t;
       compensation_add := compensation_add st;
       compensation_remove := t - sum_x st - y;
       num_consecutive_same_value := num_consecutive_same_value st;
       prev_value := prev_value st |}.

Definition calc_mean (minp : nat) (st : window_state) : double :=
  if Nat.leb minp (nobs st) && Nat.ltb 0 (nobs st) then
    let result := sum_x st / of_nat (nobs st) in
    if Nat.leb (nobs st) (num_consecutive_same_value st) then prev_value st
    else if Nat.eqb (neg_ct st) 0 && (result <? zero) then zero
    else if Nat.eqb (neg_ct st) (nobs st) && (zero <? result) then zero
    else result
  else nan.

(** The loop over the positions [i] of the series, for the window of the
    [w] values that end at [i]: from the second position on, the value at
    [i - w] leaves the window (when there is one) and the value at [i]
    enters it. *)
Fixpoint roll_loop (w minp : nat) (values : Series) (i : nat) (todo : Series)
  (st : window_state) : Series :=
  match todo with
  | [] => []
  | val :: rest =>
      let st1 :=
        if Nat.leb w i then remove_mean (nth (i - w) values nan) st else st in
      let st2 := add_mean val st1 in
      calc_mean minp st2 :: roll_loop w minp values (S i) rest st2
  end.

Definition roll_mean (w minp : nat) (values : Series) : Series :=
  match values with
  | [] => []
  | first :: _ =>
      roll_loop w minp values 0 values
        {| nobs := 0; neg_ct := 0; sum_x := zero;
           compensation_add := zero; compensation_remove := zero;
           num_consecutive_same_value := 0; prev_value := first |}
  end.

(** [s.rolling(window=w).mean()]: an infinite value counts as missing, and
    [min_periods] is the size of the window. *)
Definition rolling_mean (w : nat) (s : Series) : Series :=
  roll_mean w w
    (map (fun x => if PrimFloat.is_infinity x then nan else x) s).

(** Lines 17 to 21, the column [RSI]; line 14 and its like, the columns
    [SMA_w]; and the values of the last row. *)
Definition rsi_column (close : Series) : Series :=
  let delta := diff close in
  let gain := rolling_mean 14 (where_gt0 delta zero) in
  let loss := rolling_mean 14 (sneg (where_lt0 delta zero)) in
  let rs := map (fun p => fst p / snd p) (combine gain loss) in
  map (fun r => of_Z 100 - of_Z 100 / (one + r)) rs.

Definition last_value (s : Series) : double := last s nan.

Definition avg_gain (close : Series) : double :=
  last_value (rolling_mean 14 (where_gt0 (diff close) zero)).

Definition avg_loss (close : Series) : double :=
  last_value (rolling_mean 14 (sneg (where_lt0 (diff close) zero))).

Definition rsi (close : Series) : double := last_value (rsi_column close).

Definition sma (w : nat) (close : Series) : double :=
  last_value (rolling_mean w close).

End Binary64.

(** ** Python values, json.dump and json.load

    The payloads handed to the store are Python dictionaries with string
    keys.  A number is kept by its printed form; [PObj] is any other object
    (a date, a decimal), kept by what [str] and [repr] return for it.  A
    text is the sequence of its code points, all below 256. *)

Module Json.

Open Scope string_scope.

Inductive pyval : Type :=
| PNone
| PBool (b : bool)
| PInt (z : Z)
| PFloat (repr : string)
| PStr (s : string)
| PList (items : list pyval)
| PDict (entries : list (string * pyval))
| PObj (str repr : string).

Definition pydict := list (string * pyval).

Inductive json : Type :=
| JNull
| JBool (b : bool)
| JInt (z : Z)
| JFloat (repr : string)
| JStr (s : string)
| JArr (items : list json)
| JObj (members : list (string * json)).

(** [json.dump(v, f, indent=2, default=str)], up to the layout of the text:
    an object json does not know is replaced by its [str]. *)
Fixpoint json_dump (v : pyval) : json :=
  match v with
  | PNone => JNull
  | PBool b => JBool b
  | PInt z => JInt z
  | PFloat r => JFloat r
  | PStr s => JStr s
  | PList l => JArr (map json_dump l)
  | PDict d => JObj (map (fun kv => (fst kv, json_dump (snd kv))) d)
  | PObj s _ => JStr s
  end.

(** [json.load(f)] *)
Fixpoint json_load (j : json) : pyval :=
  match j with
  | JNull => PNone
  | JBool b => PBool b
  | JInt z => PInt z
  | JFloat r => PFloat r
  | JStr s => PStr s
  | JArr l => PList (map json_load l)
  | JObj d => PDict (map (fun kv => (fst kv, json_load (snd kv))) d)
  end.

(** The values json writes as they are: everything but [PObj]. *)
Fixpoint json_native (v : pyval) : bool :=
  match v with
  | PObj _ _ => false
  | PList l => forallb json_native l
  | PDict d => forallb (fun kv => json_native (snd kv)) d
  | _ => true
  end.

Definition string_of_Z (z : Z) : string := NilZero.string_of_int (Z.to_int z).

(** [repr] of a text.  The text goes between single quotes, or between
    double quotes when it holds a single quote and no double quote; the
    backslash and the chosen quote are escaped with a backslash, tab, line
    feed and carriage return are written [\t], [\n] and [\r], and any other
    code point that is not printable is written [\x] and two hexadecimal
    digits. *)
Definition has_char (c : ascii) (s : string) : bool :=
  existsb (Ascii.eqb c) (list_ascii_of_string s).

Definition single_quote : ascii := "039"%char.
Definition double_quote : ascii := "034"%char.
Definition backslash : ascii := "092"%char.

Definition printable (c : ascii) : bool :=
  let n := nat_of_ascii c in
  (Nat.leb 32 n && Nat.ltb n 127)
  || (Nat.leb 161 n && negb (Nat.eqb n 173)).

Definition hex_digit (n : nat) : ascii :=
  nth n (list_ascii_of_string "0123456789abcdef") "0"%char.

Definition escape (quote c : ascii) : string :=
  if Ascii.eqb c quote || Ascii.eqb c backslash
  then String backslash (String c EmptyString)
  else if Ascii.eqb c "009"%char then String backslash "t"
  else if Ascii.eqb c "010"%char then String backslash "n"
  else if Ascii.eqb c "013"%char then String backslash "r"
  else if printable c then String c EmptyString
  else
    let n := nat_of_ascii c in
    String backslash
      (String "x" (String (hex_digit (n / 16)) (String (hex_digit (n mod 16)) EmptyString))).

Definition str_repr (s : string) : string :=
  let quote :=
    if has_char single_quote s && negb (has_char double_quote s)
    then double_quote else single_quote in
  String quote
    (String.concat EmptyString (map (escape quote) (list_ascii_of_string s))
     ++ String quote EmptyString).

(** [repr(v)] and [str(v)].  Inside a list or a dictionary Python prints the
    [repr] of the items and of the keys. *)
Fixpoint py_repr (v : pyval) : string :=
  match v with
  | PNone => "None"
  | PBool b => if b then "True" else "False"
  | PInt z => string_of_Z z
  | PFloat r => r
  | PStr s => str_repr s
  | PList l => "[" ++ String.concat ", " (map py_repr l) ++ "]"
  | PDict d =>
      "{" ++ String.concat ", "
               (map (fun kv => str_repr (fst kv) ++ ": " ++ py_repr (snd kv)) d)
          ++ "}"
  | PObj _ r => r
  end.

Definition py_str (v : pyval) : string :=
  match v with
  | PStr s => s
  | PObj s _ => s
  | _ => py_repr v
  end.

(** [d.get(key, default)] *)
Definition dict_get (d : pydict) (key : string) (default : pyval) : pyval :=
  match lookup key d with
  | Some v => v
  | None => default
  end.

End Json.

Export Json.

(** ** Clock and timestamps

    A naive local [datetime] is the number of microseconds since
    0001-01-01 00:00:00, the smallest one Python has. *)

Module Clock.

Open Scope Z_scope.

Definition datetime := Z.

Definition us_per_day : Z := 86400000000.

(** [datetime.max] is 9999-12-31 23:59:59.999999. *)
Definition datetime_max : datetime := 3652059 * us_per_day - 1.

Definition timedelta_max_days : Z := 999999999.

(** Year, month and day of the day number [d] (0 is 0001-01-01). *)
Definition civil_from_days (d : Z) : Z * Z * Z :=
  let z := d + 306 in
  let era := z / 146097 in
  let doe := z - era * 146097 in
  let yoe := (doe - doe / 1460 + doe / 36524 - doe / 146096) / 365 in
  let doy := doe - (365 * yoe + yoe / 4 - yoe / 100) in
  let mp := (5 * doy + 2) / 153 in
  let day := doy - (153 * mp + 2) / 5 + 1 in
  let month := if mp <? 10 then mp + 3 else mp - 9 in
  let year := yoe + era * 400 + (if month <=? 2 then 1 else 0) in
  (year, month, day).

Definition digit (n : Z) : ascii := ascii_of_nat (48 + Z.to_nat (n mod 10)).

Definition pad2 (n : Z) : string :=
  String (digit (n / 10)) (String (digit n) EmptyString).

(** [t.strftime("%Y%m%d_%H%M%S")], as the C library of Linux formats it:
    month, day, hour, minute and second take two digits; the year is
    written as it is, without leading zeros, so that it takes fewer than
    four digits before the year 1000. *)
Definition strftime (t : datetime) : string :=
  let '(year, month, day) := civil_from_days (t / us_per_day) in
  let secs := (t mod us_per_day) / 1000000 in
  (string_of_Z year ++ pad2 month ++ pad2 day ++ "_"
   ++ pad2 (secs / 3600) ++ pad2 (secs / 60 mod 60) ++ pad2 (secs mod 60))%string.

(** [now - timedelta(days=days)]: both the construction of the interval and
    the subtraction raise [OverflowError] outside Python's ranges. *)
Definition minus_days (now : datetime) (days : Z) : result datetime :=
  if timedelta_max_days <? Z.abs days then raise OverflowError
  else
    let t := now - days * us_per_day in
    if (t <? 0) || (datetime_max <? t) then raise OverflowError else ok t.

End Clock.

(** ** fnmatch and glob

    [glob.glob(os.path.join(directory, pattern))] lists the directory and
    keeps the names that match the last component of the pattern.  In a
    pattern [*] stands for any run of characters, [?] for one character and
    [[...]] for one character of a set. *)

Module Glob.

Open Scope char_scope.

Inductive tok : Type :=
| TStar
| TAny
| TChar (c : ascii)
| TSet (negated : bool) (body : list ascii).

(** The text of a set, from just after the opening bracket: an exclamation
    mark and then a closing bracket in first position belong to the set.
    [None] when the bracket is never closed. *)
Fixpoint until_close (s : list ascii) : option (list ascii * list ascii) :=
  match s with
  | [] => None
  | c :: t =>
      if Ascii.eqb c "]" then Some ([], t)
      else match until_close t with
           | Some (body, rest) => Some (c :: body, rest)
           | None => None
           end
  end.

Definition cons_body (c : ascii) (r : option (list ascii * list ascii)) :=
  match r with
  | Some (body, rest) => Some (c :: body, rest)
  | None => None
  end.

Definition split_set (s : list ascii) : option (bool * list ascii * list ascii) :=
  let '(negated, s1) :=
    match s with
    | "!" :: t => (true, t)
    | _ => (false, s)
    end in
  let r :=
    match s1 with
    | "]" :: t => cons_body "]" (until_close t)
    | _ => until_close s1
    end in
  match r with
  | Some (body, rest) => Some (negated, body, rest)
  | None => None
  end.

(** The pattern as tokens; consecutive stars count once, an unclosed bracket
    is an ordinary character.  [fuel] bounds the number of tokens. *)
Fixpoint translate (fuel : nat) (pat : list ascii) : list tok :=
  match fuel with
  | O => []
  | S fuel' =>
      match pat with
      | [] => []
      | c :: t =>
          if Ascii.eqb c "*" then
            match translate fuel' t with
            | TStar :: ts => TStar :: ts
            | ts => TStar :: ts
            end
          else if Ascii.eqb c "?" then TAny :: translate fuel' t
          else if Ascii.eqb c "[" then
            match split_set t with
            | Some (negated, body, rest) =>
                TSet negated body :: translate fuel' rest
            | None => TChar "[" :: translate fuel' t
            end
          else TChar c :: translate fuel' t
      end
  end.

Definition ascii_leb (a b : ascii) : bool :=
  Nat.leb (nat_of_ascii a) (nat_of_ascii b).

(** Membership in the body of a set: single characters and ranges [a-z]. *)
Fixpoint in_set (body : list ascii) (c : ascii) : bool :=
  match body with
  | [] => false
  | lo :: t =>
      match t with
      | "-" :: hi :: rest =>
          (ascii_leb lo c && ascii_leb c hi) || in_set rest c
      | _ => Ascii.eqb lo c || in_set t c
      end
  end.

Fixpoint match_toks (ts : list tok) (s : list ascii) : bool :=
  match ts with
  | [] => match s with [] => true | _ :: _ => false end
  | TStar :: ts' =>
      (fix star (s : list ascii) : bool :=
         match_toks ts' s
         || match s with [] => false | _ :: s' => star s' end) s
  | TAny :: ts' =>
      match s with [] => false | _ :: s' => match_toks ts' s' end
  | TChar c :: ts' =>
      match s with
      | [] => false
      | c' :: s' => Ascii.eqb c c' && match_toks ts' s'
      end
  | TSet negated body :: ts' =>
      match s with
      | [] => false
      | c' :: s' => xorb negated (in_set body c') && match_toks ts' s'
      end
  end.

Definition chars (s : string) : list ascii := list_ascii_of_string s.

(** [fnmatch.fnmatchcase(name, pat)] *)
Definition fnmatch (name pat : string) : bool :=
  match_toks (translate (String.length pat) (chars pat)) (chars name).

Definition is_hidden (s : string) : bool :=
  match s with
  | String c _ => Ascii.eqb c "."
  | EmptyString => false
  end.

(** A character with no special meaning in a pattern. *)
Definition plain_char (c : ascii) : bool :=
  negb (Ascii.eqb c "*" || Ascii.eqb c "?" || Ascii.eqb c "[").

Definition plain (s : string) : bool := forallb plain_char (chars s).

(** The names of a listing that the pattern selects, in listing order; a name
    that starts with a dot is only selected by a pattern that does. *)
Definition glob_names (names : list string) (pat : string) : list string :=
  filter (fun name => (is_hidden pat || negb (is_hidden name)) && fnmatch name pat)
         names.

End Glob.

(** ** The data directory

    The directory the store works in is a listing of named files, in the
    order [os.listdir] reports them.  A file holds a JSON document or other
    bytes ([None]), carries the time [os.path.getctime] reports, and may
    refuse removal.  Every call of a scenario names this same directory. *)

Module FS.

Import Clock.

Record file : Type := {
  content : option json;
  ctime : datetime;
  removable : bool
}.

Definition directory := list (string * file).

Definition names (d : directory) : list string := map fst d.

Definition contains (c : ascii) (s : string) : bool :=
  existsb (Ascii.eqb c) (list_ascii_of_string s).

(** [open(path, "w")] followed by a write of [j] at time [now].  The
    directory has no sub-directories, so a name with a slash cannot be
    created; a null byte and an over-long name are refused as well. *)
Definition write_file (d : directory) (name : string) (j : json) (now : datetime)
  : result directory :=
  if contains "000"%char name then raise ValueError
  else if contains "/"%char name || Nat.ltb 255 (String.length name)
  then raise OSError
  else ok (set_assoc name
             {| content := Some j; ctime := now; removable := true |} d).

Definition writable_name (name : string) : bool :=
  negb (contains "000"%char name)
  && negb (contains "/"%char name)
  && Nat.leb (String.length name) 255.

(** [os.remove(path)] *)
Fixpoint delete (name : string) (d : directory) : directory :=
  match d with
  | [] => []
  | (n, f) :: t => if String.eqb name n then t else (n, f) :: delete name t
  end.

Definition remove (d : directory) (name : string) : result directory :=
  match lookup name d with
  | None => raise OSError
  | Some f => if removable f then ok (delete name d) else raise OSError
  end.

(** [os.path.getctime(path)] *)
Definition getctime (d : directory) (name : string) : result datetime :=
  match lookup name d with
  | None => raise OSError
  | Some f => ok (ctime f)
  end.

End FS.

(** ** file_utils.py *)

Module FileUtils.

Import Clock FS Glob.

Open Scope string_scope.

(** [max(files, key=os.path.getctime)]: the first file of the greatest
    time. *)
Fixpoint max_by_ctime (d : directory) (best : string) (best_time : datetime)
  (files : list string) : result string :=
  match files with
  | [] => ok best
  | f :: rest =>
      (t <- getctime d f ;;
       if (best_time <? t)%Z then max_by_ctime d f t rest
       else max_by_ctime d best best_time rest)%result
  end.

Definition latest_of (d : directory) (files : list string) : result (option string) :=
  match files with
  | [] => ok None
  | f :: rest =>
      (t <- getctime d f ;;
       best <- max_by_ctime d f t rest ;;
       ok (Some best))%result
  end.

Definition file_name (symbol prefix timestamp : string) : string :=
  symbol ++ "_" ++ prefix ++ "_" ++ timestamp ++ ".json".

Definition pattern (symbol prefix : string) : string :=
  symbol ++ "_" ++ prefix ++ "_*.json".

(** [store_json_info(info, symbol, prefix=prefix)] at clock reading [now]:
    the new state of the directory and the name of the file written. *)
Definition store_json_info (now : datetime) (d : directory) (info : pydict)
  (symbol : option string) (prefix : string) : result (directory * string) :=
  let symbol :=
    match symbol with
    | None => py_str (dict_get info "symbol" (PStr "unknown"))
    | Some s => s
    end in
  let timestamp := strftime now in
  let file_path := file_name symbol prefix timestamp in
  (d' <- write_file d file_path (json_dump (PDict info)) now ;;
   ok (d', file_path))%result.

(** [find_latest_json_file(symbol, prefix=prefix)] *)
Definition find_latest_json_file (d : directory) (symbol prefix : string)
  : result (option string) :=
  latest_of d (glob_names (names d) (pattern symbol prefix)).

(** [read_latest_json_file(symbol, prefix=prefix)]; a file that is not a
    JSON document makes [json.load] raise. *)
Definition read_latest_json_file (d : directory) (symbol prefix : string)
  : result (option pyval) :=
  (latest <- latest_of d (glob_names (names d) (pattern symbol prefix)) ;;
   match latest with
   | None => ok None
   | Some latest_file =>
       match lookup latest_file d with
       | None => raise OSError
       | Some f =>
           match content f with
           | None => raise ValueError
           | Some j => ok (Some (json_load j))
           end
       end
   end)%result.

(** [list_all_files(prefix=prefix)]: an absent or empty prefix lists
    [*.json]. *)
Definition list_all_files (d : directory) (prefix : option string) : list string :=
  match prefix with
  | None | Some EmptyString => glob_names (names d) "*.json"
  | Some p => glob_names (names d) ("*_" ++ p ++ "_*.json")
  end.

(** The loop of [delete_old_files]: the directory and the count after the
    files of the list have been visited. *)
Fixpoint delete_loop (cutoff_date : datetime) (files : list string)
  (d : directory) (deleted_count : nat) : result (directory * nat) :=
  match files with
  | [] => ok (d, deleted_count)
  | file_path :: rest =>
      (file_time <- getctime d file_path ;;
       if (file_time <? cutoff_date)%Z then
         match remove d file_path with
         | inr d' => delete_loop cutoff_date rest d' (S deleted_count)
         | inl OSError => delete_loop cutoff_date rest d deleted_count
         | inl e => raise e
         end
       else delete_loop cutoff_date rest d deleted_count)%result
  end.

(** [delete_old_files(days)] at clock reading [now] *)
Definition delete_old_files (now : datetime) (d : directory) (days : Z)
  : result (directory * nat) :=
  (cutoff_date <- minus_days now days ;;
   delete_loop cutoff_date (list_all_files d None) d 0)%result.

End FileUtils.

(** ** The sweep in a directory with symbolic links

    [glob] lists the names of a directory without looking at the files
    behind them: a symbolic link whose target is missing is listed like any
    other name, while [os.path.getctime], which follows links, fails on it.
    Here [delete_old_files] is given once more for directories that may hold
    such links.  The directory is part of the outcome also when the call
    fails, since the files removed before the failure stay removed. *)

Module Links.

Import Clock FS Glob.

Open Scope string_scope.

Inductive entry : Type :=
| Regular (f : file)
| Dangling (unlinkable : bool).

Definition directory := list (string * entry).

Definition names (d : directory) : list string := map fst d.

(** A directory of files only. *)
Definition of_files (d : FS.directory) : directory :=
  map (fun e => (fst e, Regular (snd e))) d.

(** [os.path.getctime(path)] *)
Definition getctime (d : directory) (name : string) : result datetime :=
  match lookup name d with
  | Some (Regular f) => ok (ctime f)
  | Some (Dangling _) => raise OSError
  | None => raise OSError
  end.

(** [os.remove(path)]: on a link it removes the link. *)
Fixpoint delete (name : string) (d : directory) : directory :=
  match d with
  | [] => []
  | (n, x) :: t => if String.eqb name n then t else (n, x) :: delete name t
  end.

Definition remove (d : directory) (name : string) : result directory :=
  match lookup name d with
  | None => raise OSError
  | Some (Regular f) => if removable f then ok (delete name d) else raise OSError
  | Some (Dangling unlinkable) =>
      if unlinkable then ok (delete name d) else raise OSError
  end.

(** [list_all_files()] *)
Definition list_all_files (d : directory) : list string :=
  glob_names (names d) "*.json".

(** The loop of [delete_old_files].  The call of [os.path.getctime] in line
    66 is outside the [try] of lines 68 to 72: its exception ends the call. *)
Fixpoint delete_loop (cutoff_date : datetime) (files : list string)
  (d : directory) (deleted_count : nat) : result nat * directory :=
  match files with
  | [] => (ok deleted_count, d)
  | file_path :: rest =>
      match getctime d file_path with
      | inl e => (raise e, d)
      | inr file_time =>
          if (file_time <? cutoff_date)%Z then
            match remove d file_path with
            | inr d' => delete_loop cutoff_date rest d' (S deleted_count)
            | inl OSError => delete_loop cutoff_date rest d deleted_count
            | inl e => (raise e, d)
            end
          else delete_loop cutoff_date rest d deleted_count
      end
  end.

(** [delete_old_files(days)] at clock reading [now] *)
Definition delete_old_files (now : datetime) (d : directory) (days : Z)
  : result nat * directory :=
  match minus_days now days with
  | inl e => (raise e, d)
  | inr cutoff_date => delete_loop cutoff_date (list_all_files d) d 0
  end.

End Links.

(** * Definitions the statements are written with

    The statistics below are the mathematical ones, on plain lists of reals;
    the theorems compare them with what the code computes on floats. *)

Module IndicatorSpec.

Import TechnicalAgent RiskAgent.

Open Scope R_scope.

(** The value of a series at the last bar. *)
Definition lastv (s : Series) : float := last s NaN.

(** Arithmetic mean and sample standard deviation (one delta degree of
    freedom). *)
Definition Rsum (l : list R) : R := fold_right Rplus 0 l.

Definition Rmean (l : list R) : R := Rsum l / INR (length l).

Definition sample_var (l : list R) : R :=
  Rsum (map (fun x => (x - Rmean l) * (x - Rmean l)) l) / INR (length l - 1).

Definition sample_std (l : list R) : R := sqrt (sample_var l).

(** A statistic over the trailing [w] values: missing while there are fewer
    than [w] of them. *)
Definition trailing_mean (w : nat) (cs : list R) : float :=
  if Nat.ltb (length cs) w then NaN else Fin (Rmean (lastn w cs)).

Definition trailing_std (w : nat) (cs : list R) : float :=
  if Nat.ltb (length cs) w then NaN else Fin (sample_std (lastn w cs)).

(** Day-over-day deltas of the closes; the gain of a delta is the delta
    with negative values zeroed, its loss the magnitude of the delta with
    positive values zeroed. *)
Fixpoint deltas (cs : list R) : list R :=
  match cs with
  | a :: (b :: _) as t => (b - a) :: deltas t
  | _ => []
  end.

Definition gain_of (d : R) : R := if Rlt_dec 0 d then d else 0.

Definition loss_of (d : R) : R := - (if Rlt_dec d 0 then d else 0).

Definition trailing_deltas (cs : list R) : list R := lastn 14 (deltas cs).

Definition avg_gain (cs : list R) : R :=
  Rmean (map gain_of (trailing_deltas cs)).

Definition avg_loss (cs : list R) : R :=
  Rmean (map loss_of (trailing_deltas cs)).

(** [100 - 100 / (1 + gain / loss)] on floats. *)
Definition rsi_formula (g l : float) : float :=
  (Fin 100 - (Fin 100 / (Fin 1 + g / l)))%float.

(** The exponential moving average as the recurrence
    [y_0 = x_0], [y_t = (1 - alpha) * y_(t-1) + alpha * x_t]. *)
Fixpoint EMA (alpha : R) (x : nat -> R) (t : nat) : R :=
  match t with
  | O => x O
  | S t' => (1 - alpha) * EMA alpha x t' + alpha * x t
  end.

(** The same averages as a list, one value per bar. *)
Fixpoint ema_from (alpha w : R) (l : list R) : list R :=
  match l with
  | [] => []
  | c :: t => let w' := (1 - alpha) * w + alpha * c in w' :: ema_from alpha w' t
  end.

Definition ema_list (alpha : R) (l : list R) : list R :=
  match l with
  | [] => []
  | x0 :: t => x0 :: ema_from alpha x0 t
  end.

Definition macd_list (cs : list R) : list R :=
  zip_with Rminus (ema_list (alpha_of_span 12) cs) (ema_list (alpha_of_span 26) cs).

(** Running peak and drawdown [(price - peak) / peak] of a list of prices. *)
Fixpoint drawdowns_from (peak : R) (l : list R) : list R :=
  match l with
  | [] => []
  | x :: t =>
      let peak' := if Rlt_dec peak x then x else peak in
      (x - peak') / peak' :: drawdowns_from peak' t
  end.

Definition drawdowns (l : list R) : list R :=
  match l with
  | [] => []
  | x :: t => (x - x) / x :: drawdowns_from x t
  end.

(** The gain and the loss column of lines 18 and 19, before their rolling
    mean: the deltas with every fall, respectively every rise, replaced by
    zero, and the falls with their sign changed. *)
Definition gains (close : Series) : Series := where_gt0 (diff close) (Fin 0).

Definition losses (close : Series) : Series :=
  sneg (where_lt0 (diff close) (Fin 0)).

(** What a statement may ask of a rolling statistic of the library: one
    value per bar; no value at the last bar while the series is shorter
    than the window ([min_periods] is the window). *)
Definition keeps_length (rolling : nat -> Series -> Series) : Prop :=
  forall w s, length (rolling w s) = length s.

Definition missing_below_window (rolling : nat -> Series -> Series) : Prop :=
  forall w s, (length s < w)%nat -> lastv (rolling w s) = NaN.

(** At the last bar of [bars] the library reports the statistic of the
    trailing window for every window the function asks for: the means of
    20, 50 and 200 closes, the standard deviation of 20 closes, the means of
    14 gains and of 14 losses. *)
Definition reports_window_statistics
  (rolling_mean rolling_std : nat -> Series -> Series) (bars : PriceSeries) : Prop :=
  let close := field bar_close bars in
  let cs := closes bars in
  (forall w, In w [20%nat; 50%nat; 200%nat] -> (w <= length bars)%nat ->
             lastv (rolling_mean w close) = Fin (Rmean (lastn w cs)))
  /\ ((20 <= length bars)%nat ->
      lastv (rolling_std 20%nat close) = Fin (sample_std (lastn 20 cs)))
  /\ ((15 <= length bars)%nat ->
      lastv (rolling_mean 14%nat (gains close)) = Fin (avg_gain cs)
      /\ lastv (rolling_mean 14%nat (losses close)) = Fin (avg_loss cs)).

(** Names for the series [calculate_technical_indicators] and
    [calculate_max_drawdown] compute on the way. *)
Definition rsi_series (close : Series) : Series :=
  let delta := diff close in
  let gain := rolling_mean 14 (where_gt0 delta (Fin 0)) in
  let loss := rolling_mean 14 (sneg (where_lt0 delta (Fin 0))) in
  rsi_of_rs (zip_with fdiv gain loss).

Definition macd_series (close : Series) : Series :=
  zip_with fsub (ewm_mean 12 close) (ewm_mean 26 close).

Definition drawdown_series (prices : Series) (peak : Series) : Series :=
  zip_with fdiv (zip_with fsub prices peak) peak.

(** The columns the call leaves in the caller's frame, after the original
    ones. *)
Definition final_columns (bars : PriceSeries) : list (string * Series) :=
  let close := field bar_close bars in
  [ ("SMA_20"%string, rolling_mean 20 close);
    ("SMA_50"%string, rolling_mean 50 close);
    ("SMA_200"%string, rolling_mean 200 close);
    ("RSI"%string, rsi_series close);
    ("MACD"%string, macd_series close);
    ("Signal_Line"%string, ewm_mean 9 (macd_series close));
    ("BB_Middle"%string, rolling_mean 20 close);
    ("BB_Upper"%string,
      zip_with fadd (rolling_mean 20 close) (scale 2 (rolling_std 20 close)));
    ("BB_Lower"%string,
      zip_with fsub (rolling_mean 20 close) (scale 2 (rolling_std 20 close))) ].

(** The fields of a snapshot. *)
Definition fields_except_rsi (s : IndicatorSnapshot) : list float :=
  [ current (price s); open (price s); high (price s); low (price s);
    volume (price s);
    sma_20 (moving_averages s); sma_50 (moving_averages s);
    sma_200 (moving_averages s);
    macd (momentum s); signal_line (momentum s);
    bollinger_upper (volatility s); bollinger_middle (volatility s);
    bollinger_lower (volatility s) ].

Definition all_fields (s : IndicatorSnapshot) : list float :=
  rsi (momentum s) :: fields_except_rsi s.

Definition zero_risk : RiskSnapshot :=
  {| daily_volatility := Fin 0; annualized_volatility := Fin 0;
     var_95 := Fin 0; var_99 := Fin 0; max_drawdown := Fin 0 |}.

Definition two_bar_flat_risk : RiskSnapshot :=
  {| daily_volatility := NaN; annualized_volatility := NaN;
     var_95 := Fin 0; var_99 := Fin 0; max_drawdown := Fin 0 |}.

(** Sample series: one bar per close, on consecutive days from [d]. *)
Fixpoint mk_bars (d : Z) (cs : list R) : PriceSeries :=
  match cs with
  | [] => []
  | c :: t =>
      {| date := d; bar_open := c; bar_high := c; bar_low := c;
         bar_close := c; bar_volume := 1000 |} :: mk_bars (d + 1) t
  end.

Definition rising15 : PriceSeries :=
  mk_bars 0 [1; 2; 3; 4; 5; 6; 7; 8; 9; 10; 11; 12; 13; 14; 15].

Definition zigzag15 : PriceSeries :=
  mk_bars 0 [10; 11; 10; 12; 11; 13; 12; 14; 13; 15; 14; 16; 15; 17; 16].

Definition rising200 : PriceSeries := mk_bars 0 (map INR (seq 1 200)).

Definition flat200 : PriceSeries := mk_bars 0 (repeat 100 200).

(** Closes between 1 and 9 with one close of 10^17 among the early bars. *)
Definition spiked19 : list Z :=
  [9; 1; 5; 100000000000000000; 4; 7; 6; 7; 6; 7; 7; 4; 8; 2; 3; 2; 7; 6; 4]%Z.

Definition spiked24 : list Z :=
  [8; 100000000000000000; 1; 5; 1; 7; 6; 2; 1; 3; 7; 2; 8; 7; 5; 3; 9; 6; 4;
   8; 1; 5; 5; 4]%Z.

Definition flat2 : PriceSeries := mk_bars 0 [100; 100].

Definition flat3 : PriceSeries := mk_bars 0 [100; 100; 100].

Definition flat_zero3 : PriceSeries := mk_bars 0 [0; 0; 0].

Definition one_bar : PriceSeries := mk_bars 0 [100].

End IndicatorSpec.

Module StoreSpec.

Import Clock FS Glob FileUtils.

Open Scope string_scope.

(** The files [list_all_files] reports: visible names that end in [.json]. *)
Definition listed (name : string) : bool :=
  negb (is_hidden name) && fnmatch name "*.json".

Definition older (cutoff : datetime) (f : file) : bool := (ctime f <? cutoff)%Z.

(** The files a sweep removes: listed, older than the cut-off, removable. *)
Definition swept (cutoff : datetime) (e : string * file) : bool :=
  listed (fst e) && older cutoff (snd e) && removable (snd e).

(** Membership of a name in the list the loop still has to visit, and the
    files that loop removes. *)
Definition mem (n : string) (files : list string) : bool :=
  existsb (String.eqb n) files.

Definition hit (cutoff : datetime) (files : list string) (e : string * file) : bool :=
  mem (fst e) files && older cutoff (snd e) && removable (snd e).

(** The cut-off [now - timedelta(days=days)] exists in Python's ranges. *)
Definition representable (now : datetime) (days : Z) : bool :=
  (Z.abs days <=? timedelta_max_days)%Z
  && (0 <=? now - days * us_per_day)%Z
  && (now - days * us_per_day <=? datetime_max)%Z.

(** The file [store_json_info] leaves for a payload written at [now]. *)
Definition stored_file (info : pydict) (now : datetime) : file :=
  {| content := Some (json_dump (PDict info)); ctime := now; removable := true |}.

(** A text without an opening bracket: as a pattern it holds no set. *)
Definition no_bracket (s : string) : bool :=
  forallb (fun c => negb (Ascii.eqb c "["%char)) (chars s).

(** The same notions for a directory with links: a link without target is
    never removed by the sweep, and a listed one is what makes it fail. *)
Definition sweepable (cutoff : datetime) (x : Links.entry) : bool :=
  match x with
  | Links.Regular f => older cutoff f && removable f
  | Links.Dangling _ => false
  end.

Definition link_swept (cutoff : datetime) (e : string * Links.entry) : bool :=
  listed (fst e) && sweepable cutoff (snd e).

Definition link_hit (cutoff : datetime) (files : list string)
  (e : string * Links.entry) : bool :=
  mem (fst e) files && sweepable cutoff (snd e).

Definition dangling (x : Links.entry) : bool :=
  match x with
  | Links.Regular _ => false
  | Links.Dangling _ => true
  end.

Definition listed_dangling (e : string * Links.entry) : bool :=
  listed (fst e) && dangling (snd e).

(** The JSON document a payload is written as: a value json knows is
    written as it is, list by list and entry by entry, and any other object
    as the string [str] returns for it. *)
Inductive encodes : pyval -> json -> Prop :=
| enc_none : encodes PNone JNull
| enc_bool b : encodes (PBool b) (JBool b)
| enc_int z : encodes (PInt z) (JInt z)
| enc_float r : encodes (PFloat r) (JFloat r)
| enc_str s : encodes (PStr s) (JStr s)
| enc_list l js : Forall2 encodes l js -> encodes (PList l) (JArr js)
| enc_dict d ms :
    Forall2 (fun kv m => fst kv = fst m /\ encodes (snd kv) (snd m)) d ms ->
    encodes (PDict d) (JObj ms)
| enc_obj s r : encodes (PObj s r) (JStr s).

(** Sample data: midnight of day [n], two payloads, two directories. *)
Definition day (n : Z) : datetime := (n * us_per_day)%Z.

Definition sample_info : pydict :=
  [("symbol", PStr "MSFT"); ("sector", PStr "Technology");
   ("employees", PInt 221000)].

Definition other_info : pydict := [("symbol", PStr "AAPL"); ("note", PNone)].

Definition old_notes : directory :=
  [("notes.txt", {| content := None; ctime := day 738000; removable := true |})].

Definition sample_dir : directory :=
  [ ("MSFT_corporate_info_20230101_000000.json",
     {| content := Some (json_dump (PDict sample_info));
        ctime := day 738520; removable := true |});
    ("AAPL_corporate_info_20230102_000000.json",
     {| content := Some (json_dump (PDict other_info));
        ctime := day 738521; removable := false |});
    ("AAPL_corporate_info_20231231_000000.json",
     {| content := Some (json_dump (PDict other_info));
        ctime := day 738884; removable := true |});
    ("notes.txt", {| content := None; ctime := day 738000; removable := true |}) ].

(** Directories with a link whose target is gone: [current], which no
    sweep looks at, and [latest.json], which the sweep lists. *)
Definition linked_dir : Links.directory :=
  [ ("MSFT_corporate_info_20230101_000000.json",
     Links.Regular {| content := Some (json_dump (PDict sample_info));
                      ctime := day 738520; removable := true |});
    ("current", Links.Dangling true);
    ("AAPL_corporate_info_20230102_000000.json",
     Links.Regular {| content := Some (json_dump (PDict other_info));
                      ctime := day 738521; removable := false |});
    ("AAPL_corporate_info_20231231_000000.json",
     Links.Regular {| content := Some (json_dump (PDict other_info));
                      ctime := day 738884; removable := true |}) ].

Definition broken_dir : Links.directory :=
  [ ("MSFT_corporate_info_20230101_000000.json",
     Links.Regular {| content := Some (json_dump (PDict sample_info));
                      ctime := day 738520; removable := true |});
    ("latest.json", Links.Dangling true);
    ("AAPL_corporate_info_20230102_000000.json",
     Links.Regular {| content := Some (json_dump (PDict other_info));
                      ctime := day 738521; removable := true |}) ].

End StoreSpec.

(** ** industry_info_utils.py

    [IndustryInfoUtils] keeps its own copies of the store and of the lookup,
    with the category fixed in the file name. *)

Module IndustryInfoUtils.

Import Clock FS Glob FileUtils.

Open Scope string_scope.

(** [store_info(info, symbol)] at clock reading [now] *)
Definition store_info (now : datetime) (d : directory) (info : pydict)
  (symbol : option string) : result (directory * string) :=
  let symbol :=
    match symbol with
    | None => py_str (dict_get info "symbol" (PStr "unknown"))
    | Some s => s
    end in
  let timestamp := strftime now in
  let file_path := symbol ++ "_industry_info_" ++ timestamp ++ ".json" in
  (d' <- write_file d file_path (json_dump (PDict info)) now ;;
   ok (d', file_path))%result.

(** [find_local_stored_latest_industry_info_file(symbol)] *)
Definition find_local_stored_latest_industry_info_file (d : directory)
  (symbol : string) : result (option string) :=
  let pattern := symbol ++ "_industry_info_*.json" in
  let files := glob_names (names d) pattern in
  match files with
  | [] => ok None
  | _ :: _ => latest_of d files
  end.

End IndustryInfoUtils.

(** ** corporate_info_utils.py *)

Module CorporateInfoUtils.

Import Clock FS Glob.

Open Scope string_scope.

(** [store_info(info, symbol)] *)
Definition store_info (now : datetime) (d : directory) (info : pydict)
  (symbol : option string) : result (directory * string) :=
  FileUtils.store_json_info now d info symbol "corporate_info".

(** [read_corporate_info_from_local_file(symbol)] *)
Definition read_corporate_info_from_local_file (d : directory) (symbol : string)
  : result (option pyval) :=
  FileUtils.read_latest_json_file d symbol "corporate_info".

(** [find_local_stored_latest_corporate_info_file(symbol)] *)
Definition find_local_stored_latest_corporate_info_file (d : directory)
  (symbol : string) : result (option string) :=
  FileUtils.find_latest_json_file d symbol "corporate_info".

(** [df.empty]: no row or no column. *)
Definition frame_empty (df : DataFrame) : bool :=
  match index df, columns df with
  | [], _ | _, [] => true
  | _, _ => false
  end.

(** [s.iloc[0]] and [s.iloc[-1]] *)
Definition iloc_first (s : Series) : result float :=
  match s with
  | [] => raise IndexError
  | x :: _ => ok x
  end.

Definition iloc_final (s : Series) : result float :=
  match s with
  | [] => raise IndexError
  | _ :: _ => ok (last s NaN)
  end.

Record PeriodStats : Type := {
  start : float;
  end_ : float;
  change : float;
  change_percent : float
}.

(** [_get_period_stats(hist_data, period)]; the empty dictionary is
    [None]. *)
Definition _get_period_stats (hist_data : option DataFrame) (period : string)
  : result (option PeriodStats) :=
  match hist_data with
  | None => ok None
  | Some hist =>
      if frame_empty hist then ok None
      else
        (c <- getitem (columns hist) "Close" ;; v_start <- iloc_first c ;;
         c <- getitem (columns hist) "Close" ;; v_end <- iloc_final c ;;
         c <- getitem (columns hist) "Close" ;; e1 <- iloc_final c ;;
         c <- getitem (columns hist) "Close" ;; s1 <- iloc_first c ;;
         c <- getitem (columns hist) "Close" ;; e2 <- iloc_final c ;;
         c <- getitem (columns hist) "Close" ;; s2 <- iloc_first c ;;
         c <- getitem (columns hist) "Close" ;; s3 <- iloc_first c ;;
         ok (Some {| start := v_start;
                     end_ := v_end;
                     change := (e1 - s1)%float;
                     change_percent := ((e2 - s2) / s3 * Fin 100)%float |}))%result
  end.

(** The ["periods"] entry of [_get_price_data]: one call per key, each on
    the same frame [hist_data], in the order of the dictionary display. *)
Definition period_labels : list (string * string) :=
  [("1d", "1D"); ("1w", "1W"); ("1m", "1M"); ("3m", "3M"); ("6m", "6M");
   ("1y", "1Y")].

Fixpoint period_entries (hist_data : option DataFrame)
  (labels : list (string * string))
  : result (list (string * option PeriodStats)) :=
  match labels with
  | [] => ok []
  | (key, period) :: rest =>
      (stats <- _get_period_stats hist_data period ;;
       entries <- period_entries hist_data rest ;;
       ok ((key, stats) :: entries))%result
  end.

Definition periods (hist_data : option DataFrame)
  : result (list (string * option PeriodStats)) :=
  period_entries hist_data period_labels.

End CorporateInfoUtils.

(** ** risk_analysis_agent.py, the concentration of holdings *)

Module ConcentrationRisk.

Import CorporateInfoUtils.

Open Scope string_scope.

(** [df.head(n)] and [s.sum()], which skips missing values. *)
Definition head (n : nat) (df : DataFrame) : DataFrame :=
  {| index := firstn n (index df);
     columns := map (fun c => (fst c, firstn n (snd c))) (columns df) |}.

Definition series_sum (s : Series) : float := fsum (dropna s).

Record Concentration : Type := {
  institutional_concentration : float;
  institutional_holders_count : nat;
  major_holders_count : nat
}.

(** [len(df)] of a frame that may be [None]. *)
Definition len_or_zero (df : option DataFrame) : nat :=
  match df with
  | Some f => length (index f)
  | None => 0
  end.

(** [analyze_concentration_risk], from the two holder tables of the
    ticker. *)
Definition analyze_concentration_risk
  (institutional_holders major_holders : option DataFrame)
  : result Concentration :=
  (concentration <-
     match institutional_holders with
     | Some holders =>
         if negb (frame_empty holders) then
           let top_holders := head 5 holders in
           if negb (frame_empty holders) then
             (top <- getitem (columns top_holders) "Shares" ;;
              all <- getitem (columns holders) "Shares" ;;
              ok (series_sum top / series_sum all)%float)
           else ok (Fin 0)
         else ok (Fin 0)
     | None => ok (Fin 0)
     end ;;
   ok {| institutional_concentration := concentration;
         institutional_holders_count := len_or_zero institutional_holders;
         major_holders_count := len_or_zero major_holders |})%result.

(** The table of institutional holders with the given numbers of shares. *)
Definition holders_frame (shares : list R) : DataFrame :=
  {| index := map Z.of_nat (seq 0 (length shares));
     columns := [ ("Shares", map Fin shares) ] |}.

(** The table yfinance returns keeps the numbers of shares as 64-bit
    integers.  [s.sum()] then adds in 64 bits, with wrap-around, and the
    quotient of the two sums is a float.  The function once more for such a
    table, which is its rows and its [Shares] column. *)
Definition wrap_int64 (z : Z) : Z := ((z + 2 ^ 63) mod 2 ^ 64 - 2 ^ 63)%Z.

Definition int64_sum (s : list Z) : Z :=
  fold_left (fun acc x => wrap_int64 (acc + x)) s 0%Z.

Record HoldersTable : Type := {
  holder_index : list Z;
  Shares : list Z
}.

Definition holders_empty (t : HoldersTable) : bool :=
  match holder_index t with
  | [] => true
  | _ :: _ => false
  end.

Definition holders_head (n : nat) (t : HoldersTable) : HoldersTable :=
  {| holder_index := firstn n (holder_index t); Shares := firstn n (Shares t) |}.

Definition analyze_concentration_risk_int64
  (institutional_holders : option HoldersTable) (major_holders : option DataFrame)
  : Concentration :=
  let concentration :=
    match institutional_holders with
    | Some holders =>
        if negb (holders_empty holders) then
          let top_holders := holders_head 5 holders in
          if negb (holders_empty holders) then
            (Fin (IZR (int64_sum (Shares top_holders)))
             / Fin (IZR (int64_sum (Shares holders))))%float
          else Fin 0
        else Fin 0
    | None => Fin 0
    end in
  {| institutional_concentration := concentration;
     institutional_holders_count :=
       match institutional_holders with
       | Some holders => length (holder_index holders)
       | None => 0
       end;
     major_holders_count := len_or_zero major_holders |}.

(** The sum of a list of integers, and a table of holders with the given
    numbers of shares. *)
Definition Zsum (l : list Z) : Z := fold_right Z.add 0%Z l.

Definition holders_table (shares : list Z) : HoldersTable :=
  {| holder_index := map Z.of_nat (seq 0 (length shares)); Shares := shares |}.

End ConcentrationRisk.

(** ** Trends

    A series whose close never falls from a bar to the next, stated on the
    day-over-day deltas, and a short sample series. *)

Module TrendSpec.

Import IndicatorSpec.

Open Scope R_scope.

Definition never_falls (cs : list R) : Prop := Forall (fun d => 0 <= d) (deltas cs).

Definition rising3 : PriceSeries := mk_bars 0 [100; 101; 103].

End TrendSpec.

(** ** Returns

    The day-over-day simple returns [x_t / x_(t-1) - 1] of a list of closes,
    and the value at a fractional position of a sorted list, between its
    neighbours. *)

Module RiskSpec.

Open Scope R_scope.

Fixpoint returns_from (prev : R) (l : list R) : list R :=
  match l with
  | [] => []
  | x :: t => (x / prev - 1) :: returns_from x t
  end.

Definition simple_returns (l : list R) : list R :=
  match l with
  | [] => []
  | x :: t => returns_from x t
  end.

(** Insertion sort on the reals, and the value at the fractional position
    [(n - 1) * q / 100] of a sorted list, interpolated between its
    neighbours. *)
Fixpoint Rinsert (x : R) (s : list R) : list R :=
  match s with
  | [] => [x]
  | y :: t => if Rle_dec x y then x :: s else y :: Rinsert x t
  end.

Definition Rsort (l : list R) : list R := fold_right Rinsert [] l.

Definition quantile (s : list R) (q : Z) : R :=
  let num := ((Z.of_nat (length s) - 1) * q)%Z in
  let i := Z.to_nat (num / 100) in
  nth i s 0 + (nth (S i) s 0 - nth i s 0) * (IZR num / 100 - IZR (num / 100)).

(** The relative change from bar [i] to bar [j]. *)
Definition change_between (l : list R) (i j : nat) : R :=
  (nth j l 0 - nth i l 0) / nth i l 0.

End RiskSpec.

(** ** sentiment_agent.py

    Texts are strings of ASCII characters: [str.lower] maps [A]-[Z] to
    [a]-[z] and leaves every other character alone.  An article is the
    dictionary of its string fields. *)

Module SentimentAgent.

Open Scope string_scope.

Definition lower_char (c : ascii) : ascii :=
  let n := nat_of_ascii c in
  if Nat.leb 65 n && Nat.leb n 90 then ascii_of_nat (n + 32) else c.

Fixpoint lower (s : string) : string :=
  match s with
  | EmptyString => EmptyString
  | String c t => String (lower_char c) (lower t)
  end.

(** [word in text] *)
Fixpoint contains (word text : string) : bool :=
  if String.prefix word text then true
  else
    match text with
    | EmptyString => false
    | String _ t => contains word t
    end.

(** The built-ins [min(a, b)] and [max(a, b)] on two numbers: the second
    argument is returned only when it is strictly smaller (larger). *)
Definition py_min (a b : R) : R := if Rlt_dec b a then b else a.
Definition py_max (a b : R) : R := if Rlt_dec a b then b else a.

Definition positive_keywords : list string :=
  ["gain"; "growth"; "positive"; "up"; "bull"; "strong"].

Definition negative_keywords : list string :=
  ["loss"; "decline"; "negative"; "down"; "bear"; "weak"].

(** The two loops over the keywords, on the running [score]. *)
Definition count_up (text : string) (score : Z) (words : list string) : Z :=
  fold_left (fun s word => if contains word (lower text) then (s + 1)%Z else s)
            words score.

Definition count_down (text : string) (score : Z) (words : list string) : Z :=
  fold_left (fun s word => if contains word (lower text) then (s - 1)%Z else s)
            words score.

Definition keyword_score (text : string) : Z :=
  count_down text (count_up text 0%Z positive_keywords) negative_keywords.

Definition calculate_text_sentiment (text : string) : R :=
  py_max (-1) (py_min 1 (IZR (keyword_score text) / 2)).

Definition article := list (string * string).

(** [article.get("title")], the empty string by default *)
Definition title (a : article) : string :=
  match lookup "title" a with
  | Some t => t
  | None => EmptyString
  end.

Record NewsSentiment : Type := {
  sentiment_score : float;
  article_count : nat
}.

(** [analyze_news_sentiment(news)]; [news] may be [None]. *)
Definition analyze_news_sentiment (news : option (list article)) : NewsSentiment :=
  match news with
  | None | Some [] => {| sentiment_score := Fin 0; article_count := 0 |}
  | Some l =>
      let sentiment_scores :=
        map (fun a => Fin (calculate_text_sentiment (title a))) (firstn 10 l) in
      {| sentiment_score :=
           match sentiment_scores with
           | [] => Fin 0
           | _ :: _ => mean sentiment_scores
           end;
         article_count := length sentiment_scores |}
  end.

(** The table of analyst recommendations: a column is of dtype [object]
    or numeric, and a cell holds a string, a number or nothing. *)
Inductive cell : Type :=
| CStr (s : string)
| CNum (x : float)
| CNone.

Record column : Type := {
  dtype_object : bool;
  cells : list cell
}.

Record Recommendations : Type := {
  rows : nat;
  rec_columns : list (string * column)
}.

Definition rec_empty (r : Recommendations) : bool :=
  match rows r, rec_columns r with
  | O, _ | _, [] => true
  | _, _ => false
  end.

Definition recommendation_map : list (string * R) :=
  [ ("Strong Buy", 1); ("Buy", 3 / 4); ("Hold", 1 / 2); ("Sell", 1 / 4);
    ("Strong Sell", 0) ]%R.

(** [recommendation_map.get(rec, 0.5)] *)
Definition grade_score (c : cell) : R :=
  match c with
  | CStr s =>
      match lookup s recommendation_map with
      | Some v => v
      | None => (1 / 2)%R
      end
  | _ => (1 / 2)%R
  end.

(** The first of the four names that is a column, else the first column
    of dtype [object]. *)
Definition grade_names : list string :=
  ["To Grade"; "toGrade"; "Recommendation"; "Grade"].

Definition find_grade_col (r : Recommendations) : option string :=
  match find (fun col => existsb (String.eqb col) (map fst (rec_columns r)))
             grade_names with
  | Some col => Some col
  | None =>
      match find (fun c => dtype_object (snd c)) (rec_columns r) with
      | Some c => Some (fst c)
      | None => None
      end
  end.

Record RecommendationSentiment : Type := {
  rec_sentiment_score : float;
  recommendation_count : nat
}.

(** [analyze_recommendation_sentiment(recommendations)].  What the function
    prints is not part of the model.  [grade_col] is the name of a column,
    so the lookup of that column finds one. *)
Definition analyze_recommendation_sentiment (recommendations : option Recommendations)
  : RecommendationSentiment :=
  let nothing := {| rec_sentiment_score := Fin 0; recommendation_count := 0 |} in
  match recommendations with
  | None => nothing
  | Some r =>
      if rec_empty r then nothing
      else
        match find_grade_col r with
        | None => nothing
        | Some grade_col =>
            match lookup grade_col (rec_columns r) with
            | None => nothing
            | Some col =>
                let scores := map (fun c => Fin (grade_score c)) (cells col) in
                {| rec_sentiment_score :=
                     match scores with
                     | [] => Fin 0
                     | _ :: _ => mean scores
                     end;
                   recommendation_count := length scores |}
            end
        end
  end.

End SentimentAgent.

(** Sample headlines and recommendation tables. *)

Module SentimentSpec.

Import SentimentAgent.

Open Scope string_scope.

Definition headline (t : string) : article := [("title", t)].

Definition ten_headlines : list article :=
  repeat (headline "Strong growth lifts shares") 10.

Definition late_headlines : list article :=
  [headline "Weak quarter, shares down"; headline "Bear market fears"].

Definition sample_grades : Recommendations :=
  {| rows := 3;
     rec_columns :=
       [ ("Firm", {| dtype_object := true;
                     cells := [CStr "Alpha"; CStr "Beta"; CStr "Gamma"] |});
         ("To Grade", {| dtype_object := true;
                         cells := [CStr "Buy"; CStr "Outperform"; CStr "Strong Sell"] |}) ] |}.

End SentimentSpec.

(** Further sample data for the snapshot store: a payload with a value
    [json.dump] writes through [str], what is read back of it, and a
    directory whose newest snapshot cannot be decoded. *)

Module StoreSamples.

Import Clock FS Glob FileUtils StoreSpec.

Open Scope string_scope.

Definition dated_info : pydict :=
  [("symbol", PStr "MSFT");
   ("as_of", PObj "2024-01-02 00:00:00" "datetime.datetime(2024, 1, 2, 0, 0)")].

Definition reread_info : pydict :=
  [("symbol", PStr "MSFT"); ("as_of", PStr "2024-01-02 00:00:00")].

Definition corrupt_dir : directory :=
  [ ("MSFT_corporate_info_20230101_000000.json",
     {| content := Some (json_dump (PDict sample_info));
        ctime := day 738520; removable := true |});
    ("MSFT_corporate_info_20230102_000000.json",
     {| content := None; ctime := day 738521; removable := true |}) ].

End StoreSamples.

(** * Facts about floats *)

Section float_facts.

Open Scope R_scope.

Lemma Rsign_pos x : 0 < x -> Rsign x = Pos.
Proof.
  intros H. unfold Rsign. destruct (total_order_T x 0) as [[?|?]|?]; trivial; lra.
Qed.

Lemma Rsign_zero : Rsign 0 = Zero.
Proof.
  unfold Rsign. destruct (total_order_T 0 0) as [[?|?]|?]; trivial; lra.
Qed.

Lemma Rsign_nonzero x : x <> 0 -> Rsign x <> Zero.
Proof.
  intros H. unfold Rsign. destruct (total_order_T x 0) as [[?|?]|?]; congruence.
Qed.

Lemma fdiv_fin x y : y <> 0 -> (Fin x / Fin y)%float = Fin (x / y).
Proof.
  intros H. unfold fdiv. pose proof (Rsign_nonzero H).
  destruct (Rsign y); congruence.
Qed.

Lemma fdiv_pos_zero x : 0 < x -> (Fin x / Fin 0)%float = PInf.
Proof. intros H. unfold fdiv. now rewrite Rsign_zero, Rsign_pos. Qed.

Lemma fdiv_zero_zero : (Fin 0 / Fin 0)%float = NaN.
Proof. unfold fdiv. now rewrite !Rsign_zero. Qed.

Lemma Rltb_false x y : y <= x -> Rltb x y = false.
Proof. intros H. unfold Rltb. destruct (Rlt_dec x y); trivial; lra. Qed.

Lemma Reqb_refl x : Reqb x x = true.
Proof. unfold Reqb. destruct (Req_dec_T x x); congruence. Qed.

End float_facts.

(** * The indicator engine *)

Section indicator_engine.

Import TechnicalAgent RiskAgent IndicatorSpec.

Open Scope R_scope.

Section list_facts.
Context {A B : Type}.

Lemma lastn_all n (l : list A) : (length l <= n)%nat -> lastn n l = l.
Proof.
  intros H. unfold lastn. replace (length l - n)%nat with 0%nat by lia. reflexivity.
Qed.

Lemma lastn_length n (l : list A) : (n <= length l)%nat -> length (lastn n l) = n.
Proof. intros H. unfold lastn. rewrite length_skipn. lia. Qed.

Lemma lastn_map (f : A -> B) n (l : list A) : lastn n (map f l) = map f (lastn n l).
Proof. unfold lastn. now rewrite length_map, skipn_map. Qed.

Lemma lastn_cons n a (l : list A) : (n <= length l)%nat -> lastn n (a :: l) = lastn n l.
Proof.
  intros H. unfold lastn. cbn [length].
  replace (S (length l) - n)%nat with (S (length l - n)) by lia. reflexivity.
Qed.

Lemma lastn_incl n (l : list A) x : In x (lastn n l) -> In x l.
Proof.
  unfold lastn. intros H. rewrite <- (firstn_skipn (length l - n) l).
  apply in_or_app. now right.
Qed.

Lemma last_map_nonempty (f : A -> B) (l : list A) d d' :
  l <> [] -> last (map f l) d = f (last l d').
Proof.
  induction l as [|a [|b t] IH]; intros H; [congruence|reflexivity|].
  change (last (map f (b :: t)) d = f (last (b :: t) d')). apply IH. discriminate.
Qed.

Lemma last_nth (l : list A) d : last l d = nth (length l - 1) l d.
Proof.
  induction l as [|a l IH]; [reflexivity|].
  destruct l as [|b t]; [reflexivity|].
  change (last (a :: b :: t) d) with (last (b :: t) d). rewrite IH.
  cbn [length]. rewrite !Nat.sub_succ, !Nat.sub_0_r. reflexivity.
Qed.

End list_facts.

Lemma last_zip_with {A B C} (f : A -> B -> C) a b da db dc :
  length a = length b -> a <> [] ->
  last (zip_with f a b) dc = f (last a da) (last b db).
Proof.
  revert b. induction a as [|x [|y t] IH]; intros [|x' [|y' t']] Hl Hne;
    try discriminate; try congruence; try reflexivity.
  change (last (zip_with f (y :: t) (y' :: t')) dc = f (last (y :: t) da) (last (y' :: t') db)).
  apply IH; [cbn [length] in *; lia | discriminate].
Qed.

Lemma zip_with_length {A B C} (f : A -> B -> C) a b :
  length a = length b -> length (zip_with f a b) = length a.
Proof. intros H. unfold zip_with. rewrite length_map, length_combine. lia. Qed.

Lemma zip_with_map_fin (f : float -> float -> float) (g : R -> R -> R) a b :
  (forall x y, f (Fin x) (Fin y) = Fin (g x y)) ->
  zip_with f (map Fin a) (map Fin b) = map Fin (zip_with g a b).
Proof.
  intros H. revert b. induction a as [|x a IH]; intros [|y b]; try reflexivity.
  unfold zip_with in *. cbn. rewrite H. f_equal. apply IH.
Qed.

(** Finite series *)

Lemma dropna_fin l : dropna (map Fin l) = map Fin l.
Proof.
  unfold dropna. induction l as [|x l IH]; [reflexivity|]. cbn. now rewrite IH.
Qed.

Lemma fsum_fin l : fsum (map Fin l) = Fin (Rsum l).
Proof. induction l as [|x l IH]; [reflexivity|]. cbn. now rewrite IH. Qed.

Lemma INR_length_pos {A} (l : list A) : l <> [] -> 0 < INR (length l).
Proof.
  intros H. destruct l; [congruence|]. cbn [length]. apply lt_0_INR. lia.
Qed.

Lemma mean_fin l : l <> [] -> mean (map Fin l) = Fin (Rmean l).
Proof.
  intros H. unfold mean, of_nat. rewrite fsum_fin, length_map.
  apply fdiv_fin. pose proof (INR_length_pos H). lra.
Qed.

Lemma Rsum_nonneg l : Forall (fun x => 0 <= x) l -> 0 <= Rsum l.
Proof. unfold Rsum. induction 1; cbn; lra. Qed.

Lemma Rsum_squares_nonneg (m : R) l : 0 <= Rsum (map (fun x => (x - m) * (x - m)) l).
Proof.
  apply Rsum_nonneg. apply Forall_forall. intros y Hy.
  apply in_map_iff in Hy as [x [<- _]]. cbv beta. apply Rle_0_sqr.
Qed.

Lemma sample_var_nonneg l : (2 <= length l)%nat -> 0 <= sample_var l.
Proof.
  intros H. unfold sample_var. apply Rmult_le_pos; [apply Rsum_squares_nonneg|].
  apply Rlt_le, Rinv_0_lt_compat, lt_0_INR. lia.
Qed.

Lemma var_fin l : (2 <= length l)%nat -> var 1 (map Fin l) = Fin (sample_var l).
Proof.
  intros H. unfold var. rewrite length_map.
  destruct (Nat.leb_spec (length l) 1); [lia|].
  rewrite mean_fin by (destruct l; [cbn in H; lia | discriminate]).
  rewrite map_map. cbn [fsub fneg fadd fmul].
  change (map (fun x => Fin ((x + - Rmean l) * (x + - Rmean l))) l)
    with (map (fun x => Fin ((x - Rmean l) * (x - Rmean l))) l).
  rewrite <- (map_map (fun x => (x - Rmean l) * (x - Rmean l)) Fin), fsum_fin.
  unfold of_nat. apply fdiv_fin. apply not_0_INR. lia.
Qed.

Lemma fsqrt_nonneg x : 0 <= x -> fsqrt (Fin x) = Fin (sqrt x).
Proof.
  intros H. unfold fsqrt, Rsign.
  destruct (total_order_T x 0) as [[?|?]|?]; trivial; lra.
Qed.

Lemma std_fin l : (2 <= length l)%nat -> std 1 (map Fin l) = Fin (sample_std l).
Proof.
  intros H. unfold std. rewrite var_fin by trivial.
  apply fsqrt_nonneg, sample_var_nonneg, H.
Qed.

(** Rolling windows at the last bar *)

Lemma rolling_length w stat s : length (rolling w stat s) = length s.
Proof. unfold rolling. now rewrite length_map, length_seq. Qed.

Lemma last_rolling w stat s :
  s <> [] ->
  lastv (rolling w stat s) =
  let obs := dropna (lastn w s) in
  if Nat.ltb (length obs) w then NaN else stat obs.
Proof.
  intros H. unfold lastv, rolling.
  destruct (length s) as [|m] eqn:E; [destruct s; [congruence|discriminate]|].
  rewrite seq_S, map_app. cbn [map Nat.add]. rewrite last_last.
  unfold window. now rewrite <- E, firstn_all.
Qed.

Lemma last_rolling_fin w stat l :
  l <> [] ->
  lastv (rolling w stat (map Fin l)) =
  if Nat.ltb (length l) w then NaN else stat (map Fin (lastn w l)).
Proof.
  intros H. rewrite last_rolling by (destruct l; [congruence|discriminate]).
  cbv zeta. rewrite lastn_map, dropna_fin, length_map.
  destruct (Nat.ltb_spec (length l) w) as [Hlt|Hge].
  - rewrite lastn_all by lia. destruct (Nat.ltb_spec (length l) w); [reflexivity|lia].
  - rewrite lastn_length by lia. now rewrite Nat.ltb_irrefl.
Qed.

Lemma last_rolling_mean w l :
  l <> [] -> (0 < w)%nat ->
  lastv (rolling_mean w (map Fin l)) =
  if Nat.ltb (length l) w then NaN else Fin (Rmean (lastn w l)).
Proof.
  intros H Hw. unfold rolling_mean. rewrite last_rolling_fin by trivial.
  destruct (Nat.ltb_spec (length l) w) as [Hlt|Hge]; [reflexivity|].
  apply mean_fin. intros E. apply (f_equal (@length R)) in E.
  rewrite lastn_length in E by lia. cbn in E. lia.
Qed.

Lemma last_rolling_std w l :
  l <> [] -> (2 <= w)%nat ->
  lastv (rolling_std w (map Fin l)) =
  if Nat.ltb (length l) w then NaN else Fin (sample_std (lastn w l)).
Proof.
  intros H Hw. unfold rolling_std. rewrite last_rolling_fin by trivial.
  destruct (Nat.ltb_spec (length l) w) as [Hlt|Hge]; [reflexivity|].
  apply std_fin. rewrite lastn_length; lia.
Qed.

(** Day-over-day deltas, gains and losses *)

Lemma deltas_length cs : length (deltas cs) = (length cs - 1)%nat.
Proof.
  induction cs as [|a [|b t] IH]; try reflexivity.
  change (S (length (deltas (b :: t))) = (length (a :: b :: t) - 1)%nat).
  rewrite IH. cbn [length]. lia.
Qed.

Lemma diff_from_fin p l : diff_from (Fin p) (map Fin l) = map Fin (deltas (p :: l)).
Proof.
  revert p. induction l as [|x l IH]; intros p; [reflexivity|].
  cbn [map diff_from]. rewrite IH. reflexivity.
Qed.

Lemma diff_fin c l : diff (map Fin (c :: l)) = NaN :: map Fin (deltas (c :: l)).
Proof. unfold diff. cbn [map diff_from]. now rewrite diff_from_fin. Qed.

Lemma gains_fin c l :
  where_gt0 (diff (map Fin (c :: l))) (Fin 0) =
  map Fin (0 :: map gain_of (deltas (c :: l))).
Proof.
  rewrite diff_fin. unfold where_gt0. cbn [map]. f_equal.
  rewrite !map_map. apply map_ext. intros d.
  unfold fgtb, fltb, Rltb, gain_of. now destruct (Rlt_dec 0 d).
Qed.

Lemma losses_fin c l :
  sneg (where_lt0 (diff (map Fin (c :: l))) (Fin 0)) =
  map Fin (0 :: map loss_of (deltas (c :: l))).
Proof.
  rewrite diff_fin. unfold where_lt0, sneg. cbn [map fltb fneg]. f_equal.
  - f_equal. lra.
  - rewrite !map_map. apply map_ext. intros d.
    unfold fltb, Rltb, loss_of. now destruct (Rlt_dec d 0).
Qed.

Lemma gain_of_nonneg d : 0 <= gain_of d.
Proof. unfold gain_of. destruct (Rlt_dec 0 d); lra. Qed.

Lemma loss_of_nonneg d : 0 <= loss_of d.
Proof. unfold loss_of. destruct (Rlt_dec d 0); lra. Qed.

Lemma Rsum_nonneg_zero l :
  Forall (fun x => 0 <= x) l -> Rsum l = 0 -> Forall (fun x => x = 0) l.
Proof.
  unfold Rsum. induction 1 as [|x l Hx Hl IH]; intros E; constructor; cbn in E.
  - pose proof (Rsum_nonneg Hl). unfold Rsum in *. lra.
  - apply IH. pose proof (Rsum_nonneg Hl). unfold Rsum in *. lra.
Qed.

Lemma Rsum_pos l :
  Forall (fun x => 0 <= x) l -> Exists (fun x => 0 < x) l -> 0 < Rsum l.
Proof.
  intros Hl He. pose proof (Rsum_nonneg Hl) as H0.
  destruct (Req_dec (Rsum l) 0) as [E|E]; [|lra].
  pose proof (Rsum_nonneg_zero Hl E) as Hz.
  apply Exists_exists in He as [x [Hin Hx]].
  rewrite Forall_forall in Hz. specialize (Hz x Hin). lra.
Qed.

Lemma Rsum_zero l : Forall (fun x => x = 0) l -> Rsum l = 0.
Proof. unfold Rsum. induction 1; cbn; lra. Qed.

Lemma Rmean_nonneg l : Forall (fun x => 0 <= x) l -> l <> [] -> 0 <= Rmean l.
Proof.
  intros H Hne. unfold Rmean. apply Rmult_le_pos; [now apply Rsum_nonneg|].
  apply Rlt_le, Rinv_0_lt_compat, INR_length_pos, Hne.
Qed.

Lemma Rmean_pos l :
  Forall (fun x => 0 <= x) l -> Exists (fun x => 0 < x) l -> 0 < Rmean l.
Proof.
  intros H He. unfold Rmean. apply Rmult_lt_0_compat; [now apply Rsum_pos|].
  apply Rinv_0_lt_compat, INR_length_pos. intros ->. inversion He.
Qed.

Lemma Rmean_zero l : Forall (fun x => x = 0) l -> Rmean l = 0.
Proof. intros H. unfold Rmean. rewrite (Rsum_zero H). unfold Rdiv. apply Rmult_0_l. Qed.

Lemma Forall_map_gain D : Forall (fun x => 0 <= x) (map gain_of D).
Proof. apply Forall_forall. intros y Hy. apply in_map_iff in Hy as [d [<- _]]. apply gain_of_nonneg. Qed.

Lemma Forall_map_loss D : Forall (fun x => 0 <= x) (map loss_of D).
Proof. apply Forall_forall. intros y Hy. apply in_map_iff in Hy as [d [<- _]]. apply loss_of_nonneg. Qed.

(** All deltas non-negative: no loss; some delta non-zero then: a gain. *)
Lemma no_loss D : Forall (fun d => 0 <= d) D -> Rmean (map loss_of D) = 0.
Proof.
  intros H. apply Rmean_zero. apply Forall_forall. intros y Hy.
  apply in_map_iff in Hy as [d [<- Hd]]. rewrite Forall_forall in H.
  specialize (H d Hd). unfold loss_of. destruct (Rlt_dec d 0); lra.
Qed.

Lemma some_gain D :
  Forall (fun d => 0 <= d) D -> Exists (fun d => d <> 0) D ->
  0 < Rmean (map gain_of D).
Proof.
  intros H He. apply Rmean_pos; [apply Forall_map_gain|].
  apply Exists_exists in He as [d [Hd Hnz]]. apply Exists_exists.
  exists (gain_of d). split; [now apply in_map|].
  rewrite Forall_forall in H. specialize (H d Hd).
  unfold gain_of. destruct (Rlt_dec 0 d); lra.
Qed.

Lemma some_loss D :
  Exists (fun d => d < 0) D -> 0 < Rmean (map loss_of D).
Proof.
  intros He. apply Rmean_pos; [apply Forall_map_loss|].
  apply Exists_exists in He as [d [Hd Hneg]]. apply Exists_exists.
  exists (loss_of d). split; [now apply in_map|].
  unfold loss_of. destruct (Rlt_dec d 0); lra.
Qed.

Lemma all_zero_gain_loss D :
  Forall (fun d => d = 0) D ->
  Rmean (map gain_of D) = 0 /\ Rmean (map loss_of D) = 0.
Proof.
  intros H. split; apply Rmean_zero; apply Forall_forall; intros y Hy;
    apply in_map_iff in Hy as [d [<- Hd]]; rewrite Forall_forall in H;
    specialize (H d Hd); subst d.
  - unfold gain_of. destruct (Rlt_dec 0 0); lra.
  - unfold loss_of. destruct (Rlt_dec 0 0); lra.
Qed.

Lemma rsi_formula_loss g l :
  0 <= g -> 0 < l -> rsi_formula (Fin g) (Fin l) = Fin (100 - 100 / (1 + g / l)).
Proof.
  intros Hg Hl. unfold rsi_formula. rewrite fdiv_fin by lra. cbn [fadd].
  assert (0 <= g / l) by (apply Rmult_le_pos; [lra | apply Rlt_le, Rinv_0_lt_compat, Hl]).
  rewrite fdiv_fin by lra. reflexivity.
Qed.

Lemma rsi_formula_no_loss g : 0 < g -> rsi_formula (Fin g) (Fin 0) = Fin 100.
Proof.
  intros Hg. unfold rsi_formula. rewrite fdiv_pos_zero by trivial.
  cbn. f_equal. lra.
Qed.

Lemma rsi_formula_flat : rsi_formula (Fin 0) (Fin 0) = NaN.
Proof. unfold rsi_formula. now rewrite fdiv_zero_zero. Qed.

Lemma rolling_mean_length w s : length (rolling_mean w s) = length s.
Proof. apply rolling_length. Qed.

Lemma rsi_last cs :
  (15 <= length cs)%nat ->
  lastv (rsi_series (map Fin cs)) = rsi_formula (Fin (avg_gain cs)) (Fin (avg_loss cs)).
Proof.
  intros Hn. destruct cs as [|c l]; [cbn in Hn; lia|].
  unfold rsi_series, rsi_of_rs, lastv.
  assert (Hlen : length (deltas (c :: l)) = length l)
    by (rewrite deltas_length; cbn [length]; lia).
  cbn [length] in Hn.
  rewrite (@last_map_nonempty _ _ _ _ NaN NaN).
  2:{ intros E. apply (f_equal (@length float)) in E.
      rewrite zip_with_length in E by (rewrite !rolling_mean_length, gains_fin, losses_fin, !length_map; cbn [length]; now rewrite !length_map).
      rewrite rolling_mean_length, gains_fin, length_map in E. cbn in E. lia. }
  rewrite (@last_zip_with _ _ _ fdiv _ _ NaN NaN NaN).
  2:{ rewrite !rolling_mean_length, gains_fin, losses_fin, !length_map; cbn [length]; now rewrite !length_map. }
  2:{ intros E. apply (f_equal (@length float)) in E.
      rewrite rolling_mean_length, gains_fin, length_map in E. cbn in E. lia. }
  rewrite gains_fin, losses_fin.
  fold (lastv (rolling_mean 14 (map Fin (0 :: map gain_of (deltas (c :: l)))))).
  fold (lastv (rolling_mean 14 (map Fin (0 :: map loss_of (deltas (c :: l)))))).
  rewrite !last_rolling_mean by (discriminate || lia).
  cbn [length]. rewrite !length_map, Hlen.
  destruct (Nat.ltb_spec (S (length l)) 14); [lia|].
  rewrite !lastn_cons by (rewrite length_map; lia).
  rewrite !lastn_map. reflexivity.
Qed.

Lemma ewm_loop_fin alpha w l :
  ewm_loop alpha (Fin w) (Fin 1) (map Fin l) = map Fin (ema_from alpha w l).
Proof.
  revert w. induction l as [|c l IH]; intros w; [reflexivity|].
  cbn [map ewm_loop ema_from notna isnan negb fmul fadd].
  assert (E : (if fneb (Fin w) (Fin c)
               then (Fin (1 * (1 - alpha) * w + alpha * c)
                     / Fin (1 * (1 - alpha) + alpha))%float
               else Fin w) = Fin ((1 - alpha) * w + alpha * c)).
  { unfold fneb, feqb, Reqb. destruct (Req_dec_T w c) as [->|Hne]; cbn [negb].
    - f_equal. lra.
    - rewrite fdiv_fin by lra. f_equal. field. lra. }
  rewrite E. f_equal. apply IH.
Qed.

Lemma ewm_mean_fin span l :
  ewm_mean span (map Fin l) = map Fin (ema_list (alpha_of_span span) l).
Proof.
  destruct l as [|x0 t]; [reflexivity|].
  cbn [map ewm_mean ema_list]. now rewrite ewm_loop_fin.
Qed.

Lemma ema_from_length alpha w l : length (ema_from alpha w l) = length l.
Proof. revert w. induction l as [|c l IH]; intros w; cbn; [reflexivity|now rewrite IH]. Qed.

Lemma ema_list_length alpha l : length (ema_list alpha l) = length l.
Proof. destruct l; cbn; [reflexivity|now rewrite ema_from_length]. Qed.

Lemma ema_from_nth alpha (x : nat -> R) l :
  forall w base,
    w = EMA alpha x base ->
    (forall k, (k < length l)%nat -> nth k l 0 = x (S base + k)%nat) ->
    forall i, (i < length l)%nat ->
      nth i (ema_from alpha w l) 0 = EMA alpha x (S base + i).
Proof.
  induction l as [|c l IH]; intros w base Hw Hx i Hi; [cbn in Hi; lia|].
  cbn [ema_from]. destruct i as [|i].
  - cbn [nth]. rewrite Nat.add_0_r. cbn [EMA]. rewrite Hw.
    specialize (Hx 0%nat ltac:(cbn; lia)). cbn [nth] in Hx.
    rewrite Nat.add_0_r in Hx. now rewrite Hx.
  - cbn [nth]. replace (S base + S i)%nat with (S (S base) + i)%nat by lia.
    apply IH.
    + cbn [EMA]. rewrite Hw.
      specialize (Hx 0%nat ltac:(cbn; lia)). cbn [nth] in Hx.
      rewrite Nat.add_0_r in Hx. now rewrite Hx.
    + intros k Hk. specialize (Hx (S k) ltac:(cbn; lia)). cbn [nth] in Hx.
      rewrite Hx. f_equal. lia.
    + cbn [length] in Hi. lia.
Qed.

Lemma ema_list_nth alpha l i :
  (i < length l)%nat ->
  nth i (ema_list alpha l) 0 = EMA alpha (fun k => nth k l 0) i.
Proof.
  destruct l as [|x0 t]; intros Hi; [cbn in Hi; lia|].
  cbn [ema_list]. destruct i as [|i]; [reflexivity|].
  cbn [nth]. cbn [length] in Hi.
  apply (@ema_from_nth alpha (fun k => nth k (x0 :: t) 0) t x0 0%nat);
    [reflexivity | intros k _; reflexivity | lia].
Qed.

Lemma EMA_ext alpha f g t :
  (forall k, (k <= t)%nat -> f k = g k) -> EMA alpha f t = EMA alpha g t.
Proof.
  induction t as [|t IH]; intros H; cbn [EMA].
  - apply H. lia.
  - rewrite IH by (intros k Hk; apply H; lia). rewrite (H (S t)) by lia. reflexivity.
Qed.

Lemma nth_zip_with (g : R -> R -> R) a b k :
  length a = length b -> (k < length a)%nat ->
  nth k (zip_with g a b) 0 = g (nth k a 0) (nth k b 0).
Proof.
  revert b k. induction a as [|x a IH]; intros [|y b] k Hl Hk;
    try (cbn in *; lia).
  destruct k as [|k]; [reflexivity|].
  unfold zip_with in *. cbn [combine map nth]. apply IH; cbn in *; lia.
Qed.

Lemma lastv_fin l : l <> [] -> lastv (map Fin l) = Fin (nth (length l - 1) l 0).
Proof.
  intros H. unfold lastv. rewrite (@last_map_nonempty _ _ Fin l NaN 0 H).
  now rewrite last_nth.
Qed.

Lemma alpha_of_span_eq span : alpha_of_span span = 2 / (INR span + 1).
Proof. unfold alpha_of_span. pose proof (pos_INR span). field; repeat split; lra. Qed.

Lemma macd_series_fin cs : macd_series (map Fin cs) = map Fin (macd_list cs).
Proof.
  unfold macd_series, macd_list. rewrite !ewm_mean_fin.
  now apply zip_with_map_fin.
Qed.

Lemma macd_list_length cs : length (macd_list cs) = length cs.
Proof.
  unfold macd_list. rewrite zip_with_length; rewrite !ema_list_length; reflexivity.
Qed.

Lemma macd_list_nth cs k :
  (k < length cs)%nat ->
  nth k (macd_list cs) 0 =
  EMA (alpha_of_span 12) (fun i => nth i cs 0) k
  - EMA (alpha_of_span 26) (fun i => nth i cs 0) k.
Proof.
  intros Hk. unfold macd_list.
  rewrite nth_zip_with by (rewrite !ema_list_length; trivial).
  now rewrite !ema_list_nth.
Qed.

Lemma macd_last cs :
  cs <> [] ->
  lastv (macd_series (map Fin cs)) =
  Fin (EMA (alpha_of_span 12) (fun i => nth i cs 0) (length cs - 1)
       - EMA (alpha_of_span 26) (fun i => nth i cs 0) (length cs - 1)).
Proof.
  intros H. rewrite macd_series_fin.
  assert (Hl : (0 < length cs)%nat) by (destruct cs; [congruence | cbn; lia]).
  rewrite lastv_fin.
  - rewrite macd_list_length. rewrite macd_list_nth by lia. reflexivity.
  - intros E. apply (f_equal (@length R)) in E. rewrite macd_list_length in E.
    cbn in E. lia.
Qed.

Lemma signal_last cs :
  cs <> [] ->
  lastv (ewm_mean 9 (macd_series (map Fin cs))) =
  Fin (EMA (alpha_of_span 9)
           (fun t => EMA (alpha_of_span 12) (fun i => nth i cs 0) t
                     - EMA (alpha_of_span 26) (fun i => nth i cs 0) t)
           (length cs - 1)).
Proof.
  intros H. rewrite macd_series_fin, ewm_mean_fin.
  assert (Hl : (0 < length cs)%nat) by (destruct cs; [congruence | cbn; lia]).
  rewrite lastv_fin.
  - rewrite ema_list_length, macd_list_length.
    rewrite ema_list_nth by (rewrite macd_list_length; lia).
    f_equal. apply EMA_ext. intros k Hk. apply macd_list_nth. lia.
  - intros E. apply (f_equal (@length R)) in E.
    rewrite ema_list_length, macd_list_length in E. cbn in E. lia.
Qed.

Lemma run_frame bars :
  snd (calculate_technical_indicators (to_frame bars)) =
  {| index := map date bars;
     columns := columns (to_frame bars) ++ final_columns bars |}.
Proof. destruct bars; reflexivity. Qed.

Lemma run_nonempty bars :
  bars <> [] ->
  let close := field bar_close bars in
  fst (calculate_technical_indicators (to_frame bars)) =
  ok {| price := {| current := lastv close;
                    open := lastv (field bar_open bars);
                    high := lastv (field bar_high bars);
                    low := lastv (field bar_low bars);
                    volume := lastv (field bar_volume bars) |};
        moving_averages := {| sma_20 := lastv (rolling_mean 20 close);
                              sma_50 := lastv (rolling_mean 50 close);
                              sma_200 := lastv (rolling_mean 200 close) |};
        momentum := {| rsi := lastv (rsi_series close);
                       macd := lastv (macd_series close);
                       signal_line := lastv (ewm_mean 9 (macd_series close)) |};
        volatility :=
          {| bollinger_upper :=
               lastv (zip_with fadd (rolling_mean 20 close)
                                    (scale 2 (rolling_std 20 close)));
             bollinger_middle := lastv (rolling_mean 20 close);
             bollinger_lower :=
               lastv (zip_with fsub (rolling_mean 20 close)
                                    (scale 2 (rolling_std 20 close))) |} |}.
Proof. destruct bars; [congruence | reflexivity]. Qed.

Lemma field_fin f bars : field f bars = map Fin (map f bars).
Proof. unfold field. now rewrite map_map. Qed.

Lemma closes_nonempty bars : bars <> [] -> closes bars <> [].
Proof. destruct bars; [congruence | discriminate]. Qed.

Lemma closes_length bars : length (closes bars) = length bars.
Proof. apply length_map. Qed.

Lemma lastv_field f bars :
  bars <> [] -> exists x, lastv (field f bars) = Fin x.
Proof.
  intros H. rewrite field_fin, lastv_fin; [eauto|].
  destruct bars; [congruence | discriminate].
Qed.

Lemma last_sma w bars :
  bars <> [] -> (0 < w)%nat ->
  lastv (rolling_mean w (field bar_close bars)) = trailing_mean w (closes bars).
Proof.
  intros H Hw. rewrite field_fin. apply last_rolling_mean; [now apply closes_nonempty | trivial].
Qed.

Lemma last_band (op : float -> float -> float) bars :
  bars <> [] ->
  lastv (zip_with op (rolling_mean 20 (field bar_close bars))
                     (scale 2 (rolling_std 20 (field bar_close bars)))) =
  op (trailing_mean 20 (closes bars)) (Fin 2 * trailing_std 20 (closes bars))%float.
Proof.
  intros H. unfold lastv at 1.
  assert (Hne : field bar_close bars <> [])
    by (destruct bars; [congruence | discriminate]).
  assert (Hl : forall w stat, rolling w stat (field bar_close bars) <> []).
  { intros w stat E. apply (f_equal (@length float)) in E.
    rewrite rolling_length in E. destruct bars; [congruence | discriminate]. }
  rewrite (@last_zip_with _ _ _ op _ _ NaN NaN NaN).
  - unfold scale. rewrite (@last_map_nonempty _ _ _ _ NaN NaN) by apply Hl.
    fold (lastv (rolling_mean 20 (field bar_close bars))).
    fold (lastv (rolling_std 20 (field bar_close bars))).
    rewrite last_sma by (trivial || lia). rewrite field_fin.
    rewrite last_rolling_std by (try lia; now apply closes_nonempty).
    reflexivity.
  - unfold scale, rolling_mean, rolling_std. now rewrite length_map, !rolling_length.
  - apply Hl.
Qed.

Lemma rsi_bounds g l :
  0 <= g -> 0 < l ->
  0 <= 100 - 100 / (1 + g / l) <= 100.
Proof.
  intros Hg Hl.
  assert (Hq : 0 <= g / l)
    by (apply Rmult_le_pos; [lra | apply Rlt_le, Rinv_0_lt_compat, Hl]).
  assert (Hi : 0 < / (1 + g / l)) by (apply Rinv_0_lt_compat; lra).
  assert (Hi' : / (1 + g / l) <= / 1) by (apply Rinv_le_contravar; lra).
  rewrite Rinv_1 in Hi'.
  change (100 / (1 + g / l)) with (100 * / (1 + g / l)). lra.
Qed.

Lemma trailing_deltas_nonempty cs :
  (15 <= length cs)%nat -> map gain_of (trailing_deltas cs) <> [] /\
                           map loss_of (trailing_deltas cs) <> [].
Proof.
  intros H. assert (E : length (trailing_deltas cs) = 14%nat).
  { unfold trailing_deltas. apply lastn_length. rewrite deltas_length. lia. }
  split; intros E'; apply (f_equal (@length R)) in E';
    rewrite length_map, E in E'; discriminate.
Qed.

(** The value of the RSI at the last bar *)
Lemma rsi_nondegenerate cs :
  (15 <= length cs)%nat ->
  Exists (fun d => d <> 0) (trailing_deltas cs) ->
  exists x, lastv (rsi_series (map Fin cs)) = Fin x /\ 0 <= x <= 100 /\
            (Forall (fun d => 0 <= d) (trailing_deltas cs) -> x = 100).
Proof.
  intros Hn He. rewrite rsi_last by trivial. unfold avg_gain, avg_loss.
  set (D := trailing_deltas cs) in *.
  destruct (trailing_deltas_nonempty cs Hn) as [HG HL]. fold D in HG, HL.
  pose proof (Rmean_nonneg (Forall_map_gain D) HG) as Hg.
  destruct (Forall_Exists_dec (fun d => 0 <= d) (fun d => Rle_dec 0 d) D)
    as [Hall | Hsome].
  - rewrite (no_loss Hall). pose proof (some_gain Hall He) as Hpos.
    rewrite rsi_formula_no_loss by trivial.
    exists 100. repeat split; trivial; lra.
  - assert (Hl : 0 < Rmean (map loss_of D)).
    { apply some_loss. apply Exists_exists in Hsome as [d [Hd Hneg]].
      apply Exists_exists. exists d. split; [trivial | lra]. }
    rewrite rsi_formula_loss by trivial.
    eexists. split; [reflexivity|]. split; [now apply rsi_bounds|].
    intros Hall. rewrite (no_loss Hall) in Hl. lra.
Qed.

Lemma rsi_degenerate cs :
  (15 <= length cs)%nat ->
  Forall (fun d => d = 0) (trailing_deltas cs) ->
  lastv (rsi_series (map Fin cs)) = NaN.
Proof.
  intros Hn H. rewrite rsi_last by trivial. unfold avg_gain, avg_loss.
  destruct (all_zero_gain_loss H) as [-> ->]. apply rsi_formula_flat.
Qed.

Lemma drawdown_from_fin p l :
  0 < p -> Forall (fun x => 0 < x) l ->
  drawdown_series (map Fin l) (expanding_max_from (Fin p) (map Fin l)) =
  map Fin (drawdowns_from p l).
Proof.
  intros Hp Hl. revert p Hp. induction Hl as [|x l Hx Hl IH]; intros p Hp;
    [reflexivity|].
  cbn [map expanding_max_from drawdowns_from isnan fltb].
  unfold Rltb. unfold drawdown_series, zip_with in *.
  destruct (Rlt_dec p x) as [Hlt|Hge]; cbn [combine map fst snd].
  - rewrite IH by trivial. cbn [fsub fneg fadd]. now rewrite fdiv_fin by lra.
  - rewrite IH by trivial. cbn [fsub fneg fadd]. now rewrite fdiv_fin by lra.
Qed.

Lemma drawdown_fin l :
  Forall (fun x => 0 < x) l ->
  drawdown_series (map Fin l) (expanding_max (map Fin l)) = map Fin (drawdowns l).
Proof.
  intros Hl. destruct Hl as [|x l Hx Hl]; [reflexivity|].
  unfold expanding_max. cbn [map expanding_max_from drawdowns isnan].
  pose proof (drawdown_from_fin Hx Hl) as E.
  unfold drawdown_series, zip_with in *. cbn [combine map fst snd].
  rewrite E. cbn [fsub fneg fadd]. now rewrite fdiv_fin by lra.
Qed.

Lemma drawdowns_from_range p l :
  0 < p -> Forall (fun x => 0 < x) l ->
  Forall (fun d => -1 <= d <= 0) (drawdowns_from p l).
Proof.
  intros Hp Hl. revert p Hp. induction Hl as [|x l Hx Hl IH]; intros p Hp;
    cbn [drawdowns_from]; constructor.
  - destruct (Rlt_dec p x) as [Hlt|Hge].
    + replace ((x - x) / x) with 0 by (field; lra). lra.
    + assert (0 < / p) by now apply Rinv_0_lt_compat.
      replace ((x - p) / p) with (x * / p - 1) by (field; lra).
      assert (x * / p <= 1).
      { replace 1 with (p * / p) by (field; lra).
        apply Rmult_le_compat_r; lra. }
      assert (0 < x * / p) by now apply Rmult_lt_0_compat.
      lra.
  - apply IH. destruct (Rlt_dec p x); lra.
Qed.

Lemma drawdowns_range l :
  Forall (fun x => 0 < x) l -> Forall (fun d => -1 <= d <= 0) (drawdowns l).
Proof.
  intros Hl. destruct Hl as [|x l Hx Hl]; cbn [drawdowns]; constructor.
  - replace ((x - x) / x) with 0 by (field; lra). lra.
  - now apply drawdowns_from_range.
Qed.

Lemma fold_min_fin l x :
  exists m, fold_left (fun m y => if fltb y m then y else m) (map Fin l) (Fin x) = Fin m
            /\ In m (x :: l).
Proof.
  revert x. induction l as [|y l IH]; intros x; cbn [map fold_left].
  - exists x. split; [reflexivity | now left].
  - cbn [fltb]. destruct (Rltb y x).
    + destruct (IH y) as [m [E Hin]]. exists m. split; [trivial|]. now right.
    + destruct (IH x) as [m [E Hin]]. exists m. split; [trivial|].
      destruct Hin as [<-|Hin]; [now left | now right; right].
Qed.

Lemma series_min_fin l :
  l <> [] -> exists m, series_min (map Fin l) = Fin m /\ In m l.
Proof.
  intros H. destruct l as [|x l]; [congruence|].
  unfold series_min. rewrite dropna_fin. cbn [map]. apply fold_min_fin.
Qed.

Lemma max_drawdown_fin l :
  l <> [] -> Forall (fun x => 0 < x) l ->
  exists d, calculate_max_drawdown (map Fin l) = Fin d /\ In d (drawdowns l).
Proof.
  intros Hne Hl. unfold calculate_max_drawdown.
  fold (drawdown_series (map Fin l) (expanding_max (map Fin l))).
  rewrite drawdown_fin by trivial. apply series_min_fin.
  destruct l; [congruence | discriminate].
Qed.

(** Constant series *)

Lemma zip_with_repeat {A B C} (f : A -> B -> C) a b k :
  zip_with f (repeat a k) (repeat b k) = repeat (f a b) k.
Proof.
  unfold zip_with. induction k as [|k IH]; [reflexivity|]. cbn. now rewrite IH.
Qed.

Lemma dropna_repeat_fin x k : dropna (repeat (Fin x) k) = repeat (Fin x) k.
Proof.
  unfold dropna. induction k as [|k IH]; [reflexivity|]. cbn. now rewrite IH.
Qed.

Lemma ffill_from_repeat p x k :
  ffill_from p (repeat (Fin x) k) = repeat (Fin x) k.
Proof.
  revert p. induction k as [|k IH]; intros p; [reflexivity|]. cbn. now rewrite IH.
Qed.

Lemma removelast_repeat {A} (a : A) k : removelast (repeat a (S k)) = repeat a k.
Proof.
  induction k as [|k IH]; [reflexivity|].
  change (repeat a (S (S k))) with (a :: repeat a (S k)).
  change (removelast (a :: repeat a (S k))) with (a :: removelast (repeat a (S k))).
  now rewrite IH.
Qed.

(** The returns of a flat series with a close that is not zero *)
Lemma pct_change_flat c k :
  c <> 0 ->
  dropna (pct_change (repeat (Fin c) (S k))) = repeat (Fin 0) k.
Proof.
  intros Hc. unfold pct_change, ffill. rewrite ffill_from_repeat.
  unfold shift. change (repeat (Fin c) (S k)) with (Fin c :: repeat (Fin c) k) at 1 2.
  rewrite removelast_repeat.
  unfold zip_with. cbn [combine map fst snd fdiv fsub fneg fadd].
  fold (zip_with fdiv (repeat (Fin c) k) (repeat (Fin c) k)).
  rewrite zip_with_repeat, map_repeat, fdiv_fin by trivial.
  cbn [fsub fneg fadd]. assert (E0 : c / c + - (1) = 0) by (unfold Rdiv; rewrite Rinv_r; [lra | trivial]). rewrite E0.
  unfold dropna at 1. cbn [filter notna isnan negb]. apply dropna_repeat_fin.
Qed.

Lemma Rsum_repeat_zero k : Rsum (repeat 0 k) = 0.
Proof. unfold Rsum. induction k as [|k IH]; cbn; lra. Qed.

Lemma std_flat k : (2 <= k)%nat -> std 1 (repeat (Fin 0) k) = Fin 0.
Proof.
  intros Hk. rewrite <- (map_repeat 0 k Fin).
  rewrite std_fin by (rewrite repeat_length; lia).
  f_equal. unfold sample_std, sample_var.
  assert (Hm : Rmean (repeat 0 k) = 0)
    by (unfold Rmean; rewrite Rsum_repeat_zero; unfold Rdiv; ring).
  rewrite Hm, map_repeat. replace ((0 - 0) * (0 - 0)) with 0 by ring.
  rewrite Rsum_repeat_zero. unfold Rdiv. rewrite Rmult_0_l. apply sqrt_0.
Qed.

Lemma insert_sorted_repeat x k :
  Numpy.insert_sorted (Fin x) (repeat (Fin x) k) = Fin x :: repeat (Fin x) k.
Proof.
  destruct k as [|k]; [reflexivity|]. cbn [repeat Numpy.insert_sorted].
  unfold fleb, feqb. rewrite Reqb_refl. now rewrite orb_true_r.
Qed.

Lemma sort_repeat x k : Numpy.sort (repeat (Fin x) k) = repeat (Fin x) k.
Proof.
  unfold Numpy.sort. induction k as [|k IH]; [reflexivity|].
  cbn [repeat fold_right]. rewrite IH. apply insert_sorted_repeat.
Qed.

Lemma existsb_isnan_repeat x k : existsb isnan (repeat (Fin x) k) = false.
Proof. induction k as [|k IH]; [reflexivity|]. cbn. apply IH. Qed.

Lemma nth_repeat_lt {A} (a d : A) k i : (i < k)%nat -> nth i (repeat a k) d = a.
Proof.
  revert i. induction k as [|k IH]; intros i Hi; [lia|].
  destruct i as [|i]; [reflexivity|]. cbn. apply IH. lia.
Qed.

Lemma lerp_same x t : Numpy.lerp (Fin x) (Fin x) t = Fin x.
Proof.
  unfold Numpy.lerp. destruct (Rltb t (1 / 2)); cbn; f_equal; lra.
Qed.

Lemma percentile_flat x k q :
  (0 <= q <= 100)%Z ->
  Numpy.percentile (repeat (Fin x) (S k)) q = ok (Fin x).
Proof.
  intros Hq. unfold Numpy.percentile.
  destruct (Z.ltb_spec q 0); [lia|]. destruct (Z.ltb_spec 100 q); [lia|].
  cbn [orb]. change (repeat (Fin x) (S k)) with (Fin x :: repeat (Fin x) k) at 1.
  cbv iota beta. rewrite existsb_isnan_repeat, sort_repeat, repeat_length.
  cbv zeta. set (n := Z.of_nat (S k)). set (num := ((n - 1) * q)%Z).
  assert (Hn : (1 <= n)%Z) by (subst n; lia).
  assert (Hnum : (0 <= num)%Z) by (subst num; nia).
  destruct (Z.ltb_spec num 0); [lia|].
  assert (Hat : forall i : Z, (- n <= i < n)%Z ->
     nth (Z.to_nat (if (i <? 0)%Z then (n + i)%Z else i)) (repeat (Fin x) (S k)) NaN
     = Fin x).
  { intros i Hi. apply nth_repeat_lt. subst n.
    destruct (Z.ltb_spec i 0); lia. }
  destruct (Z.leb_spec (100 * (n - 1)) num) as [Ha|Ha].
  - rewrite !Hat by lia. f_equal. apply lerp_same.
  - assert (0 <= num / 100 < n - 1)%Z.
    { split; [apply Z.div_pos; lia|]. apply Z.div_lt_upper_bound; lia. }
    rewrite !Hat by lia. f_equal. apply lerp_same.
Qed.

Lemma expanding_max_from_repeat c k :
  expanding_max_from (Fin c) (repeat (Fin c) k) = repeat (Fin c) k.
Proof.
  induction k as [|k IH]; [reflexivity|].
  cbn [repeat expanding_max_from isnan fltb]. rewrite Rltb_false by lra.
  now rewrite IH.
Qed.

Lemma expanding_max_repeat c k :
  expanding_max (repeat (Fin c) (S k)) = repeat (Fin c) (S k).
Proof.
  unfold expanding_max. cbn [repeat expanding_max_from isnan].
  now rewrite expanding_max_from_repeat.
Qed.

Lemma max_drawdown_flat c k :
  c <> 0 -> calculate_max_drawdown (repeat (Fin c) (S k)) = Fin 0.
Proof.
  intros Hc. unfold calculate_max_drawdown. rewrite expanding_max_repeat.
  rewrite !zip_with_repeat. cbn [fsub fneg fadd]. rewrite fdiv_fin by trivial.
  replace ((c + - c) / c) with 0 by (unfold Rdiv; rewrite Rplus_opp_r; ring).
  rewrite <- (map_repeat 0 (S k) Fin).
  destruct (@series_min_fin (repeat 0 (S k))) as [m [E Hin]]; [discriminate|].
  rewrite E. f_equal. now apply repeat_spec in Hin.
Qed.

Lemma closes_mk_bars d cs : closes (mk_bars d cs) = cs.
Proof.
  revert d. induction cs as [|c t IH]; intros d; [reflexivity|].
  unfold closes in *. cbn [mk_bars map bar_close]. now rewrite IH.
Qed.

Lemma mk_bars_length d cs : length (mk_bars d cs) = length cs.
Proof. rewrite <- (closes_mk_bars d cs) at 2. now rewrite closes_length. Qed.

Lemma deltas_flat c n : Forall (fun d => d = 0) (deltas (repeat c n)).
Proof.
  induction n as [|n IH]; [constructor|]. destruct n as [|n]; [constructor|].
  change (repeat c (S (S n))) with (c :: c :: repeat c n).
  cbn [deltas]. constructor; [lra | exact IH].
Qed.

Lemma trailing_deltas_flat c n : Forall (fun d => d = 0) (trailing_deltas (repeat c n)).
Proof.
  apply Forall_forall. intros d Hd. apply lastn_incl in Hd.
  pose proof (deltas_flat c n) as H. rewrite Forall_forall in H. now apply H.
Qed.

Lemma diff_length s : length (diff s) = length s.
Proof.
  unfold diff. generalize NaN. induction s as [|x s IH]; intros p; cbn;
    [reflexivity | now rewrite IH].
Qed.

Lemma rsi_series_length close : length (rsi_series close) = length close.
Proof.
  unfold rsi_series, rsi_of_rs.
  assert (Hg : length (rolling_mean 14 (where_gt0 (diff close) (Fin 0))) = length close)
    by (unfold where_gt0; now rewrite rolling_mean_length, length_map, diff_length).
  assert (Hl : length (rolling_mean 14 (sneg (where_lt0 (diff close) (Fin 0)))) = length close)
    by (unfold sneg, where_lt0; now rewrite rolling_mean_length, !length_map, diff_length).
  rewrite length_map, zip_with_length; congruence.
Qed.

(** C1, counterexample.  On the empty price series
    [calculate_technical_indicators] fails and on a one-bar series
    [calculate_volatility_metrics] fails, and the exception is in both cases
    Python's built-in [IndexError]: the last row of an empty frame,
    respectively a position in an empty array of returns, does not exist.
    The functions define and raise no exception of their own. *)
Lemma built_in_error_counterexample :
  fst (calculate_technical_indicators (to_frame [])) = raise IndexError
  /\ calculate_volatility_metrics (to_frame one_bar) = raise IndexError.
Proof. split; reflexivity. Qed.

(** C1, as amended.  For every price series of at most one bar
    [calculate_volatility_metrics] raises [IndexError], and for the empty
    price series [calculate_technical_indicators] raises [IndexError]. *)
Theorem short_series_index_error (bars : PriceSeries) :
  (length bars <= 1)%nat ->
  calculate_volatility_metrics (to_frame bars) = raise IndexError
  /\ (bars = [] ->
      fst (calculate_technical_indicators (to_frame bars)) = raise IndexError).
Proof.
  intros H. destruct bars as [|b [|b' bars]]; [| |cbn in H; lia].
  - split; reflexivity.
  - split; [reflexivity | discriminate].
Qed.

(** C1 at the empty series. *)
Lemma short_series_index_error_witness :
  calculate_volatility_metrics (to_frame []) = raise IndexError
  /\ (@nil Bar = [] ->
      fst (calculate_technical_indicators (to_frame [])) = raise IndexError).
Proof. apply (@short_series_index_error []). cbn. lia. Defined.

(** C2, counterexample.  After the call on a one-bar series the caller's
    frame is not the frame that was passed in. *)
Lemma frame_mutated_counterexample :
  snd (calculate_technical_indicators (to_frame one_bar)) <> to_frame one_bar.
Proof.
  rewrite run_frame. intros E. apply (f_equal (fun h => length (columns h))) in E.
  cbn in E. discriminate.
Qed.

(** C2, as amended.  For every price series the call keeps the bars (the
    index) and the five original columns with their values, and appends to
    the caller's frame the nine indicator columns [SMA_20], [SMA_50],
    [SMA_200], [RSI], [MACD], [Signal_Line], [BB_Middle], [BB_Upper] and
    [BB_Lower], one value per bar; this also holds when the series is empty
    and the call fails. *)
Theorem indicator_columns_appended (bars : PriceSeries) :
  let hist := to_frame bars in
  let hist' := snd (calculate_technical_indicators hist) in
  index hist' = index hist
  /\ exists added,
       columns hist' = (columns hist ++ added)%list
       /\ map fst added = indicator_columns
       /\ Forall (fun c => length (snd c) = length bars) added.
Proof.
  cbv zeta. rewrite run_frame. split; [reflexivity|].
  exists (final_columns bars). split; [reflexivity|]. split; [reflexivity|].
  assert (Hc : length (field bar_close bars) = length bars) by apply length_map.
  assert (Hm : length (macd_series (field bar_close bars)) = length bars).
  { rewrite field_fin, macd_series_fin, length_map, macd_list_length. apply length_map. }
  unfold final_columns. repeat constructor; cbn [snd].
  - now rewrite rolling_mean_length.
  - now rewrite rolling_mean_length.
  - now rewrite rolling_mean_length.
  - now rewrite rsi_series_length.
  - exact Hm.
  - rewrite field_fin, macd_series_fin, ewm_mean_fin, length_map, ema_list_length, macd_list_length.
    apply length_map.
  - now rewrite rolling_mean_length.
  - rewrite zip_with_length; rewrite !rolling_mean_length; trivial.
    unfold scale, rolling_std. now rewrite length_map, rolling_length.
  - rewrite zip_with_length; rewrite !rolling_mean_length; trivial.
    unfold scale, rolling_std. now rewrite length_map, rolling_length.
Qed.

(** Decide one comparison of two concrete reals that the goal branches
    on, closing the branch that contradicts arithmetic. *)
Ltac case_Rlt :=
  match goal with
  | |- context [Rlt_dec ?a ?b] => destruct (Rlt_dec a b); try lra
  end.

Lemma nonempty_of_length {A} (l : list A) n : (S n <= length l)%nat -> l <> [].
Proof. intros H ->. cbn in H. lia. Qed.

(** The rolling statistics as the library reports them *)

Lemma with_exact_library :
  calculate_technical_indicators_with Pandas.rolling_mean Pandas.rolling_std
  = calculate_technical_indicators.
Proof. reflexivity. Qed.

Section library.

Variables rolling_mean rolling_std : nat -> Series -> Series.

Lemma run_with_nonempty bars :
  bars <> [] ->
  let close := field bar_close bars in
  fst (calculate_technical_indicators_with rolling_mean rolling_std (to_frame bars)) =
  ok {| price := {| current := lastv close;
                    open := lastv (field bar_open bars);
                    high := lastv (field bar_high bars);
                    low := lastv (field bar_low bars);
                    volume := lastv (field bar_volume bars) |};
        moving_averages := {| sma_20 := lastv (rolling_mean 20%nat close);
                              sma_50 := lastv (rolling_mean 50%nat close);
                              sma_200 := lastv (rolling_mean 200%nat close) |};
        momentum :=
          {| rsi := lastv (rsi_of_rs (zip_with fdiv (rolling_mean 14%nat (gains close))
                                                    (rolling_mean 14%nat (losses close))));
             macd := lastv (macd_series close);
             signal_line := lastv (ewm_mean 9 (macd_series close)) |};
        volatility :=
          {| bollinger_upper :=
               lastv (zip_with fadd (rolling_mean 20%nat close)
                                    (scale 2 (rolling_std 20%nat close)));
             bollinger_middle := lastv (rolling_mean 20%nat close);
             bollinger_lower :=
               lastv (zip_with fsub (rolling_mean 20%nat close)
                                    (scale 2 (rolling_std 20%nat close))) |} |}.
Proof. destruct bars; [congruence | reflexivity]. Qed.

Lemma gains_length close : length (gains close) = length close.
Proof. unfold gains, where_gt0. now rewrite length_map, diff_length. Qed.

Lemma losses_length close : length (losses close) = length close.
Proof. unfold losses, sneg, where_lt0. now rewrite !length_map, diff_length. Qed.

Lemma nonempty_length {A} (l : list A) : l <> [] <-> (0 < length l)%nat.
Proof. destruct l; cbn; split; intros H; first [congruence | lia | discriminate]. Qed.

Lemma last_rsi_with close :
  keeps_length rolling_mean -> close <> [] ->
  lastv (rsi_of_rs (zip_with fdiv (rolling_mean 14%nat (gains close))
                                  (rolling_mean 14%nat (losses close))))
  = rsi_formula (lastv (rolling_mean 14%nat (gains close)))
                (lastv (rolling_mean 14%nat (losses close))).
Proof.
  intros Hlen Hne. apply nonempty_length in Hne.
  assert (Hg : length (rolling_mean 14%nat (gains close)) = length close)
    by now rewrite Hlen, gains_length.
  assert (Hl : length (rolling_mean 14%nat (losses close)) = length close)
    by now rewrite Hlen, losses_length.
  unfold lastv, rsi_of_rs.
  rewrite (@last_map_nonempty _ _ _ _ NaN NaN)
    by (apply nonempty_length; rewrite zip_with_length; lia).
  rewrite (@last_zip_with _ _ _ fdiv _ _ NaN NaN NaN)
    by (try apply nonempty_length; lia).
  reflexivity.
Qed.

Lemma last_band_with (op : float -> float -> float) close :
  keeps_length rolling_mean -> keeps_length rolling_std -> close <> [] ->
  lastv (zip_with op (rolling_mean 20%nat close) (scale 2 (rolling_std 20%nat close)))
  = op (lastv (rolling_mean 20%nat close)) (Fin 2 * lastv (rolling_std 20%nat close))%float.
Proof.
  intros Hm Hs Hne. apply nonempty_length in Hne. unfold lastv, scale.
  rewrite (@last_zip_with _ _ _ op _ _ NaN NaN NaN).
  - rewrite (@last_map_nonempty _ _ _ _ NaN NaN)
      by (apply nonempty_length; rewrite Hs; lia).
    reflexivity.
  - now rewrite length_map, Hm, Hs.
  - apply nonempty_length. rewrite Hm. lia.
Qed.

End library.

(** The RSI of two averages that are not negative and not both zero. *)
Lemma rsi_formula_range g l :
  0 <= g -> 0 <= l -> 0 < g + l ->
  exists x, rsi_formula (Fin g) (Fin l) = Fin x /\ 0 <= x <= 100
            /\ (l = 0 -> x = 100).
Proof.
  intros Hg Hl Hs. destruct (Req_dec l 0) as [->|Hnz].
  - exists 100. rewrite rsi_formula_no_loss by lra. repeat split; lra.
  - exists (100 - 100 / (1 + g / l)). rewrite rsi_formula_loss by lra.
    split; [reflexivity|]. split; [apply rsi_bounds; lra | intros; lra].
Qed.

(** The exact window statistics obey what is asked of the library. *)
Lemma exact_mean_keeps_length : keeps_length Pandas.rolling_mean.
Proof. intros w s. apply rolling_length. Qed.

Lemma exact_std_keeps_length : keeps_length Pandas.rolling_std.
Proof. intros w s. apply rolling_length. Qed.

Lemma dropna_length s : (length (dropna s) <= length s)%nat.
Proof. unfold dropna. apply filter_length_le. Qed.

Lemma exact_missing_below_window stat :
  missing_below_window (fun w => rolling w stat).
Proof.
  intros w s Hlt. destruct s as [|x s]; [reflexivity|].
  rewrite last_rolling by discriminate. cbv zeta.
  pose proof (dropna_length (lastn w (x :: s))) as H1.
  rewrite lastn_all in H1 by lia. rewrite lastn_all by lia.
  destruct (Nat.ltb_spec (length (dropna (x :: s))) w); [reflexivity | lia].
Qed.

Lemma last_gain_exact cs :
  (15 <= length cs)%nat ->
  lastv (Pandas.rolling_mean 14 (gains (map Fin cs))) = Fin (avg_gain cs).
Proof.
  intros Hn. destruct cs as [|c l]; [cbn in Hn; lia|]. cbn [length] in Hn.
  unfold gains. rewrite gains_fin.
  rewrite last_rolling_mean by (discriminate || lia).
  cbn [length]. rewrite length_map, deltas_length. cbn [length].
  destruct (Nat.ltb_spec (S (S (length l) - 1)) 14); [lia|].
  rewrite lastn_cons by (rewrite length_map, deltas_length; cbn [length]; lia).
  now rewrite lastn_map.
Qed.

Lemma last_loss_exact cs :
  (15 <= length cs)%nat ->
  lastv (Pandas.rolling_mean 14 (losses (map Fin cs))) = Fin (avg_loss cs).
Proof.
  intros Hn. destruct cs as [|c l]; [cbn in Hn; lia|]. cbn [length] in Hn.
  unfold losses. rewrite losses_fin.
  rewrite last_rolling_mean by (discriminate || lia).
  cbn [length]. rewrite length_map, deltas_length. cbn [length].
  destruct (Nat.ltb_spec (S (S (length l) - 1)) 14); [lia|].
  rewrite lastn_cons by (rewrite length_map, deltas_length; cbn [length]; lia).
  now rewrite lastn_map.
Qed.

Lemma exact_library_reports bars :
  reports_window_statistics Pandas.rolling_mean Pandas.rolling_std bars.
Proof.
  unfold reports_window_statistics. cbv zeta.
  assert (Hlen : length (closes bars) = length bars) by apply closes_length.
  rewrite field_fin. fold (closes bars). split; [|split].
  - intros w Hw Hle.
    assert (Hpos : (0 < w)%nat) by (cbn in Hw; lia).
    rewrite last_rolling_mean; [|intros E; rewrite E in Hlen; cbn in Hlen; lia|trivial].
    destruct (Nat.ltb_spec (length (closes bars)) w); [lia | reflexivity].
  - intros Hle.
    rewrite last_rolling_std; [|intros E; rewrite E in Hlen; cbn in Hlen; lia|lia].
    destruct (Nat.ltb_spec (length (closes bars)) 20); [lia | reflexivity].
  - intros Hle. split; [apply last_gain_exact | apply last_loss_exact]; lia.
Qed.

(** Averages of a concrete series. *)
Lemma zigzag15_averages :
  avg_gain (closes zigzag15) = 13 / 14 /\ avg_loss (closes zigzag15) = 1 / 2.
Proof.
  unfold zigzag15. rewrite closes_mk_bars.
  unfold avg_gain, avg_loss, trailing_deltas, lastn, Rmean, Rsum.
  cbn [deltas length Nat.sub skipn map fold_right].
  unfold gain_of, loss_of. repeat case_Rlt.
  rewrite INR_IZR_INZ. cbn [Z.of_nat Pos.of_succ_nat Pos.succ]. split; lra.
Qed.

(** C3, counterexample.  Nineteen strictly positive closes, one of them
    10^17 among the first five and the others between 1 and 9; the 14
    trailing deltas are not all zero.  In double precision, with the running
    sum by which pandas computes a rolling mean, the average loss reported at
    the last bar is negative and the RSI is above 100. *)
Lemma rsi_out_of_range_counterexample :
  (15 <= length spiked19)%nat
  /\ Forall (fun c => 0 < c) (map IZR spiked19)
  /\ Exists (fun d => d <> 0) (trailing_deltas (map IZR spiked19))
  /\ PrimFloat.ltb (Binary64.avg_loss (map Binary64.of_Z spiked19)) Binary64.zero = true
  /\ PrimFloat.ltb (Binary64.of_Z 100) (Binary64.rsi (map Binary64.of_Z spiked19)) = true.
Proof.
  split; [cbn; lia|]. split; [|split; [|split]].
  - unfold spiked19. cbn [map]. repeat constructor; lra.
  - unfold spiked19, trailing_deltas, lastn.
    cbn [map deltas length Nat.sub skipn]. apply Exists_cons_hd. lra.
  - vm_compute. reflexivity.
  - vm_compute. reflexivity.
Qed.

(** C3, as amended.  Whatever rolling mean the library supplies (one value
    per bar): for a non-empty price series, when the 14-bar means of the
    gain and of the loss column that it reports at the last bar are numbers
    that are not negative and not both zero, the call returns an RSI that
    is a number between 0 and 100, and exactly 100 when the reported mean
    loss is zero. *)
Theorem rsi_in_range_of_averages
  (rolling_mean rolling_std : nat -> Series -> Series) (bars : PriceSeries) (g l : R) :
  keeps_length rolling_mean ->
  bars <> [] ->
  lastv (rolling_mean 14%nat (gains (field bar_close bars))) = Fin g ->
  lastv (rolling_mean 14%nat (losses (field bar_close bars))) = Fin l ->
  0 <= g -> 0 <= l -> 0 < g + l ->
  exists snap x,
    fst (calculate_technical_indicators_with rolling_mean rolling_std (to_frame bars))
    = ok snap
    /\ rsi (momentum snap) = Fin x
    /\ 0 <= x <= 100
    /\ (l = 0 -> x = 100).
Proof.
  intros Hlen Hne Eg El Hg Hl Hs.
  rewrite (run_with_nonempty rolling_mean rolling_std Hne). cbv zeta.
  destruct (rsi_formula_range Hg Hl Hs) as [x [Ex Hx]].
  eexists. exists x. split; [reflexivity|]. cbn [momentum rsi].
  rewrite last_rsi_with; [|exact Hlen | destruct bars; [congruence | discriminate]].
  rewrite Eg, El. split; [exact Ex | exact Hx].
Qed.

(** C3 with window means computed exactly, at fifteen closes that rise by
    1 or 2 and fall by 1 in turn: the mean gain is 13/14, the mean loss
    1/2. *)
Lemma rsi_in_range_of_averages_witness :
  exists snap x,
    fst (calculate_technical_indicators_with Pandas.rolling_mean Pandas.rolling_std
           (to_frame zigzag15)) = ok snap
    /\ rsi (momentum snap) = Fin x
    /\ 0 <= x <= 100
    /\ (1 / 2 = 0 -> x = 100).
Proof.
  apply (@rsi_in_range_of_averages Pandas.rolling_mean Pandas.rolling_std
           zigzag15 (13 / 14) (1 / 2)).
  - exact exact_mean_keeps_length.
  - discriminate.
  - rewrite field_fin. fold (closes zigzag15).
    rewrite last_gain_exact by (cbn; lia). now rewrite (proj1 zigzag15_averages).
  - rewrite field_fin. fold (closes zigzag15).
    rewrite last_loss_exact by (cbn; lia). now rewrite (proj2 zigzag15_averages).
  - lra.
  - lra.
  - lra.
Defined.

(** C7.  For a non-empty price series the returned [macd] is, at the last
    bar, EMA(12) of the closes minus EMA(26) of the closes, and
    [signal_line] is EMA(9) of that difference series, where EMA(n) is the
    recurrence [y_0 = x_0], [y_t = (1 - alpha) y_(t-1) + alpha x_t] with
    [alpha = 2 / (n + 1)]. *)
Theorem macd_is_ema_difference (bars : PriceSeries) :
  bars <> [] ->
  let x := fun t => nth t (closes bars) 0 in
  let m := fun t => EMA (2 / (12 + 1)) x t - EMA (2 / (26 + 1)) x t in
  let last_bar := (length bars - 1)%nat in
  exists snap,
    fst (calculate_technical_indicators (to_frame bars)) = ok snap
    /\ macd (momentum snap) = Fin (m last_bar)
    /\ signal_line (momentum snap) = Fin (EMA (2 / (9 + 1)) m last_bar).
Proof.
  intros Hne x m last_bar. rewrite (run_nonempty Hne). cbv zeta.
  eexists. split; [reflexivity|]. cbn [momentum macd signal_line].
  rewrite field_fin. fold (closes bars).
  rewrite macd_last, signal_last by now apply closes_nonempty.
  rewrite closes_length. fold last_bar.
  assert (E12 : alpha_of_span 12 = 2 / (12 + 1))
    by (rewrite alpha_of_span_eq, INR_IZR_INZ; reflexivity).
  assert (E26 : alpha_of_span 26 = 2 / (26 + 1))
    by (rewrite alpha_of_span_eq, INR_IZR_INZ; reflexivity).
  assert (E9 : alpha_of_span 9 = 2 / (9 + 1))
    by (rewrite alpha_of_span_eq, INR_IZR_INZ; reflexivity).
  rewrite E12, E26, E9. split; reflexivity.
Qed.

(** C7 at fifteen rising closes 1, 2, ..., 15, whose last bar is bar 14. *)
Lemma macd_is_ema_difference_witness :
  let x := fun t => nth t (closes rising15) 0 in
  let m := fun t => EMA (2 / (12 + 1)) x t - EMA (2 / (26 + 1)) x t in
  exists snap,
    fst (calculate_technical_indicators (to_frame rising15)) = ok snap
    /\ macd (momentum snap) = Fin (m 14%nat)
    /\ signal_line (momentum snap) = Fin (EMA (2 / (9 + 1)) m 14%nat).
Proof.
  apply (@macd_is_ema_difference rising15). discriminate.
Defined.

(** C5.  For every non-empty series of strictly positive prices
    [calculate_max_drawdown] returns a number between -1 and 0; for the
    closes 100, 120, 80, 90 it returns (80 - 120) / 120, which is -1/3. *)
Theorem max_drawdown_range :
  (forall prices : list R,
      prices <> [] -> Forall (fun p => 0 < p) prices ->
      exists d, calculate_max_drawdown (map Fin prices) = Fin d /\ -1 <= d <= 0)
  /\ calculate_max_drawdown (map Fin [100; 120; 80; 90]) = Fin ((80 - 120) / 120)
  /\ (80 - 120) / 120 = - 1 / 3.
Proof.
  split; [|split].
  - intros prices Hne Hpos.
    destruct (max_drawdown_fin Hne Hpos) as [d [E Hin]]. exists d. split; [trivial|].
    pose proof (drawdowns_range Hpos) as Hr. rewrite Forall_forall in Hr. now apply Hr.
  - unfold calculate_max_drawdown.
    fold (drawdown_series (map Fin [100; 120; 80; 90]) (expanding_max (map Fin [100; 120; 80; 90]))).
    rewrite drawdown_fin by (repeat constructor; lra).
    unfold series_min. rewrite dropna_fin.
    cbn [drawdowns drawdowns_from map fold_left].
    repeat case_Rlt. cbn [fltb]. unfold Rltb.
    repeat (case_Rlt; cbn [fltb]; unfold Rltb).
    reflexivity.
  - lra.
Qed.

(** C5 at the closes 100, 120, 80, 90. *)
Lemma max_drawdown_range_witness :
  exists d, calculate_max_drawdown (map Fin [100; 120; 80; 90]) = Fin d /\ -1 <= d <= 0.
Proof.
  apply (proj1 max_drawdown_range).
  - discriminate.
  - repeat constructor; lra.
Defined.

Lemma trailing_mean_fin w cs :
  (w <= length cs)%nat -> trailing_mean w cs = Fin (Rmean (lastn w cs)).
Proof.
  intros H. unfold trailing_mean. destruct (Nat.ltb_spec (length cs) w); [lia | reflexivity].
Qed.

Lemma trailing_mean_nan w cs : (length cs < w)%nat -> trailing_mean w cs = NaN.
Proof.
  intros H. unfold trailing_mean. destruct (Nat.ltb_spec (length cs) w); [reflexivity | lia].
Qed.

Lemma trailing_std_fin w cs :
  (w <= length cs)%nat -> trailing_std w cs = Fin (sample_std (lastn w cs)).
Proof.
  intros H. unfold trailing_std. destruct (Nat.ltb_spec (length cs) w); [lia | reflexivity].
Qed.

Lemma rsi_null_iff cs :
  (15 <= length cs)%nat ->
  lastv (rsi_series (map Fin cs)) <> NaN <->
  Exists (fun d => d <> 0) (trailing_deltas cs).
Proof.
  intros Hn. split.
  - intros H.
    destruct (Forall_Exists_dec (fun d => d = 0) (fun d => Req_dec_T d 0)
                (trailing_deltas cs)) as [Hall | Hex]; [|exact Hex].
    now rewrite (rsi_degenerate cs Hn Hall) in H.
  - intros He. destruct (rsi_nondegenerate cs Hn He) as [x [E _]]. now rewrite E.
Qed.

Lemma flat_rsi_null d c n :
  (15 <= n)%nat ->
  exists snap,
    fst (calculate_technical_indicators (to_frame (mk_bars d (repeat c n)))) = ok snap
    /\ rsi (momentum snap) = NaN.
Proof.
  intros Hn. set (bars := mk_bars d (repeat c n)).
  assert (Hlen : length bars = n)
    by (unfold bars; now rewrite mk_bars_length, repeat_length).
  assert (Hne : bars <> []) by (apply (@nonempty_of_length _ bars 0); lia).
  rewrite (run_nonempty Hne). cbv zeta. eexists. split; [reflexivity|].
  cbn [momentum rsi]. rewrite field_fin. fold (closes bars). apply rsi_degenerate.
  - rewrite closes_length. lia.
  - unfold bars. rewrite closes_mk_bars. apply trailing_deltas_flat.
Qed.

Lemma Forall_mk_bars (P : R -> Prop) d cs :
  Forall P cs -> Forall (fun b => P (bar_close b)) (mk_bars d cs).
Proof.
  intros H. revert d. induction H as [|c t Hc _ IH]; intros d; constructor; auto.
Qed.

Lemma lastn_repeat {A} (a : A) w n : (w <= n)%nat -> lastn w (repeat a n) = repeat a w.
Proof.
  intros H. unfold lastn. rewrite repeat_length.
  replace n with ((n - w) + w)%nat at 2 by lia.
  rewrite repeat_app, skipn_app, repeat_length, Nat.sub_diag.
  rewrite skipn_all2 by (rewrite repeat_length; lia). reflexivity.
Qed.

(** A rising ramp: every delta is 1. *)
Lemma deltas_ramp a n : deltas (map INR (seq a n)) = repeat 1 (n - 1).
Proof.
  revert a. induction n as [|n IH]; intros a; [reflexivity|].
  destruct n as [|n]; [reflexivity|].
  specialize (IH (S a)).
  replace (S (S n) - 1)%nat with (S (S n - 1)) by lia.
  cbn [repeat]. rewrite <- IH. cbn [seq map deltas]. f_equal.
  rewrite S_INR. lra.
Qed.

Lemma rising200_deltas :
  Exists (fun d => d <> 0) (trailing_deltas (closes rising200)).
Proof.
  unfold rising200. rewrite closes_mk_bars. unfold trailing_deltas.
  rewrite deltas_ramp, lastn_repeat by lia.
  apply Exists_cons_hd. lra.
Qed.

Lemma rising200_length : length rising200 = 200%nat.
Proof. unfold rising200. now rewrite mk_bars_length, length_map, length_seq. Qed.

(** C4, counterexample.  Two series of strictly positive closes.  On 200
    bars that all close at 100 the [rsi] field of the result is missing:
    mean gain and mean loss are both zero.  On 24 bars with closes between
    1 and 9 and one close of 10^17 at the second bar, the mean of the last
    20 closes is 4.7, and the [SMA_20] that the running sum of pandas gives
    in double precision at the last bar is below 4. *)
Lemma moving_average_counterexample :
  ((200 <= length flat200)%nat
   /\ Forall (fun b => 0 < bar_close b) flat200
   /\ exists snap,
        fst (calculate_technical_indicators (to_frame flat200)) = ok snap
        /\ ~ Forall not_null (all_fields snap))
  /\ ((20 <= length spiked24)%nat
      /\ Forall (fun c => 0 < c) (map IZR spiked24)
      /\ Rmean (lastn 20 (map IZR spiked24)) = 47 / 10
      /\ PrimFloat.ltb (Binary64.sma 20 (map Binary64.of_Z spiked24))
                       (Binary64.of_Z 4) = true).
Proof.
  split.
  - unfold flat200. split; [|split].
    + rewrite mk_bars_length, repeat_length. apply Nat.le_refl.
    + apply Forall_mk_bars. apply Forall_forall. intros x Hx.
      apply repeat_spec in Hx. lra.
    + destruct (@flat_rsi_null 0%Z 100 200) as [snap [E Hrsi]].
      * repeat constructor.
      * exists snap. split; [exact E|]. intros H.
        unfold all_fields in H. rewrite Hrsi in H.
        apply Forall_inv in H. now apply H.
  - split; [cbn; lia|]. split; [|split].
    + unfold spiked24. cbn [map]. repeat constructor; lra.
    + unfold spiked24, lastn, Rmean, Rsum.
      cbn [map length Nat.sub skipn fold_right].
      rewrite INR_IZR_INZ. cbn [Z.of_nat Pos.of_succ_nat Pos.succ]. lra.
    + vm_compute. reflexivity.
Qed.

(** C4, as amended.  Whatever rolling mean and rolling standard deviation
    the library supplies (one value per bar, no value while the series is
    shorter than the window): for every non-empty price series each
    [sma_w] field ([w] = 20, 50, 200) is the [w]-bar mean the library
    reports at the last bar, [bollinger_middle] is [sma_20], and
    [bollinger_upper] and [bollinger_lower] are [bollinger_middle] plus and
    minus twice the 20-bar standard deviation the library reports; with
    fewer than [w] bars [sma_w] is missing, and with fewer than 20 bars all
    moving-average and Bollinger fields are missing.  When the library
    reports at the last bar the statistics of the trailing windows, each
    [sma_w] is the arithmetic mean of the trailing [w] closes, the bands are
    twice the sample standard deviation of the trailing 20 closes away from
    the middle, and with at least 200 bars every field other than [rsi] is
    present, while [rsi] is present exactly when the 14 trailing deltas are
    not all zero. *)
Theorem moving_averages_and_bands_of_library
  (rolling_mean rolling_std : nat -> Series -> Series) (bars : PriceSeries) :
  keeps_length rolling_mean -> keeps_length rolling_std ->
  missing_below_window rolling_mean -> missing_below_window rolling_std ->
  bars <> [] ->
  let close := field bar_close bars in
  let cs := closes bars in
  exists snap,
    fst (calculate_technical_indicators_with rolling_mean rolling_std (to_frame bars))
    = ok snap
    /\ sma_20 (moving_averages snap) = lastv (rolling_mean 20%nat close)
    /\ sma_50 (moving_averages snap) = lastv (rolling_mean 50%nat close)
    /\ sma_200 (moving_averages snap) = lastv (rolling_mean 200%nat close)
    /\ bollinger_middle (volatility snap) = sma_20 (moving_averages snap)
    /\ bollinger_upper (volatility snap)
       = (bollinger_middle (volatility snap)
          + Fin 2 * lastv (rolling_std 20%nat close))%float
    /\ bollinger_lower (volatility snap)
       = (bollinger_middle (volatility snap)
          - Fin 2 * lastv (rolling_std 20%nat close))%float
    /\ ((length bars < 200)%nat -> sma_200 (moving_averages snap) = NaN)
    /\ ((length bars < 50)%nat -> sma_50 (moving_averages snap) = NaN)
    /\ ((length bars < 20)%nat ->
        sma_20 (moving_averages snap) = NaN
        /\ sma_50 (moving_averages snap) = NaN
        /\ sma_200 (moving_averages snap) = NaN
        /\ bollinger_upper (volatility snap) = NaN
        /\ bollinger_middle (volatility snap) = NaN
        /\ bollinger_lower (volatility snap) = NaN)
    /\ (reports_window_statistics rolling_mean rolling_std bars ->
        sma_20 (moving_averages snap) = trailing_mean 20 cs
        /\ sma_50 (moving_averages snap) = trailing_mean 50 cs
        /\ sma_200 (moving_averages snap) = trailing_mean 200 cs
        /\ bollinger_upper (volatility snap)
           = (bollinger_middle (volatility snap) + Fin 2 * trailing_std 20 cs)%float
        /\ bollinger_lower (volatility snap)
           = (bollinger_middle (volatility snap) - Fin 2 * trailing_std 20 cs)%float
        /\ ((200 <= length bars)%nat ->
            Forall not_null (fields_except_rsi snap)
            /\ (not_null (rsi (momentum snap))
                <-> Exists (fun d => d <> 0) (trailing_deltas cs)))).
Proof.
  intros Hm Hs Nm Ns Hne close cs.
  rewrite (run_with_nonempty rolling_mean rolling_std Hne). cbv zeta.
  eexists. split; [reflexivity|].
  cbn [moving_averages volatility momentum price sma_20 sma_50 sma_200
       bollinger_upper bollinger_middle bollinger_lower rsi fields_except_rsi
       current open high low volume macd signal_line].
  fold close.
  assert (Hc : close <> []) by (unfold close; destruct bars; [congruence | discriminate]).
  assert (Hlc : length close = length bars) by apply length_map.
  assert (Hlen : length cs = length bars) by apply closes_length.
  rewrite !last_band_with by trivial.
  repeat (split; [reflexivity|]).
  assert (Hshort : forall w, (length bars < w)%nat -> lastv (rolling_mean w close) = NaN)
    by (intros w Hw; apply Nm; lia).
  split; [intros H; now apply Hshort|]. split; [intros H; now apply Hshort|].
  split.
  - intros H. rewrite !Hshort by lia. rewrite (Ns 20%nat close) by lia.
    repeat split.
  - intros (Hmean & Hstd & Havg).
    assert (Esma : forall w, In w [20%nat; 50%nat; 200%nat] ->
                             lastv (rolling_mean w close) = trailing_mean w cs).
    { intros w Hw. destruct (Nat.lt_ge_cases (length bars) w) as [Hlt|Hge].
      - rewrite Hshort by trivial. symmetry. apply trailing_mean_nan. lia.
      - rewrite trailing_mean_fin by lia. now apply Hmean. }
    assert (Estd : lastv (rolling_std 20%nat close) = trailing_std 20 cs).
    { destruct (Nat.lt_ge_cases (length bars) 20) as [Hlt|Hge].
      - rewrite (Ns 20%nat close) by lia. unfold trailing_std.
        destruct (Nat.ltb_spec (length cs) 20); [reflexivity | lia].
      - rewrite trailing_std_fin by lia. now apply Hstd. }
    rewrite !Esma by (cbn; tauto). rewrite Estd.
    repeat (split; [reflexivity|]).
    intros Hn.
    rewrite !trailing_mean_fin, trailing_std_fin by lia.
    destruct (lastv_field bar_close Hne) as [c Ec].
    destruct (lastv_field bar_open Hne) as [o Eo].
    destruct (lastv_field bar_high Hne) as [h Eh].
    destruct (lastv_field bar_low Hne) as [l El].
    destruct (lastv_field bar_volume Hne) as [v Ev].
    fold close in Ec. rewrite Ec, Eo, Eh, El, Ev.
    split.
    + unfold close. rewrite field_fin. fold (closes bars). fold cs.
      rewrite macd_last, signal_last by now apply closes_nonempty.
      repeat constructor; discriminate.
    + rewrite last_rsi_with by trivial.
      destruct Havg as [Eg El']; [lia|]. fold close in Eg, El'. rewrite Eg, El'.
      fold cs. rewrite <- rsi_last by lia. apply rsi_null_iff. lia.
Qed.

(** C4 with window statistics computed exactly, at 200 bars whose closes
    rise from 1 to 200. *)
Lemma moving_averages_and_bands_of_library_witness :
  exists snap,
    fst (calculate_technical_indicators_with Pandas.rolling_mean Pandas.rolling_std
           (to_frame rising200)) = ok snap
    /\ sma_20 (moving_averages snap) = trailing_mean 20 (closes rising200)
    /\ sma_200 (moving_averages snap) = trailing_mean 200 (closes rising200)
    /\ bollinger_upper (volatility snap)
       = (bollinger_middle (volatility snap)
          + Fin 2 * trailing_std 20 (closes rising200))%float
    /\ Forall not_null (all_fields snap).
Proof.
  destruct (@moving_averages_and_bands_of_library
              Pandas.rolling_mean Pandas.rolling_std rising200)
    as [snap (E & _ & _ & _ & _ & _ & _ & _ & _ & _ & H)].
  - exact exact_mean_keeps_length.
  - exact exact_std_keeps_length.
  - exact (exact_missing_below_window mean).
  - exact (exact_missing_below_window (std 1)).
  - discriminate.
  - destruct (H (exact_library_reports rising200))
      as (E20 & _ & E200 & Eu & _ & Hall).
    destruct Hall as [Hf Hrsi]; [rewrite rising200_length; lia|].
    exists snap. repeat (split; [assumption|]).
    unfold all_fields. constructor; [|exact Hf].
    apply Hrsi. exact rising200_deltas.
Defined.

Lemma flat_close_col bars c :
  Forall (fun b => bar_close b = c) bars ->
  field bar_close bars = repeat (Fin c) (length bars).
Proof.
  unfold field. induction 1 as [|b bars Hb _ IH]; [reflexivity|].
  cbn [map length repeat]. now rewrite Hb, IH.
Qed.

Lemma risk_flat c k :
  c <> 0 ->
  exists daily,
    daily = std 1 (repeat (Fin 0) (S k)) /\
    forall bars, Forall (fun b => bar_close b = c) bars -> length bars = S (S k) ->
    calculate_volatility_metrics (to_frame bars) =
    ok {| daily_volatility := daily;
          annualized_volatility := (daily * fsqrt (Fin 252))%float;
          var_95 := Fin 0; var_99 := Fin 0; max_drawdown := Fin 0 |}.
Proof.
  intros Hc. eexists. split; [reflexivity|]. intros bars Hflat Hlen.
  unfold calculate_volatility_metrics.
  change (getitem (columns (to_frame bars)) "Close") with (ok (field bar_close bars)).
  cbn [rbind ok]. rewrite (flat_close_col Hflat), Hlen.
  rewrite pct_change_flat by trivial.
  rewrite !percentile_flat by lia. cbn [rbind ok].
  rewrite max_drawdown_flat by trivial.
  unfold series_std. now rewrite dropna_repeat_fin.
Qed.

(** A flat series at close zero has no return at all. *)
Lemma risk_flat_zero :
  calculate_volatility_metrics (to_frame flat_zero3) = raise IndexError.
Proof.
  unfold calculate_volatility_metrics.
  change (getitem (columns (to_frame flat_zero3)) "Close")
    with (ok [Fin 0; Fin 0; Fin 0]).
  cbn [rbind ok].
  assert (E : dropna (pct_change [Fin 0; Fin 0; Fin 0]) = []).
  { unfold pct_change, ffill, shift, zip_with.
    cbn [ffill_from isnan removelast combine map fst snd].
    rewrite fdiv_zero_zero. reflexivity. }
  rewrite E. reflexivity.
Qed.

(** C6, counterexample.  Two bars closing at 100 are a flat series of at
    least two bars, and its daily volatility is missing, not zero: one
    return has no sample standard deviation.  Three bars closing at 0 are
    a flat series on which the call fails. *)
Lemma flat_two_bars_counterexample :
  (Forall (fun b => bar_close b = 100) flat2
   /\ (2 <= length flat2)%nat
   /\ exists r, calculate_volatility_metrics (to_frame flat2) = ok r
                /\ daily_volatility r = NaN
                /\ daily_volatility r <> Fin 0)
  /\ (Forall (fun b => bar_close b = 0) flat_zero3
      /\ calculate_volatility_metrics (to_frame flat_zero3) = raise IndexError).
Proof.
  split.
  - split; [repeat constructor|]. split; [cbn; lia|].
    assert (H100 : 100 <> 0) by lra.
    destruct (@risk_flat 100 0 H100) as [daily [Ed H]].
    rewrite (H flat2) by (repeat constructor).
    eexists. split; [reflexivity|]. cbn [daily_volatility]. subst daily.
    split; [reflexivity | discriminate].
  - split; [repeat constructor | apply risk_flat_zero].
Qed.

(** C6, as amended.  For every flat price series whose common close is not
    zero: with at least three bars [calculate_volatility_metrics] returns
    zero daily volatility, zero annualized volatility, zero [var_95], zero
    [var_99] and zero [max_drawdown]; with exactly two bars the two
    volatilities are missing and the other three values are zero. *)
Theorem flat_series_zero_risk (bars : PriceSeries) (c : R) :
  c <> 0 ->
  Forall (fun b => bar_close b = c) bars ->
  ((3 <= length bars)%nat ->
   calculate_volatility_metrics (to_frame bars) = ok zero_risk)
  /\ (length bars = 2%nat ->
      calculate_volatility_metrics (to_frame bars) = ok two_bar_flat_risk).
Proof.
  intros Hc Hflat. split; intros Hn.
  - destruct (length bars) as [|[|k]] eqn:E; try lia.
    destruct (@risk_flat c k Hc) as [daily [Ed H]].
    rewrite (H bars Hflat E). subst daily.
    rewrite std_flat by lia. unfold zero_risk. f_equal. f_equal.
    rewrite fsqrt_nonneg by lra. cbn [fmul]. f_equal. lra.
  - destruct (@risk_flat c 0 Hc) as [daily [Ed H]].
    rewrite (H bars Hflat Hn). subst daily. reflexivity.
Qed.

(** C6 at three bars closing at 100. *)
Lemma flat_series_zero_risk_witness :
  calculate_volatility_metrics (to_frame flat3) = ok zero_risk.
Proof.
  apply (@flat_series_zero_risk flat3 100).
  - lra.
  - repeat constructor.
  - cbn. lia.
Defined.

End indicator_engine.

(** * The snapshot store *)

Section snapshot_store.

Import Clock FS Glob FileUtils StoreSpec.

Open Scope string_scope.

(** Association lists *)

Lemma lookup_set_assoc_same {A} k (v : A) l : lookup k (set_assoc k v l) = Some v.
Proof.
  induction l as [|[k' v'] l IH]; cbn.
  - now rewrite String.eqb_refl.
  - destruct (String.eqb_spec k k'); cbn.
    + now rewrite String.eqb_refl.
    + destruct (String.eqb_spec k k'); [congruence | exact IH].
Qed.

Lemma lookup_set_assoc_other {A} k k' (v : A) l :
  k' <> k -> lookup k' (set_assoc k v l) = lookup k' l.
Proof.
  intros Hne. induction l as [|[k0 v0] l IH]; cbn.
  - destruct (String.eqb_spec k' k); [congruence | reflexivity].
  - destruct (String.eqb_spec k k0) as [->|]; cbn.
    + destruct (String.eqb_spec k' k0); [congruence | reflexivity].
    + destruct (String.eqb_spec k' k0); [reflexivity | exact IH].
Qed.

Lemma lookup_in_names {A} k (l : list (string * A)) :
  In k (map fst l) -> exists v, lookup k l = Some v.
Proof.
  induction l as [|[k' v'] l IH]; cbn; [tauto|].
  intros [->|H].
  - rewrite String.eqb_refl. eauto.
  - destruct (String.eqb k k'); eauto.
Qed.

Lemma in_names_set_assoc {A} k (v : A) l : In k (map fst (set_assoc k v l)).
Proof.
  induction l as [|[k' v'] l IH]; cbn; [now left|].
  destruct (String.eqb_spec k k'); cbn; [now left | now right].
Qed.

(** Patterns without special characters *)

Lemma append_assoc (a b c : string) : (a ++ b) ++ c = a ++ (b ++ c).
Proof. induction a as [|x a IH]; cbn; [reflexivity | now rewrite IH]. Qed.

Lemma chars_app a b : chars (a ++ b) = (chars a ++ chars b)%list.
Proof. unfold chars. induction a as [|c a IH]; cbn; [reflexivity | now rewrite IH]. Qed.

Lemma chars_length s : length (chars s) = String.length s.
Proof. unfold chars. induction s as [|c s IH]; cbn; [reflexivity | now rewrite IH]. Qed.

Lemma plain_app a b : plain a = true -> plain b = true -> plain (a ++ b) = true.
Proof. unfold plain. intros Ha Hb. now rewrite chars_app, forallb_app, Ha, Hb. Qed.

Lemma translate_plain l1 : forall l2 fuel,
  forallb plain_char l1 = true -> (length l1 <= fuel)%nat ->
  translate fuel (l1 ++ l2) = (map TChar l1 ++ translate (fuel - length l1) l2)%list.
Proof.
  induction l1 as [|c l1 IH]; intros l2 fuel Hp Hf.
  - cbn. now rewrite Nat.sub_0_r.
  - destruct fuel as [|fuel]; [cbn in Hf; lia|].
    cbn [forallb] in Hp. apply andb_true_iff in Hp as [Hc Hp].
    unfold plain_char in Hc. apply negb_true_iff in Hc.
    apply orb_false_iff in Hc as [Hc H3]. apply orb_false_iff in Hc as [H1 H2].
    cbn [app translate]. rewrite H1, H2, H3. cbn [map app length Nat.sub].
    f_equal. apply IH; [trivial | cbn in Hf; lia].
Qed.

Lemma match_chars l : forall ts s,
  match_toks (map TChar l ++ ts) (l ++ s) = match_toks ts s.
Proof.
  induction l as [|c l IH]; intros ts s; [reflexivity|].
  cbn [map app match_toks]. now rewrite Ascii.eqb_refl, IH.
Qed.

Lemma match_star ts a : forall b,
  match_toks ts b = true -> match_toks (TStar :: ts) (a ++ b) = true.
Proof.
  induction a as [|c a IH]; intros b Hb.
  - cbn [app]. destruct b; cbn [match_toks]; rewrite Hb; reflexivity.
  - specialize (IH b Hb). cbn [app match_toks] in *. rewrite IH. apply orb_true_r.
Qed.

(** The file [store_json_info] writes is selected by the pattern
    [read_latest_json_file] uses. *)
Lemma stored_name_matches symbol prefix ts :
  plain symbol = true -> plain prefix = true ->
  fnmatch (file_name symbol prefix ts) (pattern symbol prefix) = true.
Proof.
  intros Hs Hp. unfold fnmatch, file_name, pattern.
  set (head := symbol ++ "_" ++ prefix ++ "_").
  assert (Hh : plain head = true).
  { unfold head. repeat apply plain_app; trivial. }
  replace (symbol ++ "_" ++ prefix ++ "_" ++ ts ++ ".json")
    with (head ++ ts ++ ".json")
    by (unfold head; now rewrite !append_assoc).
  replace (symbol ++ "_" ++ prefix ++ "_*.json") with (head ++ "*.json")
    by (unfold head; now rewrite !append_assoc).
  rewrite <- chars_length, !chars_app, length_app.
  rewrite translate_plain by (trivial || lia).
  replace (length (chars head) + length (chars "*.json") - length (chars head))%nat
    with 6%nat by (cbn [chars list_ascii_of_string length]; lia).
  rewrite match_chars.
  change (translate 6 (chars "*.json")) with (TStar :: map TChar (chars ".json")).
  apply match_star. rewrite <- (app_nil_r (map TChar (chars ".json"))).
  rewrite <- (app_nil_r (chars ".json")) at 2. now rewrite match_chars.
Qed.

Lemma hidden_same symbol prefix ts :
  is_hidden (file_name symbol prefix ts) = is_hidden (pattern symbol prefix).
Proof. unfold file_name, pattern. destruct symbol; reflexivity. Qed.

Lemma stored_name_listed symbol prefix ts names :
  plain symbol = true -> plain prefix = true ->
  In (file_name symbol prefix ts) names ->
  In (file_name symbol prefix ts) (glob_names names (pattern symbol prefix)).
Proof.
  intros Hs Hp Hin. unfold glob_names. apply filter_In. split; [trivial|].
  rewrite stored_name_matches by trivial. rewrite hidden_same.
  destruct (is_hidden (pattern symbol prefix)); reflexivity.
Qed.

(** The latest file *)

Lemma max_by_ctime_target d target ft now files :
  lookup target d = Some ft -> ctime ft = now ->
  (forall f, In f files ->
             f = target \/ exists fl, lookup f d = Some fl /\ (ctime fl < now)%Z) ->
  forall best bt,
    (best = target /\ bt = now) \/ ((bt < now)%Z /\ In target files) ->
    max_by_ctime d best bt files = ok target.
Proof.
  intros Ht Hnow. induction files as [|f rest IH]; intros Hall best bt Hinv.
  - destruct Hinv as [[-> _]|[_ []]]. reflexivity.
  - cbn [max_by_ctime]. unfold getctime.
    assert (Hrest : forall f0, In f0 rest ->
              f0 = target \/ exists fl, lookup f0 d = Some fl /\ (ctime fl < now)%Z)
      by (intros f0 Hf0; apply Hall; now right).
    destruct (string_dec f target) as [->|Hne].
    + rewrite Ht. cbn [rbind ok]. rewrite Hnow.
      destruct (Z.ltb_spec bt now).
      * apply IH; [trivial | now left].
      * apply IH; [trivial|]. destruct Hinv as [Hi|[Hi _]]; [now left | lia].
    + destruct (Hall f (or_introl eq_refl)) as [E|[fl [El Hlt]]]; [congruence|].
      rewrite El. cbn [rbind ok].
      destruct (Z.ltb_spec bt (ctime fl)).
      * apply IH; [trivial|]. right. split; [trivial|].
        destruct Hinv as [[_ ->]|[_ [E|Hin]]]; [lia | congruence | trivial].
      * apply IH; [trivial|].
        destruct Hinv as [H'|[Hb [E|Hin]]]; [now left | congruence | now right].
Qed.

Lemma latest_of_target d target ft now files :
  lookup target d = Some ft -> ctime ft = now ->
  In target files ->
  (forall f, In f files ->
             f = target \/ exists fl, lookup f d = Some fl /\ (ctime fl < now)%Z) ->
  latest_of d files = ok (Some target).
Proof.
  intros Ht Hnow Hin Hall. destruct files as [|f rest]; [destruct Hin|].
  cbn [latest_of]. unfold getctime.
  assert (Hrest : forall f0, In f0 rest ->
            f0 = target \/ exists fl, lookup f0 d = Some fl /\ (ctime fl < now)%Z)
    by (intros f0 Hf0; apply Hall; now right).
  destruct (string_dec f target) as [->|Hne].
  - rewrite Ht. cbn [rbind ok].
    rewrite (@max_by_ctime_target d target ft now rest Ht Hnow Hrest); [reflexivity|].
    left. now split.
  - destruct (Hall f (or_introl eq_refl)) as [E|[fl [El Hlt]]]; [congruence|].
    rewrite El. cbn [rbind ok].
    rewrite (@max_by_ctime_target d target ft now rest Ht Hnow Hrest); [reflexivity|].
    right. split; [trivial|]. destruct Hin as [E|Hin]; [congruence | trivial].
Qed.

Lemma write_file_ok d name j now :
  writable_name name = true ->
  write_file d name j now =
  ok (set_assoc name {| content := Some j; ctime := now; removable := true |} d).
Proof.
  unfold writable_name, write_file. intros H.
  apply andb_true_iff in H as [H H3]. apply andb_true_iff in H as [H1 H2].
  apply negb_true_iff in H1, H2. rewrite H1, H2. cbn [orb].
  apply Nat.leb_le in H3. destruct (Nat.ltb_spec 255 (String.length name)); [lia|].
  reflexivity.
Qed.

Lemma lookup_nodup {A} k (v : A) l :
  NoDup (map fst l) -> In (k, v) l -> lookup k l = Some v.
Proof.
  induction l as [|[k' v'] l IH]; cbn; [tauto|]. intros Hnd [E|Hin].
  - injection E as -> ->. now rewrite String.eqb_refl.
  - inversion Hnd as [|? ? Hnotin Hnd']; subst.
    destruct (String.eqb_spec k k') as [->|]; [|now apply IH].
    exfalso. apply Hnotin. change k' with (fst (k', v)). now apply in_map.
Qed.

Lemma mem_in n files : mem n files = true <-> In n files.
Proof.
  unfold mem. rewrite existsb_exists. split.
  - intros [x [Hx E]]. apply String.eqb_eq in E. now subst.
  - intros H. exists n. split; [trivial | apply String.eqb_refl].
Qed.

Lemma mem_cons_other n fp rest : n <> fp -> mem n (fp :: rest) = mem n rest.
Proof. intros H. unfold mem. cbn. now destruct (String.eqb_spec n fp). Qed.

Lemma mem_false n files : ~ In n files -> mem n files = false.
Proof.
  intros H. destruct (mem n files) eqn:E; [|reflexivity].
  apply mem_in in E. contradiction.
Qed.

Lemma names_delete_in n fp d : In n (names (delete fp d)) -> In n (names d).
Proof.
  unfold names. induction d as [|[k f] d IH]; cbn; [tauto|].
  destruct (String.eqb fp k); cbn; tauto.
Qed.

Lemma names_delete_other n fp d : n <> fp -> In n (names d) -> In n (names (delete fp d)).
Proof.
  unfold names. intros Hne. induction d as [|[k f] d IH]; cbn; [tauto|].
  destruct (String.eqb_spec fp k) as [->|]; cbn; intros [E|H]; subst; auto; congruence.
Qed.

Lemma nodup_delete fp d : NoDup (names d) -> NoDup (names (delete fp d)).
Proof.
  unfold names. induction d as [|[k f] d IH]; cbn; [trivial|]. intros Hnd.
  inversion Hnd as [|? ? Hnotin Hnd']; subst.
  destruct (String.eqb fp k); cbn; [trivial|]. constructor; [|auto].
  intros H. apply Hnotin. now apply (@names_delete_in k fp d).
Qed.

(** One successful removal: the file leaves the directory and counts. *)
Lemma sweep_step_removed cutoff fp f rest d :
  NoDup (names d) -> lookup fp d = Some f -> ~ In fp rest ->
  older cutoff f && removable f = true ->
  filter (fun e => negb (hit cutoff rest e)) (delete fp d)
  = filter (fun e => negb (hit cutoff (fp :: rest) e)) d
  /\ S (length (filter (hit cutoff rest) (delete fp d)))
     = length (filter (hit cutoff (fp :: rest)) d).
Proof.
  intros Hnd Hl Hnotin Hf. unfold names in Hnd.
  induction d as [|[k g] d IH]; [discriminate|].
  cbn [map fst] in Hnd. inversion Hnd as [|? ? Hk Hnd']; subst.
  cbn [lookup] in Hl. cbn [delete].
  destruct (String.eqb_spec fp k) as [E|Hne]; [subst k|].
  - injection Hl as ->.
    assert (Hext : forall e, In e d -> hit cutoff (fp :: rest) e = hit cutoff rest e).
    { intros [n g] Hin. unfold hit. cbn [fst snd]. rewrite mem_cons_other; [reflexivity|].
      intros ->. apply Hk. change fp with (fst (fp, g)). now apply in_map. }
    assert (Hhit : hit cutoff (fp :: rest) (fp, f) = true).
    { unfold hit, mem. cbn [fst snd existsb]. rewrite String.eqb_refl.
      cbn [orb andb]. exact Hf. }
    cbn [filter]. rewrite Hhit. cbn [negb length]. split.
    + apply filter_ext_in. intros e He. cbv beta. now rewrite Hext.
    + f_equal. f_equal. apply filter_ext_in. intros e He. now rewrite Hext.
  - destruct (IH Hnd' Hl) as [E1 E2].
    assert (Hsame : hit cutoff (fp :: rest) (k, g) = hit cutoff rest (k, g))
      by (unfold hit; cbn [fst snd]; rewrite mem_cons_other; congruence).
    cbn [filter]. rewrite Hsame, E1. split; [reflexivity|].
    destruct (hit cutoff rest (k, g)); cbn [length]; now rewrite <- E2.
Qed.

(** A file that is kept: the directory and the count stay as they are. *)
Lemma sweep_step_kept cutoff fp f rest d :
  NoDup (names d) -> lookup fp d = Some f -> ~ In fp rest ->
  older cutoff f && removable f = false ->
  forall e, In e d -> hit cutoff (fp :: rest) e = hit cutoff rest e.
Proof.
  intros Hnd Hl Hnotin Hf [n g] Hin. unfold hit. cbn [fst snd].
  destruct (String.eqb_spec n fp) as [->|Hne].
  - rewrite (@lookup_nodup _ fp g d Hnd Hin) in Hl. injection Hl as ->.
    rewrite <- !andb_assoc, Hf, !andb_false_r. reflexivity.
  - now rewrite mem_cons_other.
Qed.

Lemma delete_loop_spec cutoff files :
  forall d cnt,
    NoDup (names d) -> NoDup files -> incl files (names d) ->
    delete_loop cutoff files d cnt =
    ok (filter (fun e => negb (hit cutoff files e)) d,
        (cnt + length (filter (hit cutoff files) d))%nat).
Proof.
  induction files as [|fp rest IH]; intros d cnt Hnd Hfiles Hincl.
  - cbn [delete_loop]. f_equal. f_equal.
    + symmetry. apply forallb_filter_id. apply forallb_forall. intros e _. reflexivity.
    + assert (Hnil : forall d', filter (hit cutoff []) d' = [])
        by (intros d'; induction d' as [|e d' IHd']; [reflexivity | exact IHd']).
      rewrite Hnil. cbn. lia.
  - inversion Hfiles as [|? ? Hnotin Hrest]; subst.
    destruct (@lookup_in_names _ fp d) as [f Hl]; [apply Hincl; now left|].
    assert (Hincl' : incl rest (names d)) by (intros n Hn; apply Hincl; now right).
    cbn [delete_loop]. unfold getctime, remove. rewrite Hl. cbn [rbind ok].
    fold (older cutoff f).
    destruct (older cutoff f && removable f) eqn:Hf.
    + apply andb_true_iff in Hf as [Ho Hr]. rewrite Ho, Hr. unfold ok. cbv iota beta.
      fold (@ok (directory * nat)).
      rewrite IH; [|now apply nodup_delete | trivial |].
      * destruct (@sweep_step_removed cutoff fp f rest d) as [E1 E2]; trivial;
          [now rewrite Ho, Hr|].
        rewrite E1, <- E2. unfold ok. apply f_equal. apply f_equal2; [reflexivity | lia].
      * intros n Hn. apply names_delete_other; [|now apply Hincl'].
        intros ->. contradiction.
    + pose proof (@sweep_step_kept cutoff fp f rest d Hnd Hl Hnotin Hf) as Hext.
      assert (E : delete_loop cutoff rest d cnt =
                  ok (filter (fun e => negb (hit cutoff (fp :: rest) e)) d,
                      (cnt + length (filter (hit cutoff (fp :: rest)) d))%nat)).
      { rewrite IH by trivial. f_equal. f_equal.
        - apply filter_ext_in. intros e He. now rewrite Hext.
        - f_equal. f_equal. apply filter_ext_in. intros e He. now rewrite Hext. }
      destruct (older cutoff f); [|exact E].
      cbn [andb] in Hf. rewrite Hf. exact E.
Qed.

Lemma glob_json_listed names : glob_names names "*.json" = filter listed names.
Proof. unfold glob_names. apply filter_ext. intros n. reflexivity. Qed.

Lemma hit_listed cutoff d e :
  In e d -> hit cutoff (filter listed (names d)) e = swept cutoff e.
Proof.
  intros Hin. unfold hit, swept. f_equal. f_equal.
  destruct (listed (fst e)) eqn:El.
  - apply mem_in. apply filter_In. split; [|trivial]. now apply in_map.
  - apply mem_false. intros H. apply filter_In in H as [_ H]. congruence.
Qed.

(** Writing and reading back a value json knows gives the value. *)
Lemma json_round_trip : forall v, json_native v = true -> json_load (json_dump v) = v.
Proof.
  fix IH 1. intros [ | b | z | r | s | l | d | o] H;
    try reflexivity; try discriminate H.
  - cbn [json_dump json_load]. f_equal.
    cbn [json_native] in H. induction l as [|x l IHl]; [reflexivity|].
    cbn [forallb] in H. apply andb_true_iff in H as [Hx Hl].
    cbn [map]. now rewrite (IH x Hx), (IHl Hl).
  - cbn [json_dump json_load]. f_equal.
    cbn [json_native] in H. induction d as [|[k x] d IHd]; [reflexivity|].
    cbn [forallb snd] in H. apply andb_true_iff in H as [Hx Hd].
    cbn [map fst snd]. now rewrite (IH x Hx), (IHd Hd).
Qed.

(** A pattern without an opening bracket matches its own text, whatever
    stars and question marks it holds. *)
Lemma match_star_more ts c s :
  match_toks (TStar :: ts) s = true -> match_toks (TStar :: ts) (c :: s) = true.
Proof. intros H. cbn [match_toks] in *. rewrite H. apply orb_true_r. Qed.

Lemma match_star_skip ts s :
  match_toks ts s = true -> match_toks (TStar :: ts) s = true.
Proof. intros H. destruct s; cbn [match_toks]; rewrite H; reflexivity. Qed.

Lemma translate_own_text l :
  forallb (fun c => negb (Ascii.eqb c "["%char)) l = true ->
  forall k rest s,
    match_toks (translate k rest) s = true ->
    match_toks (translate (length l + k) (l ++ rest)) (l ++ s)%list = true.
Proof.
  induction l as [|c l IH]; intros Hl k rest s H; [exact H|].
  cbn [forallb] in Hl. apply andb_true_iff in Hl as [Hc Hl].
  apply negb_true_iff in Hc. specialize (IH Hl k rest s H).
  cbn [length Nat.add app translate]. rewrite Hc.
  destruct (Ascii.eqb_spec c "*"%char) as [->|Hstar].
  - destruct (translate (length l + k) (l ++ rest)) as [|[| |c'|ng body] ts] eqn:E.
    + now apply match_star_more, match_star_skip.
    + now apply match_star_more.
    + now apply match_star_more, match_star_skip.
    + now apply match_star_more, match_star_skip.
    + now apply match_star_more, match_star_skip.
  - destruct (Ascii.eqb_spec c "?"%char) as [->|Hany].
    + cbn [match_toks]. exact IH.
    + cbn [match_toks]. now rewrite Ascii.eqb_refl.
Qed.

Lemma no_bracket_app a b : no_bracket (a ++ b) = no_bracket a && no_bracket b.
Proof. unfold no_bracket. now rewrite chars_app, forallb_app. Qed.

Lemma stored_name_matches_without_bracket symbol prefix ts :
  no_bracket symbol = true -> no_bracket prefix = true ->
  fnmatch (file_name symbol prefix ts) (pattern symbol prefix) = true.
Proof.
  intros Hs Hp. unfold fnmatch, file_name, pattern.
  set (head := symbol ++ "_" ++ prefix ++ "_").
  assert (Hh : no_bracket head = true).
  { unfold head. rewrite !no_bracket_app, Hs, Hp. reflexivity. }
  replace (symbol ++ "_" ++ prefix ++ "_" ++ ts ++ ".json")
    with (head ++ ts ++ ".json")
    by (unfold head; now rewrite !append_assoc).
  replace (symbol ++ "_" ++ prefix ++ "_*.json") with (head ++ "*.json")
    by (unfold head; now rewrite !append_assoc).
  rewrite <- chars_length, !chars_app, length_app.
  apply translate_own_text; [exact Hh|].
  change (translate (length (chars "*.json")) (chars "*.json"))
    with (TStar :: map TChar (chars ".json")).
  apply match_star. rewrite <- (app_nil_r (map TChar (chars ".json"))).
  rewrite <- (app_nil_r (chars ".json")) at 2. now rewrite match_chars.
Qed.

Lemma stored_name_selected symbol prefix ts names :
  fnmatch (file_name symbol prefix ts) (pattern symbol prefix) = true ->
  In (file_name symbol prefix ts) names ->
  In (file_name symbol prefix ts) (glob_names names (pattern symbol prefix)).
Proof.
  intros Hm Hin. unfold glob_names. apply filter_In. split; [trivial|].
  rewrite Hm, hidden_same.
  destruct (is_hidden (pattern symbol prefix)); reflexivity.
Qed.

Lemma lookup_in {A} k (v : A) l : lookup k l = Some v -> In (k, v) l.
Proof.
  induction l as [|[k' v'] l IH]; [discriminate|]. cbn [lookup].
  destruct (String.eqb_spec k k') as [->|]; [|right; auto].
  intros E. injection E as ->. now left.
Qed.

(** C8, counterexample.  A payload is stored for the pair (MSFT, info);
    then another payload is stored for the different pair (MSFT, info_v2),
    whose file name the pattern [MSFT_info_*.json] selects as well; reading
    the latest file of (MSFT, info) returns the second payload.  And for
    the symbol [A[1]] the pattern reads the brackets as a set: the file
    just stored is not found. *)
Lemma round_trip_counterexample :
  (exists d1 p1 d2 p2,
      store_json_info (day 738885) [] sample_info (Some "MSFT") "info"
      = ok (d1, p1)
      /\ store_json_info (day 738886) d1 other_info (Some "MSFT") "info_v2"
         = ok (d2, p2)
      /\ read_latest_json_file d2 "MSFT" "info" = ok (Some (PDict other_info))
      /\ PDict other_info <> json_load (json_dump (PDict sample_info)))
  /\ (exists d1 p1,
         store_json_info (day 738885) [] sample_info (Some "A[1]") "info"
         = ok (d1, p1)
         /\ read_latest_json_file d1 "A[1]" "info" = ok None).
Proof.
  split.
  - do 4 eexists. split; [vm_compute; reflexivity|].
    split; [vm_compute; reflexivity|].
    split; [vm_compute; reflexivity|]. discriminate.
  - do 2 eexists. split; vm_compute; reflexivity.
Qed.

(** C8, as amended.  For every symbol, prefix and payload: when the name
    [{symbol}_{prefix}_{timestamp}.json] of the file to be written is one
    the pattern [{symbol}_{prefix}_*.json] selects and one that can be
    written, and every other file this pattern selects has a strictly
    earlier creation time than the clock reading of the store,
    [store_json_info] succeeds and [read_latest_json_file] on the resulting
    directory returns the payload as decoded from its serialized form,
    which is the payload itself when it holds only values json writes as
    they are.  The pattern selects the name whenever neither the symbol nor
    the prefix holds an opening bracket. *)
Theorem store_then_read_latest now d info symbol prefix :
  let name := symbol ++ "_" ++ prefix ++ "_" ++ strftime now ++ ".json" in
  let selected := fun n => fnmatch n (symbol ++ "_" ++ prefix ++ "_*.json") in
  (no_bracket symbol = true -> no_bracket prefix = true -> selected name = true)
  /\ (selected name = true ->
      writable_name name = true ->
      (forall other f,
          lookup other d = Some f -> selected other = true -> other <> name ->
          (ctime f < now)%Z) ->
      exists d',
        store_json_info now d info (Some symbol) prefix = ok (d', name)
        /\ read_latest_json_file d' symbol prefix
           = ok (Some (json_load (json_dump (PDict info))))
        /\ (json_native (PDict info) = true ->
            read_latest_json_file d' symbol prefix = ok (Some (PDict info)))).
Proof.
  intros name selected. split.
  { intros Hs Hp. apply (@stored_name_matches_without_bracket symbol prefix); trivial. }
  intros Hsel Hw Hold.
  enough (exists d',
             store_json_info now d info (Some symbol) prefix = ok (d', name)
             /\ read_latest_json_file d' symbol prefix
                = ok (Some (json_load (json_dump (PDict info))))) as (d' & E1 & E2).
  { exists d'. split; [exact E1|]. split; [exact E2|].
    intros Hn. now rewrite E2, json_round_trip. }
  unfold store_json_info.
  change (file_name symbol prefix (strftime now)) with name.
  rewrite write_file_ok by trivial. cbn [rbind ok].
  eexists. split; [reflexivity|].
  set (d' := set_assoc name (stored_file info now) d).
  change (set_assoc name _ d) with d'.
  assert (Ht : lookup name d' = Some (stored_file info now))
    by apply lookup_set_assoc_same.
  unfold read_latest_json_file.
  rewrite (@latest_of_target d' name (stored_file info now) now).
  - cbn [rbind ok]. rewrite Ht. reflexivity.
  - exact Ht.
  - reflexivity.
  - apply (@stored_name_selected symbol prefix (strftime now)); [exact Hsel|].
    apply in_names_set_assoc.
  - intros f Hf. unfold glob_names in Hf. apply filter_In in Hf as [Hin Hm].
    apply andb_true_iff in Hm as [_ Hm].
    destruct (string_dec f name) as [E|Hne]; [now left | right].
    destruct (lookup_in_names f d' Hin) as [fl Hfl]. exists fl. split; [trivial|].
    unfold d' in Hfl. rewrite lookup_set_assoc_other in Hfl by trivial.
    now apply (Hold f fl).
Qed.

(** C8 in a directory that holds an older snapshot of the same pair and
    snapshots of another symbol. *)
Lemma store_then_read_latest_witness :
  exists d',
    store_json_info (day 738885) sample_dir sample_info (Some "MSFT") "corporate_info"
    = ok (d', "MSFT_corporate_info_20240101_000000.json")
    /\ read_latest_json_file d' "MSFT" "corporate_info"
       = ok (Some (json_load (json_dump (PDict sample_info))))
    /\ (json_native (PDict sample_info) = true ->
        read_latest_json_file d' "MSFT" "corporate_info"
        = ok (Some (PDict sample_info))).
Proof.
  destruct (@store_then_read_latest (day 738885) sample_dir sample_info
              "MSFT" "corporate_info") as [Hsel H].
  apply H.
  - apply Hsel; reflexivity.
  - reflexivity.
  - intros other f Hl _ _. apply lookup_in in Hl.
    unfold sample_dir in Hl. cbn [In] in Hl.
    repeat (destruct Hl as [Hl|Hl]; [injection Hl as _ <-; reflexivity|]).
    destruct Hl.
Defined.

(** The round trip for a symbol and a prefix with pattern characters, and
    for a symbol with a bracket that is never closed. *)
Example round_trip_with_pattern_characters :
  (exists d',
      store_json_info (day 738885) sample_dir sample_info (Some "A*?") "in?fo*"
      = ok (d', "A*?_in?fo*_20240101_000000.json")
      /\ read_latest_json_file d' "A*?" "in?fo*" = ok (Some (PDict sample_info)))
  /\ (exists d',
         store_json_info (day 738885) sample_dir sample_info (Some "A[") "info"
         = ok (d', "A[_info_20240101_000000.json")
         /\ read_latest_json_file d' "A[" "info" = ok (Some (PDict sample_info))).
Proof. split; eexists; split; vm_compute; reflexivity. Qed.

(** What [json_dump] writes is the document of the payload. *)
Lemma json_dump_encodes : forall v, encodes v (json_dump v).
Proof.
  fix IH 1. intros [ | b | z | r | s | l | d | s r]; cbn [json_dump];
    try constructor.
  - induction l as [|x l IHl]; cbn [map]; constructor; [apply IH | exact IHl].
  - induction d as [|[k x] d IHd]; cbn [map fst snd]; constructor; [|exact IHd].
    split; [reflexivity | apply IH].
Qed.

(** C10.  When [store_json_info] is called without a symbol, the file is
    named [{text}_{prefix}_{timestamp}.json], where [text] is [str] of the
    payload's ["symbol"] entry if there is one and ["unknown"] otherwise;
    when that name can be written the call returns it, the file holds the
    JSON document of the payload, which reads back as the payload itself
    when the payload holds only values json writes as they are, and no other
    file of the directory changes. *)
Theorem store_symbol_from_payload now d info prefix :
  let text :=
    match lookup "symbol" info with
    | Some v => py_str v
    | None => "unknown"
    end in
  let name := text ++ "_" ++ prefix ++ "_" ++ strftime now ++ ".json" in
  writable_name name = true ->
  exists d' j,
    store_json_info now d info None prefix = ok (d', name)
    /\ lookup name d' = Some {| content := Some j; ctime := now; removable := true |}
    /\ encodes (PDict info) j
    /\ (json_native (PDict info) = true -> json_load j = PDict info)
    /\ (forall other, other <> name -> lookup other d' = lookup other d).
Proof.
  intros text name Hw. unfold store_json_info, dict_get, file_name.
  assert (E : py_str match lookup "symbol" info with
                     | Some v => v
                     | None => PStr "unknown"
                     end = text)
    by (unfold text; now destruct (lookup "symbol" info)).
  rewrite E. fold name. rewrite write_file_ok by trivial. cbn [rbind ok].
  exists (set_assoc name {| content := Some (json_dump (PDict info));
                            ctime := now; removable := true |} d),
         (json_dump (PDict info)).
  split; [reflexivity|]. split; [apply lookup_set_assoc_same|].
  split; [apply json_dump_encodes|]. split; [apply json_round_trip|].
  intros other Hne. now apply lookup_set_assoc_other.
Qed.

(** C10 at a payload whose symbol is AAPL, in a directory of four files. *)
Lemma store_symbol_from_payload_witness :
  exists d' j,
    store_json_info (day 738885) sample_dir other_info None "corporate_info"
    = ok (d', "AAPL_corporate_info_20240101_000000.json")
    /\ lookup "AAPL_corporate_info_20240101_000000.json" d'
       = Some {| content := Some j; ctime := day 738885; removable := true |}
    /\ encodes (PDict other_info) j
    /\ (json_native (PDict other_info) = true -> json_load j = PDict other_info)
    /\ (forall other, other <> "AAPL_corporate_info_20240101_000000.json" ->
                      lookup other d' = lookup other sample_dir).
Proof.
  apply (@store_symbol_from_payload (day 738885) sample_dir other_info "corporate_info").
  reflexivity.
Defined.

(** The symbol part of the name for a payload without a symbol, with a
    number and with a list for a symbol; and the timestamp of the first
    second of the year 1. *)
Example symbol_text_of_payloads :
  (exists d', store_json_info (day 738885) [] [("sector", PStr "Energy")] None "info"
              = ok (d', "unknown_info_20240101_000000.json"))
  /\ (exists d', store_json_info (day 738885) [] [("symbol", PInt 7)] None "info"
                 = ok (d', "7_info_20240101_000000.json"))
  /\ (exists d', store_json_info (day 738885) []
                   [("symbol", PList [PStr "BRK"; PStr "B"])] None "info"
                 = ok (d', "['BRK', 'B']_info_20240101_000000.json"))
  /\ strftime 0 = "10101_000000".
Proof. repeat split; eexists; vm_compute; reflexivity. Qed.

(** The sweep in a directory with links *)

Lemma link_names_delete_in n fp d :
  In n (Links.names (Links.delete fp d)) -> In n (Links.names d).
Proof.
  unfold Links.names. induction d as [|[k x] d IH]; cbn; [tauto|].
  destruct (String.eqb fp k); cbn; tauto.
Qed.

Lemma link_names_delete_other n fp d :
  n <> fp -> In n (Links.names d) -> In n (Links.names (Links.delete fp d)).
Proof.
  unfold Links.names. intros Hne. induction d as [|[k x] d IH]; cbn; [tauto|].
  destruct (String.eqb_spec fp k) as [->|]; cbn; intros [E|H]; subst; auto; congruence.
Qed.

Lemma link_nodup_delete fp d :
  NoDup (Links.names d) -> NoDup (Links.names (Links.delete fp d)).
Proof.
  unfold Links.names. induction d as [|[k x] d IH]; cbn; [trivial|]. intros Hnd.
  inversion Hnd as [|? ? Hnotin Hnd']; subst.
  destruct (String.eqb fp k); cbn; [trivial|]. constructor; [|auto].
  intros H. apply Hnotin. now apply (@link_names_delete_in k fp d).
Qed.

Lemma link_lookup_delete_other n fp d :
  n <> fp -> lookup n (Links.delete fp d) = lookup n d.
Proof.
  intros Hne. induction d as [|[k x] d IH]; [reflexivity|]. cbn [Links.delete lookup].
  destruct (String.eqb_spec fp k) as [->|Hk]; cbn [lookup].
  - destruct (String.eqb_spec n k); [congruence | reflexivity].
  - destruct (String.eqb n k); [reflexivity | exact IH].
Qed.

Lemma link_in_delete_other e fp d :
  fst e <> fp -> In e d -> In e (Links.delete fp d).
Proof.
  intros Hne. induction d as [|[k x] d IH]; cbn; [tauto|].
  destruct (String.eqb_spec fp k) as [->|Hk]; cbn.
  - intros [E|H]; [subst e; cbn in Hne; congruence | trivial].
  - intros [E|H]; [now left | right; auto].
Qed.

(** One successful removal: the file leaves the directory and counts. *)
Lemma link_step_removed cutoff fp x rest d :
  NoDup (Links.names d) -> lookup fp d = Some x -> ~ In fp rest ->
  sweepable cutoff x = true ->
  filter (fun e => negb (link_hit cutoff rest e)) (Links.delete fp d)
  = filter (fun e => negb (link_hit cutoff (fp :: rest) e)) d
  /\ S (length (filter (link_hit cutoff rest) (Links.delete fp d)))
     = length (filter (link_hit cutoff (fp :: rest)) d).
Proof.
  intros Hnd Hl Hnotin Hx. unfold Links.names in Hnd.
  induction d as [|[k y] d IH]; [discriminate|].
  cbn [map fst] in Hnd. inversion Hnd as [|? ? Hk Hnd']; subst.
  cbn [lookup] in Hl. cbn [Links.delete].
  destruct (String.eqb_spec fp k) as [E|Hne]; [subst k|].
  - injection Hl as ->.
    assert (Hext : forall e, In e d -> link_hit cutoff (fp :: rest) e = link_hit cutoff rest e).
    { intros [n y] Hin. unfold link_hit. cbn [fst snd]. rewrite mem_cons_other; [reflexivity|].
      intros ->. apply Hk. change fp with (fst (fp, y)). now apply in_map. }
    assert (Hhit : link_hit cutoff (fp :: rest) (fp, x) = true).
    { unfold link_hit, mem. cbn [fst snd existsb]. rewrite String.eqb_refl.
      cbn [orb andb]. exact Hx. }
    cbn [filter]. rewrite Hhit. cbn [negb length]. split.
    + apply filter_ext_in. intros e He. cbv beta. now rewrite Hext.
    + f_equal. f_equal. apply filter_ext_in. intros e He. now rewrite Hext.
  - destruct (IH Hnd' Hl) as [E1 E2].
    assert (Hsame : link_hit cutoff (fp :: rest) (k, y) = link_hit cutoff rest (k, y))
      by (unfold link_hit; cbn [fst snd]; rewrite mem_cons_other; congruence).
    cbn [filter]. rewrite Hsame, E1. split; [reflexivity|].
    destruct (link_hit cutoff rest (k, y)); cbn [length]; now rewrite <- E2.
Qed.

(** A file that is kept: the directory and the count stay as they are. *)
Lemma link_step_kept cutoff fp x rest d :
  NoDup (Links.names d) -> lookup fp d = Some x ->
  sweepable cutoff x = false ->
  forall e, In e d -> link_hit cutoff (fp :: rest) e = link_hit cutoff rest e.
Proof.
  intros Hnd Hl Hx [n y] Hin. unfold link_hit. cbn [fst snd].
  destruct (String.eqb_spec n fp) as [->|Hne].
  - rewrite (@lookup_nodup _ fp y d Hnd Hin) in Hl. injection Hl as ->.
    rewrite Hx, !andb_false_r. reflexivity.
  - now rewrite mem_cons_other.
Qed.

Lemma link_loop_step cutoff fp rest d cnt f :
  lookup fp d = Some (Links.Regular f) ->
  Links.delete_loop cutoff (fp :: rest) d cnt =
  if older cutoff f && removable f
  then Links.delete_loop cutoff rest (Links.delete fp d) (S cnt)
  else Links.delete_loop cutoff rest d cnt.
Proof.
  intros Hl. cbn [Links.delete_loop]. unfold Links.getctime, Links.remove.
  rewrite Hl. unfold ok. fold (older cutoff f).
  destruct (older cutoff f); [|reflexivity].
  destruct (removable f); reflexivity.
Qed.

Lemma link_delete_loop_spec cutoff files :
  forall d cnt,
    NoDup (Links.names d) -> NoDup files ->
    (forall n, In n files -> exists f, lookup n d = Some (Links.Regular f)) ->
    Links.delete_loop cutoff files d cnt =
    (ok (cnt + length (filter (link_hit cutoff files) d))%nat,
     filter (fun e => negb (link_hit cutoff files e)) d).
Proof.
  induction files as [|fp rest IH]; intros d cnt Hnd Hfiles Hreg.
  - cbn [Links.delete_loop]. f_equal.
    + assert (Hnil : forall d', filter (link_hit cutoff []) d' = [])
        by (intros d'; induction d' as [|e d' IHd']; [reflexivity | exact IHd']).
      rewrite Hnil. cbn. f_equal. lia.
    + symmetry. apply forallb_filter_id. apply forallb_forall. intros e _. reflexivity.
  - inversion Hfiles as [|? ? Hnotin Hrest]; subst.
    destruct (Hreg fp (or_introl eq_refl)) as [f Hl].
    rewrite (@link_loop_step cutoff fp rest d cnt f Hl).
    change (older cutoff f && removable f) with (sweepable cutoff (Links.Regular f)).
    destruct (sweepable cutoff (Links.Regular f)) eqn:Hx.
    + rewrite IH; [|now apply link_nodup_delete | trivial |].
      * destruct (@link_step_removed cutoff fp (Links.Regular f) rest d) as [E1 E2]; trivial.
        rewrite E1, <- E2. f_equal. f_equal. lia.
      * intros n Hn. rewrite link_lookup_delete_other; [apply Hreg; now right|].
        intros ->. contradiction.
    + pose proof (@link_step_kept cutoff fp (Links.Regular f) rest d Hnd Hl Hx) as Hext.
      rewrite IH; [|trivial | trivial | intros n Hn; apply Hreg; now right].
      f_equal.
      * f_equal. f_equal. f_equal. apply filter_ext_in. intros e He. now rewrite Hext.
      * apply filter_ext_in. intros e He. now rewrite Hext.
Qed.

Lemma link_hit_listed cutoff d e :
  In e d -> link_hit cutoff (filter listed (Links.names d)) e = link_swept cutoff e.
Proof.
  intros Hin. unfold link_hit, link_swept. f_equal.
  destruct (listed (fst e)) eqn:El.
  - apply mem_in. apply filter_In. split; [|trivial]. now apply in_map.
  - apply mem_false. intros H. apply filter_In in H as [_ H]. congruence.
Qed.

(** A listed link without target ends the loop with [OSError]. *)
Lemma link_loop_fails cutoff files :
  forall d cnt name u,
    In name files -> lookup name d = Some (Links.Dangling u) ->
    fst (Links.delete_loop cutoff files d cnt) = raise OSError.
Proof.
  induction files as [|fp rest IH]; intros d cnt name u Hin Hl; [destruct Hin|].
  cbn [Links.delete_loop]. unfold Links.getctime, Links.remove.
  destruct (string_dec fp name) as [->|Hne].
  - rewrite Hl. reflexivity.
  - assert (Hin' : In name rest) by (destruct Hin; [congruence | trivial]).
    destruct (lookup fp d) as [[f|u']|] eqn:Hfp; try reflexivity.
    unfold ok. destruct (ctime f <? cutoff)%Z; [|now apply (IH d cnt name u)].
    destruct (removable f).
    + apply (IH _ _ name u); [trivial|].
      rewrite link_lookup_delete_other; [trivial | congruence].
    + now apply (IH d cnt name u).
Qed.

(** Whatever the outcome, an entry the sweep does not aim at stays. *)
Lemma link_loop_keeps cutoff files :
  forall d cnt e,
    NoDup (Links.names d) -> In e d -> link_hit cutoff files e = false ->
    In e (snd (Links.delete_loop cutoff files d cnt)).
Proof.
  induction files as [|fp rest IH]; intros d cnt e Hnd Hin Hhit; [exact Hin|].
  assert (Hrest : link_hit cutoff rest e = false).
  { unfold link_hit in *. destruct (sweepable cutoff (snd e)); [|now rewrite andb_false_r].
    rewrite andb_true_r in *. unfold mem in *. cbn [existsb] in Hhit.
    now apply orb_false_iff in Hhit as [_ H]. }
  cbn [Links.delete_loop]. unfold Links.getctime, Links.remove.
  destruct (lookup fp d) as [[f|u]|] eqn:Hfp; try exact Hin.
  unfold ok. fold (older cutoff f).
  destruct (older cutoff f) eqn:Ho; [|now apply IH].
  destruct (removable f) eqn:Hr; [|now apply IH].
  apply IH; [now apply link_nodup_delete | | trivial].
  apply link_in_delete_other; [|trivial].
  intros E. destruct e as [n y]. cbn [fst] in E. subst n.
  rewrite (@lookup_nodup _ fp y d Hnd Hin) in Hfp. injection Hfp as ->.
  unfold link_hit, mem in Hhit. cbn [fst snd existsb sweepable] in Hhit.
  rewrite String.eqb_refl, Ho, Hr in Hhit. discriminate.
Qed.

Lemma minus_days_representable now days :
  minus_days now days =
  if representable now days then ok (now - days * us_per_day)%Z
  else raise OverflowError.
Proof.
  unfold minus_days, representable.
  destruct (Z.ltb_spec timedelta_max_days (Z.abs days)) as [H1|H1];
    destruct (Z.leb_spec (Z.abs days) timedelta_max_days) as [H1'|H1']; try lia;
    cbn [andb]; [reflexivity|].
  destruct (Z.ltb_spec (now - days * us_per_day) 0) as [H2|H2];
    destruct (Z.leb_spec 0 (now - days * us_per_day)) as [H2'|H2']; try lia;
    cbn [andb orb]; [reflexivity|].
  destruct (Z.ltb_spec datetime_max (now - days * us_per_day)) as [H3|H3];
    destruct (Z.leb_spec (now - days * us_per_day) datetime_max) as [H3'|H3']; try lia;
    reflexivity.
Qed.

(** On a directory of files only, the sweep with links is the sweep of
    [FileUtils]. *)
Lemma lookup_of_files k d :
  lookup k (Links.of_files d) = option_map Links.Regular (lookup k d).
Proof.
  induction d as [|[n f] d IH]; [reflexivity|]. cbn [Links.of_files map lookup fst snd].
  destruct (String.eqb k n); [reflexivity | exact IH].
Qed.

Lemma delete_of_files k d :
  Links.delete k (Links.of_files d) = Links.of_files (delete k d).
Proof.
  induction d as [|[n f] d IH]; [reflexivity|].
  cbn [Links.of_files map Links.delete delete fst snd].
  destruct (String.eqb k n); [reflexivity|]. cbn [map fst snd]. f_equal. exact IH.
Qed.

Lemma names_of_files d : Links.names (Links.of_files d) = names d.
Proof. unfold Links.names, Links.of_files, names. rewrite map_map. reflexivity. Qed.

Lemma regular_loop cutoff files :
  forall d cnt d' n,
    delete_loop cutoff files d cnt = ok (d', n) ->
    Links.delete_loop cutoff files (Links.of_files d) cnt = (ok n, Links.of_files d').
Proof.
  induction files as [|fp rest IH]; intros d cnt d' n H.
  - cbn in H. injection H as <- <-. reflexivity.
  - cbn [delete_loop Links.delete_loop] in *.
    unfold getctime, remove, Links.getctime, Links.remove in *.
    rewrite lookup_of_files. destruct (lookup fp d) as [f|]; [|discriminate H].
    cbn [option_map rbind ok] in *. unfold ok in *.
    destruct (ctime f <? cutoff)%Z; [|now apply IH].
    destruct (removable f); [|now apply IH].
    rewrite delete_of_files. now apply IH.
Qed.

Lemma regular_sweep now d days d' n :
  delete_old_files now d days = ok (d', n) ->
  Links.delete_old_files now (Links.of_files d) days = (ok n, Links.of_files d').
Proof.
  unfold delete_old_files, Links.delete_old_files, Links.list_all_files, list_all_files.
  destruct (minus_days now days) as [e|cutoff]; [discriminate|].
  cbn [rbind]. rewrite names_of_files. apply regular_loop.
Qed.

(** C9, counterexample.  A removable file [notes.txt], older than the
    threshold of 30 days, is still there after the sweep, which reports no
    deletion; with a threshold of 10^9 days the whole call fails with
    [OverflowError]; and in a directory where [latest.json] is a link whose
    target is gone, the call fails with [OSError], after it has removed the
    old snapshot listed before the link and before it reaches the old
    snapshot listed after it. *)
Lemma purge_counterexample :
  ((ctime {| content := None; ctime := day 738000; removable := true |}
    < day 738885 - 30 * us_per_day)%Z
   /\ Links.delete_old_files (day 738885) (Links.of_files old_notes) 30
      = (ok 0%nat, Links.of_files old_notes))
  /\ Links.delete_old_files (day 738885) (Links.of_files old_notes) 1000000000
     = (raise OverflowError, Links.of_files old_notes)
  /\ Links.delete_old_files (day 738885) broken_dir 30
     = (raise OSError,
        [ ("latest.json", Links.Dangling true);
          ("AAPL_corporate_info_20230102_000000.json",
           Links.Regular {| content := Some (json_dump (PDict other_info));
                            ctime := day 738521; removable := true |}) ]).
Proof. repeat split. Qed.

(** C9, as amended.  For every directory of distinct names, which may hold
    links whose target is gone, and every threshold: when Python can
    represent the cut-off date and no name [list_all_files] reports
    (visible, matching [*.json]) is such a link, [delete_old_files] does not
    fail, removes exactly the reported files that are older than the cut-off
    and whose removal succeeds, keeps every other entry, and returns the
    number of files removed; when the cut-off can be represented and some
    reported name is such a link, the call raises [OSError], and every entry
    that is not a reported old removable file is still in the directory;
    when the cut-off cannot be represented the call raises [OverflowError]
    and the directory is as it was. *)
Theorem delete_old_files_sweep now (d : Links.directory) days :
  NoDup (Links.names d) ->
  let cutoff := (now - days * us_per_day)%Z in
  let outcome := Links.delete_old_files now d days in
  (representable now days = true ->
   existsb listed_dangling d = false ->
   outcome = (ok (length (filter (link_swept cutoff) d)),
              filter (fun e => negb (link_swept cutoff e)) d))
  /\ (representable now days = true ->
      existsb listed_dangling d = true ->
      fst outcome = raise OSError
      /\ forall e, In e d -> link_swept cutoff e = false -> In e (snd outcome))
  /\ (representable now days = false ->
      outcome = (raise OverflowError, d)).
Proof.
  intros Hnd cutoff outcome. unfold outcome, Links.delete_old_files.
  rewrite minus_days_representable. fold cutoff.
  unfold Links.list_all_files. rewrite glob_json_listed.
  split; [|split]; intros Hr; rewrite Hr; [| |reflexivity].
  - intros Hno. unfold ok at 1. cbv iota beta.
    rewrite link_delete_loop_spec.
    + f_equal.
      * cbn [Nat.add]. f_equal. f_equal. apply filter_ext_in. intros e He.
        now apply link_hit_listed.
      * apply filter_ext_in. intros e He. now rewrite link_hit_listed.
    + trivial.
    + now apply NoDup_filter.
    + intros n Hn. apply filter_In in Hn as [Hn Hlisted].
      destruct (@lookup_in_names _ n d Hn) as [x Hx].
      destruct x as [f|u]; [eauto|]. exfalso.
      assert (Hin : In (n, Links.Dangling u) d).
      { clear - Hx. induction d as [|[k y] d IH]; [discriminate|]. cbn [lookup] in Hx.
        destruct (String.eqb_spec n k) as [->|]; [injection Hx as ->; now left|].
        right. auto. }
      assert (He : existsb listed_dangling d = true).
      { apply existsb_exists. exists (n, Links.Dangling u). split; [trivial|].
        unfold listed_dangling. cbn [fst snd dangling]. now rewrite Hlisted. }
      congruence.
  - intros Hex. unfold ok at 1. cbv iota beta.
    apply existsb_exists in Hex as [[n x] [Hin Hld]].
    unfold listed_dangling in Hld. cbn [fst snd] in Hld.
    apply andb_true_iff in Hld as [Hlisted Hdang].
    destruct x as [f|u]; [discriminate|]. split.
    + apply (@link_loop_fails cutoff _ d 0%nat n u).
      * apply filter_In. split; [|trivial]. change n with (fst (n, Links.Dangling u)).
        now apply in_map.
      * now apply lookup_nodup.
    + intros e He Hs. apply link_loop_keeps; trivial.
      now rewrite link_hit_listed.
Qed.

(** C9 on a directory of three snapshots and a link [current] whose
    target is gone, swept at 30 days: the link is not listed, one old
    snapshot is removed, the old snapshot that refuses removal and the
    recent one are kept. *)
Lemma delete_old_files_sweep_witness :
  Links.delete_old_files (day 738885) linked_dir 30
  = (ok (length (filter (link_swept (day 738885 - 30 * us_per_day)) linked_dir)),
     filter (fun e => negb (link_swept (day 738885 - 30 * us_per_day) e)) linked_dir).
Proof.
  assert (Hnd : NoDup (Links.names linked_dir)).
  { unfold Links.names, linked_dir. cbn [map fst].
    repeat constructor; cbn [In]; intros H;
      repeat (destruct H as [H|H]; [discriminate H|]); exact H. }
  destruct (@delete_old_files_sweep (day 738885) linked_dir 30 Hnd) as [H _].
  apply H; vm_compute; reflexivity.
Defined.

Example sweep_linked_dir :
  Links.delete_old_files (day 738885) linked_dir 30
  = (ok 1%nat,
     [ ("current", Links.Dangling true);
       ("AAPL_corporate_info_20230102_000000.json",
        Links.Regular {| content := Some (json_dump (PDict other_info));
                         ctime := day 738521; removable := false |});
       ("AAPL_corporate_info_20231231_000000.json",
        Links.Regular {| content := Some (json_dump (PDict other_info));
                         ctime := day 738884; removable := true |}) ]).
Proof. reflexivity. Qed.

(** The model at work: a timestamp, two matches, a store followed by a
    read, and a sweep that removes one old file, keeps an old file that
    refuses removal, a recent file and a file that is not a snapshot. *)
Example strftime_new_year :
  strftime (day 738885 + 45296000000) = "20240101_123456".
Proof. reflexivity. Qed.

Example fnmatch_snapshot :
  fnmatch "MSFT_corporate_info_20240101_123456.json" "MSFT_corporate_info_*.json"
  = true
  /\ fnmatch "MSFT_industry_info_20240101_123456.json" "MSFT_corporate_info_*.json"
     = false.
Proof. split; reflexivity. Qed.

Example find_latest_in_sample_dir :
  find_latest_json_file sample_dir "AAPL" "corporate_info"
  = ok (Some "AAPL_corporate_info_20231231_000000.json")
  /\ find_latest_json_file sample_dir "TSLA" "corporate_info" = ok None.
Proof. split; reflexivity. Qed.

Example sweep_sample_dir :
  delete_old_files (day 738885) sample_dir 30
  = ok ([ ("AAPL_corporate_info_20230102_000000.json",
           {| content := Some (json_dump (PDict other_info));
              ctime := day 738521; removable := false |});
          ("AAPL_corporate_info_20231231_000000.json",
           {| content := Some (json_dump (PDict other_info));
              ctime := day 738884; removable := true |});
          ("notes.txt",
           {| content := None; ctime := day 738000; removable := true |}) ],
        1%nat).
Proof. reflexivity. Qed.

End snapshot_store.

(** * The snapshot store, further properties *)

Section store_properties.

Import Clock FS Glob FileUtils StoreSpec StoreSamples.

Open Scope string_scope.

(** The greatest creation time, in general *)

Lemma max_by_ctime_greatest d files :
  (forall f, In f files -> exists fl, lookup f d = Some fl) ->
  forall best fb,
    lookup best d = Some fb ->
    exists r fr,
      max_by_ctime d best (ctime fb) files = ok r
      /\ lookup r d = Some fr
      /\ (r = best \/ In r files)
      /\ (ctime fb <= ctime fr)%Z
      /\ forall g fg, In g files -> lookup g d = Some fg -> (ctime fg <= ctime fr)%Z.
Proof.
  induction files as [|f rest IH]; intros Hall best fb Hb.
  - exists best, fb. cbn [max_by_ctime]. split; [reflexivity|]. split; [exact Hb|].
    split; [now left|]. split; [lia|]. intros g fg [].
  - destruct (Hall f (or_introl eq_refl)) as [fl Hfl].
    assert (Hrest : forall f0, In f0 rest -> exists fl0, lookup f0 d = Some fl0)
      by (intros f0 H0; apply Hall; now right).
    cbn [max_by_ctime]. unfold getctime. rewrite Hfl. cbn [rbind ok].
    destruct (Z.ltb_spec (ctime fb) (ctime fl)) as [Hlt|Hge].
    + destruct (IH Hrest f fl Hfl) as (r & fr & E & Hr & Hin & Hle & Hmax).
      exists r, fr. repeat split; trivial.
      * right. destruct Hin as [->|Hin]; [now left | now right].
      * lia.
      * intros g fg [<-|Hg] Hg'; [|now apply (Hmax g)].
        rewrite Hfl in Hg'. injection Hg' as <-. exact Hle.
    + destruct (IH Hrest best fb Hb) as (r & fr & E & Hr & Hin & Hle & Hmax).
      exists r, fr. repeat split; trivial.
      * destruct Hin as [->|Hin]; [now left | now right; right].
      * intros g fg [<-|Hg] Hg'; [|now apply (Hmax g)].
        rewrite Hfl in Hg'. injection Hg' as <-. lia.
Qed.

Lemma latest_of_greatest d files :
  (forall f, In f files -> exists fl, lookup f d = Some fl) ->
  match files with
  | [] => latest_of d files = ok None
  | _ :: _ =>
      exists r fr,
        latest_of d files = ok (Some r)
        /\ lookup r d = Some fr
        /\ In r files
        /\ forall g fg, In g files -> lookup g d = Some fg -> (ctime fg <= ctime fr)%Z
  end.
Proof.
  intros Hall. destruct files as [|f rest]; [reflexivity|].
  destruct (Hall f (or_introl eq_refl)) as [fl Hfl].
  assert (Hrest : forall f0, In f0 rest -> exists fl0, lookup f0 d = Some fl0)
    by (intros f0 H0; apply Hall; now right).
  destruct (@max_by_ctime_greatest d rest Hrest f fl Hfl) as (r & fr & E & Hr & Hin & Hle & Hmax).
  exists r, fr. cbn [latest_of]. unfold getctime. rewrite Hfl. cbn [rbind ok].
  rewrite E. cbn [rbind ok]. repeat split; trivial.
  - destruct Hin as [->|Hin]; [now left | now right].
  - intros g fg [<-|Hg] Hg'; [|now apply (Hmax g)].
    rewrite Hfl in Hg'. injection Hg' as <-. exact Hle.
Qed.

Lemma glob_names_known d pat f :
  In f (glob_names (names d) pat) -> exists fl, lookup f d = Some fl.
Proof.
  intros H. apply filter_In in H as [H _]. now apply lookup_in_names.
Qed.

(** X1.  [find_latest_json_file] returns nothing exactly when no visible
    file matches [{symbol}_{prefix}_*.json]; otherwise it returns one of the
    matching files, and no matching file has a later creation time. *)
Theorem find_latest_is_newest_match d symbol prefix :
  let matches := glob_names (names d) (pattern symbol prefix) in
  match matches with
  | [] => find_latest_json_file d symbol prefix = ok None
  | _ :: _ =>
      exists f ff,
        find_latest_json_file d symbol prefix = ok (Some f)
        /\ In f matches
        /\ lookup f d = Some ff
        /\ forall g fg, In g matches -> lookup g d = Some fg ->
                        (ctime fg <= ctime ff)%Z
  end.
Proof.
  cbv zeta. unfold find_latest_json_file.
  pose proof (@latest_of_greatest d (glob_names (names d) (pattern symbol prefix))
                (fun f => @glob_names_known d _ f)) as H.
  destruct (glob_names (names d) (pattern symbol prefix)) as [|f0 rest]; [exact H|].
  destruct H as (r & fr & E & Hr & Hin & Hmax). exists r, fr. auto.
Qed.

(** X2.  When the newest file matching the pattern holds no JSON document,
    [read_latest_json_file] fails with the decoding error; it does not fall
    back to an older snapshot that can be read. *)
Theorem read_latest_corrupt_fails d symbol prefix f ff :
  lookup f d = Some ff ->
  content ff = None ->
  In f (glob_names (names d) (pattern symbol prefix)) ->
  (forall g, In g (glob_names (names d) (pattern symbol prefix)) -> g <> f ->
             exists fg, lookup g d = Some fg /\ (ctime fg < ctime ff)%Z) ->
  read_latest_json_file d symbol prefix = raise ValueError.
Proof.
  intros Hf Hc Hin Hold. unfold read_latest_json_file.
  rewrite (@latest_of_target d f ff (ctime ff)); trivial.
  - cbn [rbind ok]. now rewrite Hf, Hc.
  - intros g Hg. destruct (string_dec g f) as [->|Hne]; [now left | right].
    now apply Hold.
Qed.

(** X2 at a directory whose newer MSFT snapshot is empty. *)
Lemma read_latest_corrupt_fails_witness :
  read_latest_json_file corrupt_dir "MSFT" "corporate_info" = raise ValueError.
Proof.
  apply (@read_latest_corrupt_fails corrupt_dir "MSFT" "corporate_info"
           "MSFT_corporate_info_20230102_000000.json"
           {| content := None; ctime := day 738521; removable := true |}).
  - reflexivity.
  - reflexivity.
  - vm_compute. right. left. reflexivity.
  - intros g Hg Hne. vm_compute in Hg. destruct Hg as [<-|[<-|[]]].
    + eexists. split; [reflexivity|]. vm_compute. reflexivity.
    + congruence.
Defined.

(** Timestamps have the resolution of a second *)

Lemma day_of_seconds t : (t / us_per_day = t / 1000000 / 86400)%Z.
Proof.
  unfold us_per_day. rewrite Z.div_div by lia. reflexivity.
Qed.

Lemma second_of_day t :
  ((t mod us_per_day) / 1000000 = (t / 1000000) mod 86400)%Z.
Proof.
  unfold us_per_day. change 86400000000%Z with (1000000 * 86400)%Z.
  rewrite Z.rem_mul_r by lia.
  rewrite Z.mul_comm, Z.div_add by lia.
  rewrite (Z.div_small (t mod 1000000)) by (apply Z.mod_pos_bound; lia).
  reflexivity.
Qed.

Lemma strftime_same_second t1 t2 :
  (t1 / 1000000 = t2 / 1000000)%Z -> strftime t1 = strftime t2.
Proof.
  intros H. unfold strftime.
  now rewrite !day_of_seconds, !second_of_day, H.
Qed.

Lemma names_set_assoc_known {A} k (v : A) l :
  In k (map fst l) -> map fst (set_assoc k v l) = map fst l.
Proof.
  induction l as [|[k' v'] l IH]; cbn; [tauto|].
  destruct (String.eqb_spec k k') as [->|Hne]; cbn; [reflexivity|].
  intros [E|H]; [congruence|]. now rewrite IH.
Qed.

Lemma names_set_assoc_new {A} k (v : A) l :
  ~ In k (map fst l) -> map fst (set_assoc k v l) = (map fst l ++ [k])%list.
Proof.
  induction l as [|[k' v'] l IH]; cbn; [reflexivity|].
  intros H. destruct (String.eqb_spec k k') as [->|Hne]; [tauto|].
  cbn. rewrite IH; tauto.
Qed.

Lemma store_explicit_ok now d info symbol prefix :
  writable_name (file_name symbol prefix (strftime now)) = true ->
  store_json_info now d info (Some symbol) prefix
  = ok (set_assoc (file_name symbol prefix (strftime now)) (stored_file info now) d,
        file_name symbol prefix (strftime now)).
Proof.
  intros Hw. unfold store_json_info. now rewrite write_file_ok.
Qed.

(** X3.  File names carry the time to the second: two stores for the same
    symbol and prefix within one second write to the same path, the
    directory keeps its names, and the file holds the second payload. *)
Theorem same_second_store_overwrites now1 now2 d info1 info2 symbol prefix :
  (now1 / 1000000 = now2 / 1000000)%Z ->
  writable_name (file_name symbol prefix (strftime now1)) = true ->
  exists d1 d2 path,
    store_json_info now1 d info1 (Some symbol) prefix = ok (d1, path)
    /\ store_json_info now2 d1 info2 (Some symbol) prefix = ok (d2, path)
    /\ names d2 = names d1
    /\ lookup path d2 = Some (stored_file info2 now2).
Proof.
  intros Hsec Hw. pose proof (strftime_same_second _ _ Hsec) as Hts.
  do 3 eexists. split; [now apply store_explicit_ok|].
  rewrite store_explicit_ok by (now rewrite <- Hts). rewrite <- Hts.
  split; [reflexivity|]. split.
  - unfold names. apply names_set_assoc_known. apply in_names_set_assoc.
  - apply lookup_set_assoc_same.
Qed.

(** X3 at two stores 999999 microseconds apart. *)
Lemma same_second_store_overwrites_witness :
  exists d1 d2 path,
    store_json_info (day 738885) [] sample_info (Some "MSFT") "corporate_info"
    = ok (d1, path)
    /\ store_json_info (day 738885 + 999999) d1 other_info (Some "MSFT")
         "corporate_info" = ok (d2, path)
    /\ names d2 = names d1
    /\ lookup path d2 = Some (stored_file other_info (day 738885 + 999999)).
Proof.
  apply (@same_second_store_overwrites (day 738885) (day 738885 + 999999)).
  - reflexivity.
  - reflexivity.
Defined.

(** Sweeps *)

Lemma delete_old_files_ok now d days :
  NoDup (names d) -> representable now days = true ->
  delete_old_files now d days
  = ok (filter (fun e => negb (swept (now - days * us_per_day) e)) d,
        length (filter (swept (now - days * us_per_day)) d)).
Proof.
  intros Hnd Hr. unfold representable in Hr.
  apply andb_true_iff in Hr as [Hr H3]. apply andb_true_iff in Hr as [H1 H2].
  apply Z.leb_le in H1, H2, H3.
  unfold delete_old_files, minus_days.
  destruct (Z.ltb_spec timedelta_max_days (Z.abs days)); [lia|].
  destruct (Z.ltb_spec (now - days * us_per_day) 0); [lia|].
  destruct (Z.ltb_spec datetime_max (now - days * us_per_day)); [lia|].
  cbn [orb rbind ok]. unfold list_all_files. rewrite glob_json_listed.
  rewrite delete_loop_spec.
  - unfold ok. apply f_equal. apply f_equal2.
    + apply filter_ext_in. intros e He. now rewrite hit_listed.
    + cbn [Nat.add]. f_equal. apply filter_ext_in. intros e He.
      now apply hit_listed.
  - trivial.
  - now apply NoDup_filter.
  - intros n Hn. now apply filter_In in Hn as [Hn _].
Qed.

Lemma lookup_filter_kept {A} (p : string * A -> bool) k v l :
  lookup k l = Some v -> p (k, v) = true -> lookup k (filter p l) = Some v.
Proof.
  induction l as [|[k' v'] l IH]; cbn [lookup filter]; [discriminate|].
  destruct (String.eqb_spec k k') as [<-|Hne]; intros Hl Hp.
  - injection Hl as ->. rewrite Hp. cbn [lookup]. now rewrite String.eqb_refl.
  - destruct (p (k', v')); [|now apply IH]. cbn [lookup].
    destruct (String.eqb_spec k k'); [congruence | now apply IH].
Qed.

Lemma nodup_set_assoc {A} k (v : A) l :
  NoDup (map fst l) -> NoDup (map fst (set_assoc k v l)).
Proof.
  intros H. destruct (in_dec string_dec k (map fst l)) as [Hin|Hout].
  - now rewrite names_set_assoc_known.
  - rewrite names_set_assoc_new by trivial. apply NoDup_app; trivial.
    + repeat constructor. intros [].
    + intros x Hx [<-|[]]. contradiction.
Qed.

Lemma names_filter_in {A} (p : string * A -> bool) l k :
  In k (map fst (filter p l)) -> In k (map fst l).
Proof.
  intros H. apply in_map_iff in H as [[k' v] [E H]]. apply filter_In in H as [H _].
  apply in_map_iff. now exists (k', v).
Qed.

Lemma nodup_names_filter {A} (p : string * A -> bool) l :
  NoDup (map fst l) -> NoDup (map fst (filter p l)).
Proof.
  induction l as [|[k v] l IH]; cbn [map filter fst]; [trivial|]. intros H.
  inversion H as [|? ? Hout Hnd]; subst.
  destruct (p (k, v)); [|now apply IH]. cbn [map fst]. constructor; [|now apply IH].
  intros Hin. apply Hout. now apply (@names_filter_in _ p l).
Qed.

(** X4.  A snapshot stored no earlier than the cut-off [now' - days] is
    still in the directory, with its content, after [delete_old_files]. *)
Theorem fresh_snapshot_survives_sweep now now' d info symbol prefix days :
  NoDup (names d) ->
  writable_name (file_name symbol prefix (strftime now)) = true ->
  representable now' days = true ->
  (now' - days * us_per_day <= now)%Z ->
  exists d1 path d2 n,
    store_json_info now d info (Some symbol) prefix = ok (d1, path)
    /\ delete_old_files now' d1 days = ok (d2, n)
    /\ lookup path d2 = Some (stored_file info now).
Proof.
  intros Hnd Hw Hr Hage. do 4 eexists.
  split; [now apply store_explicit_ok|].
  split; [apply delete_old_files_ok; [now apply nodup_set_assoc | trivial]|].
  apply lookup_filter_kept; [apply lookup_set_assoc_same|].
  unfold swept, older, stored_file. cbn [fst snd ctime].
  destruct (Z.ltb_spec now (now' - days * us_per_day)); [lia|].
  now rewrite andb_false_r.
Qed.

(** X4 at a sweep of 30 days, fifteen days after the store. *)
Lemma fresh_snapshot_survives_sweep_witness :
  exists d1 path d2 n,
    store_json_info (day 738885) sample_dir sample_info (Some "MSFT") "corporate_info"
    = ok (d1, path)
    /\ delete_old_files (day 738900) d1 30 = ok (d2, n)
    /\ lookup path d2 = Some (stored_file sample_info (day 738885)).
Proof.
  apply (@fresh_snapshot_survives_sweep (day 738885) (day 738900) sample_dir).
  - unfold names, sample_dir. cbn [map fst].
    repeat constructor; cbn [In]; intros H;
      repeat (destruct H as [H|H]; [discriminate H|]); exact H.
  - reflexivity.
  - reflexivity.
  - vm_compute. discriminate.
Defined.

Lemma filter_twice {A} (p : A -> bool) l : filter p (filter p l) = filter p l.
Proof.
  apply forallb_filter_id. apply forallb_forall. intros x Hx.
  now apply filter_In in Hx as [_ Hx].
Qed.

Lemma filter_after_complement {A} (p : A -> bool) l :
  filter p (filter (fun x => negb (p x)) l) = [].
Proof.
  induction l as [|x l IH]; [reflexivity|]. cbn [filter].
  destruct (p x) eqn:E; cbn [negb filter]; [exact IH | now rewrite E].
Qed.

(** X5.  A second [delete_old_files] at the same clock reading and
    threshold deletes nothing and leaves the directory as the first one
    left it. *)
Theorem sweep_twice_removes_nothing now d days :
  NoDup (names d) ->
  representable now days = true ->
  exists d1 n,
    delete_old_files now d days = ok (d1, n)
    /\ delete_old_files now d1 days = ok (d1, 0%nat).
Proof.
  intros Hnd Hr. do 2 eexists. split; [now apply delete_old_files_ok|].
  rewrite delete_old_files_ok by (trivial; now apply nodup_names_filter).
  now rewrite filter_twice, filter_after_complement.
Qed.

(** X5 at the sample directory and 30 days. *)
Lemma sweep_twice_removes_nothing_witness :
  exists d1 n,
    delete_old_files (day 738885) sample_dir 30 = ok (d1, n)
    /\ delete_old_files (day 738885) d1 30 = ok (d1, 0%nat).
Proof.
  apply (@sweep_twice_removes_nothing (day 738885) sample_dir 30).
  - unfold names, sample_dir. cbn [map fst].
    repeat constructor; cbn [In]; intros H;
      repeat (destruct H as [H|H]; [discriminate H|]); exact H.
  - reflexivity.
Defined.

(** Listing *)

Lemma chars_file_name symbol prefix ts :
  chars (file_name symbol prefix ts)
  = (chars symbol ++ chars ("_" ++ prefix ++ "_") ++ chars ts ++ chars ".json")%list.
Proof.
  unfold file_name. rewrite !chars_app. cbn [chars list_ascii_of_string app].
  rewrite <- !app_assoc. reflexivity.
Qed.

Lemma ends_with_json_matches s :
  fnmatch (s ++ ".json") "*.json" = true.
Proof.
  unfold fnmatch. rewrite chars_app.
  change (translate (String.length "*.json") (chars "*.json"))
    with (TStar :: map TChar (chars ".json")).
  apply match_star. rewrite <- (app_nil_r (map TChar (chars ".json"))).
  rewrite <- (app_nil_r (chars ".json")) at 2. now rewrite match_chars.
Qed.

Lemma stored_name_ends_with_json symbol prefix ts :
  file_name symbol prefix ts = (symbol ++ "_" ++ prefix ++ "_" ++ ts) ++ ".json".
Proof. unfold file_name. now rewrite !append_assoc. Qed.

Lemma translate_star_plain l rest fuel :
  forallb plain_char l = true -> l <> [] -> (length l <= fuel)%nat ->
  translate (S fuel) ("*"%char :: l ++ rest)
  = (TStar :: map TChar l ++ translate (fuel - length l) rest)%list.
Proof.
  intros Hp Hne Hf. cbn [translate]. rewrite Ascii.eqb_refl.
  rewrite translate_plain by trivial.
  destruct l as [|c l]; [congruence | reflexivity].
Qed.

Lemma stored_name_matches_prefix symbol prefix ts :
  plain prefix = true ->
  fnmatch (file_name symbol prefix ts) ("*_" ++ prefix ++ "_*.json") = true.
Proof.
  intros Hp. unfold fnmatch. rewrite chars_file_name.
  set (mid := "_" ++ prefix ++ "_").
  assert (Hmid : plain mid = true) by (unfold mid; repeat apply plain_app; trivial).
  replace ("*_" ++ prefix ++ "_*.json") with ("*" ++ mid ++ "*.json")
    by (unfold mid; now rewrite !append_assoc).
  rewrite <- chars_length, !chars_app, !length_app.
  change (chars "*") with ["*"%char]. cbn [app length Nat.add].
  rewrite translate_star_plain; [| exact Hmid | | lia].
  - replace (length (chars mid) + length (chars "*.json") - length (chars mid))%nat
      with 6%nat by (cbn [chars list_ascii_of_string length]; lia).
    change (translate 6 (chars "*.json")) with (TStar :: map TChar (chars ".json")).
    apply match_star. rewrite match_chars.
    apply match_star. rewrite <- (app_nil_r (map TChar (chars ".json"))).
    rewrite <- (app_nil_r (chars ".json")) at 2. now rewrite match_chars.
  - unfold mid. cbn [append chars list_ascii_of_string]. discriminate.
Qed.

(** X6.  For a non-empty prefix without glob characters, the file
    [store_json_info] writes is reported by [list_all_files], both without
    a prefix and for its own prefix, exactly when its name does not start
    with a dot. *)
Theorem stored_snapshot_is_listed now d info symbol prefix :
  plain prefix = true ->
  prefix <> EmptyString ->
  writable_name (file_name symbol prefix (strftime now)) = true ->
  exists d1 path,
    store_json_info now d info (Some symbol) prefix = ok (d1, path)
    /\ (In path (list_all_files d1 None) <-> is_hidden path = false)
    /\ (In path (list_all_files d1 (Some prefix)) <-> is_hidden path = false).
Proof.
  intros Hp Hne Hw. do 2 eexists. split; [now apply store_explicit_ok|].
  set (path := file_name symbol prefix (strftime now)).
  assert (Hin : In path (names (set_assoc path (stored_file info now) d)))
    by apply in_names_set_assoc.
  assert (Hlisted : forall pat,
             is_hidden pat = false -> fnmatch path pat = true ->
             In path (glob_names (names (set_assoc path (stored_file info now) d)) pat)
             <-> is_hidden path = false).
  { intros pat Hpat Hm. unfold glob_names. rewrite filter_In, Hpat, Hm.
    cbn [orb]. rewrite andb_true_r, negb_true_iff. tauto. }
  split.
  - apply Hlisted; [reflexivity|]. unfold path.
    rewrite stored_name_ends_with_json. apply ends_with_json_matches.
  - destruct prefix as [|c p]; [congruence|].
    apply Hlisted; [reflexivity|]. now apply stored_name_matches_prefix.
Qed.

(** X6 at a store into the sample directory. *)
Lemma stored_snapshot_is_listed_witness :
  exists d1 path,
    store_json_info (day 738885) sample_dir sample_info (Some "MSFT") "corporate_info"
    = ok (d1, path)
    /\ (In path (list_all_files d1 None) <-> is_hidden path = false)
    /\ (In path (list_all_files d1 (Some "corporate_info")) <-> is_hidden path = false).
Proof.
  apply (@stored_snapshot_is_listed (day 738885) sample_dir sample_info "MSFT").
  - reflexivity.
  - discriminate.
  - reflexivity.
Defined.

(** The two stores in one directory *)

Lemma industry_name_not_corporate symbol ts :
  plain symbol = true ->
  fnmatch (symbol ++ "_industry_info_" ++ ts ++ ".json")
          (pattern symbol "corporate_info") = false.
Proof.
  intros Hs. unfold fnmatch.
  change (pattern symbol "corporate_info") with (symbol ++ "_corporate_info_*.json").
  rewrite <- chars_length, !(chars_app symbol), length_app.
  rewrite translate_plain by (trivial || lia).
  rewrite match_chars, Nat.add_comm, Nat.add_sub.
  reflexivity.
Qed.

Lemma glob_names_set_assoc_unmatched d k (v : file) pat :
  fnmatch k pat = false ->
  glob_names (names (set_assoc k v d)) pat = glob_names (names d) pat.
Proof.
  intros Hm. unfold names.
  destruct (in_dec string_dec k (map fst d)) as [Hin|Hout].
  - now rewrite names_set_assoc_known.
  - rewrite names_set_assoc_new by trivial. unfold glob_names.
    rewrite filter_app. cbn [filter]. rewrite Hm, andb_false_r. apply app_nil_r.
Qed.

Lemma max_by_ctime_ext d d' files :
  (forall f, In f files -> lookup f d' = lookup f d) ->
  forall best bt, max_by_ctime d' best bt files = max_by_ctime d best bt files.
Proof.
  induction files as [|f rest IH]; intros Hext best bt; [reflexivity|].
  cbn [max_by_ctime]. unfold getctime. rewrite (Hext f (or_introl eq_refl)).
  destruct (lookup f d) as [fl|]; [|reflexivity]. cbn [rbind ok].
  rewrite !IH by (intros g Hg; apply Hext; now right). reflexivity.
Qed.

Lemma latest_of_ext d d' files :
  (forall f, In f files -> lookup f d' = lookup f d) ->
  latest_of d' files = latest_of d files.
Proof.
  intros Hext. destruct files as [|f rest]; [reflexivity|].
  cbn [latest_of]. unfold getctime. rewrite (Hext f (or_introl eq_refl)).
  destruct (lookup f d) as [fl|]; [|reflexivity]. cbn [rbind ok].
  rewrite (@max_by_ctime_ext d d' rest) by (intros g Hg; apply Hext; now right).
  reflexivity.
Qed.

Lemma latest_of_member d files r :
  latest_of d files = ok (Some r) ->
  (forall f, In f files -> exists fl, lookup f d = Some fl) ->
  In r files.
Proof.
  intros E Hall. pose proof (@latest_of_greatest d files Hall) as H.
  destruct files as [|f rest]; [discriminate E|].
  destruct H as (r' & fr & E' & _ & Hin & _). rewrite E in E'.
  injection E' as <-. exact Hin.
Qed.

(** X7.  Storing industry information for a symbol changes neither the
    latest corporate snapshot found for that symbol nor what is read from
    it. *)
Theorem industry_store_keeps_corporate_lookup now d info symbol :
  plain symbol = true ->
  writable_name (symbol ++ "_industry_info_" ++ strftime now ++ ".json") = true ->
  exists d1 path,
    IndustryInfoUtils.store_info now d info (Some symbol) = ok (d1, path)
    /\ CorporateInfoUtils.find_local_stored_latest_corporate_info_file d1 symbol
       = CorporateInfoUtils.find_local_stored_latest_corporate_info_file d symbol
    /\ CorporateInfoUtils.read_corporate_info_from_local_file d1 symbol
       = CorporateInfoUtils.read_corporate_info_from_local_file d symbol.
Proof.
  intros Hs Hw. unfold IndustryInfoUtils.store_info.
  rewrite write_file_ok by trivial. cbn [rbind ok]. do 2 eexists.
  split; [reflexivity|].
  set (path := symbol ++ "_industry_info_" ++ strftime now ++ ".json").
  set (d1 := set_assoc path _ d).
  set (files := glob_names (names d) (pattern symbol "corporate_info")).
  assert (Hfiles : glob_names (names d1) (pattern symbol "corporate_info") = files).
  { unfold d1. apply glob_names_set_assoc_unmatched.
    now apply industry_name_not_corporate. }
  assert (Hother : forall f, In f files -> lookup f d1 = lookup f d).
  { intros f Hf. unfold d1. apply lookup_set_assoc_other. intros ->.
    apply filter_In in Hf as [_ Hf]. apply andb_true_iff in Hf as [_ Hf].
    unfold path in Hf. rewrite industry_name_not_corporate in Hf by trivial.
    discriminate. }
  assert (Hlatest : latest_of d1 files = latest_of d files)
    by now apply latest_of_ext.
  unfold CorporateInfoUtils.find_local_stored_latest_corporate_info_file,
    CorporateInfoUtils.read_corporate_info_from_local_file,
    find_latest_json_file, read_latest_json_file.
  rewrite Hfiles. fold files. rewrite Hlatest. split; [reflexivity|].
  destruct (latest_of d files) as [e|[r|]] eqn:E; try reflexivity.
  cbn [rbind ok]. rewrite Hother; [reflexivity|].
  apply (@latest_of_member d files r E). intros f Hf.
  now apply (@glob_names_known d (pattern symbol "corporate_info")).
Qed.

(** X7 at the sample directory and symbol AAPL. *)
Lemma industry_store_keeps_corporate_lookup_witness :
  exists d1 path,
    IndustryInfoUtils.store_info (day 738885) sample_dir other_info (Some "AAPL")
    = ok (d1, path)
    /\ CorporateInfoUtils.find_local_stored_latest_corporate_info_file d1 "AAPL"
       = CorporateInfoUtils.find_local_stored_latest_corporate_info_file sample_dir "AAPL"
    /\ CorporateInfoUtils.read_corporate_info_from_local_file d1 "AAPL"
       = CorporateInfoUtils.read_corporate_info_from_local_file sample_dir "AAPL".
Proof.
  apply (@industry_store_keeps_corporate_lookup (day 738885) sample_dir other_info "AAPL").
  - reflexivity.
  - reflexivity.
Defined.

(** X8.  [IndustryInfoUtils.store_info] and
    [find_local_stored_latest_industry_info_file] behave as
    [FileUtils.store_json_info] and [FileUtils.find_latest_json_file] with
    the prefix [industry_info]. *)
Theorem industry_store_is_store_json_info now d info symbol :
  IndustryInfoUtils.store_info now d info symbol
  = store_json_info now d info symbol "industry_info"
  /\ (forall s,
         IndustryInfoUtils.find_local_stored_latest_industry_info_file d s
         = find_latest_json_file d s "industry_info").
Proof.
  split; [reflexivity|]. intros s.
  unfold IndustryInfoUtils.find_local_stored_latest_industry_info_file,
    find_latest_json_file.
  change (s ++ "_industry_info_*.json") with (pattern s "industry_info").
  now destruct (glob_names (names d) (pattern s "industry_info")).
Qed.

Lemma json_dump_native : forall v, json_native (json_load (json_dump v)) = true.
Proof.
  fix IH 1. intros [ | b | z | r | s | l | d | o]; try reflexivity.
  - cbn [json_dump json_load json_native].
    induction l as [|x l IHl]; [reflexivity|].
    cbn [map forallb]. now rewrite IH, IHl.
  - cbn [json_dump json_load json_native].
    induction d as [|[k x] d IHd]; [reflexivity|].
    cbn [map forallb fst snd]. now rewrite IH, IHd.
Qed.

(** X9.  What is read back from a stored payload is a fixed point of the
    store: storing it again and reading the latest snapshot returns it
    unchanged, under the conditions of the round trip. *)
Theorem reread_payload_is_stable now d info symbol prefix :
  plain symbol = true ->
  plain prefix = true ->
  writable_name (file_name symbol prefix (strftime now)) = true ->
  (forall name f,
      lookup name d = Some f ->
      fnmatch name (pattern symbol prefix) = true ->
      name <> file_name symbol prefix (strftime now) ->
      (ctime f < now)%Z) ->
  forall info', json_load (json_dump (PDict info)) = PDict info' ->
  exists d1 path,
    store_json_info now d info' (Some symbol) prefix = ok (d1, path)
    /\ read_latest_json_file d1 symbol prefix = ok (Some (PDict info')).
Proof.
  intros Hs Hp Hw Hold info' Hread.
  rewrite store_explicit_ok by trivial. do 2 eexists. split; [reflexivity|].
  set (target := file_name symbol prefix (strftime now)) in *.
  set (d1 := set_assoc target (stored_file info' now) d).
  assert (Ht : lookup target d1 = Some (stored_file info' now))
    by apply lookup_set_assoc_same.
  unfold read_latest_json_file.
  rewrite (@latest_of_target d1 target (stored_file info' now) now); trivial.
  - cbn [rbind ok]. rewrite Ht. cbn [content stored_file].
    rewrite <- Hread. rewrite json_round_trip; [reflexivity|].
    apply json_dump_native.
  - apply stored_name_listed; trivial. apply in_names_set_assoc.
  - intros f Hf. unfold glob_names in Hf. apply filter_In in Hf as [Hin Hm].
    apply andb_true_iff in Hm as [_ Hm].
    destruct (string_dec f target) as [E|Hne]; [now left | right].
    destruct (lookup_in_names f d1 Hin) as [fl Hfl]. exists fl. split; [trivial|].
    unfold d1 in Hfl. rewrite lookup_set_assoc_other in Hfl by trivial.
    now apply (Hold f fl).
Qed.

(** X9 at a payload with a date written through [str]. *)
Lemma reread_payload_is_stable_witness :
  exists d1 path,
    store_json_info (day 738885) [] reread_info (Some "MSFT") "corporate_info"
    = ok (d1, path)
    /\ read_latest_json_file d1 "MSFT" "corporate_info" = ok (Some (PDict reread_info)).
Proof.
  apply (@reread_payload_is_stable (day 738885) [] dated_info "MSFT" "corporate_info").
  - reflexivity.
  - reflexivity.
  - reflexivity.
  - intros name f H. discriminate H.
  - reflexivity.
Defined.

End store_properties.

(** * The indicators, further properties *)

Section indicator_properties.

Import TechnicalAgent RiskAgent IndicatorSpec TrendSpec.

Open Scope R_scope.

Lemma lastv_field_snoc f bars b : lastv (field f (bars ++ [b])%list) = Fin (f b).
Proof. unfold lastv, field. rewrite map_app. cbn [map]. apply last_last. Qed.

(** X10.  The [price] block of the result holds the close, open, high, low
    and volume of the last bar. *)
Theorem price_is_last_bar (bars : PriceSeries) (b : Bar) :
  exists snap,
    fst (calculate_technical_indicators (to_frame (bars ++ [b])%list)) = ok snap
    /\ price snap
       = {| current := Fin (bar_close b); open := Fin (bar_open b);
            high := Fin (bar_high b); low := Fin (bar_low b);
            volume := Fin (bar_volume b) |}.
Proof.
  assert (Hne : (bars ++ [b])%list <> []) by (destruct bars; discriminate).
  rewrite (run_nonempty Hne). cbv zeta. eexists. split; [reflexivity|].
  cbn [price]. now rewrite !lastv_field_snoc.
Qed.

(** X11.  On a frame without a [Close] column the call fails with
    [KeyError] on its first line, and the frame is left as it was. *)
Theorem missing_close_column (hist : DataFrame) :
  lookup "Close"%string (columns hist) = None ->
  calculate_technical_indicators hist = (raise (KeyError "Close"), hist).
Proof.
  intros H. unfold calculate_technical_indicators, bind, col, getitem.
  now rewrite H.
Qed.

(** X11 at a frame with an [Open] column only. *)
Lemma missing_close_column_witness :
  calculate_technical_indicators
    {| index := [0%Z]; columns := [("Open"%string, [Fin 1])] |}
  = (raise (KeyError "Close"),
     {| index := [0%Z]; columns := [("Open"%string, [Fin 1])] |}).
Proof. apply missing_close_column. reflexivity. Defined.

(** X12.  Calling [calculate_technical_indicators] again on the frame the
    first call left behind changes nothing: same result, same frame. *)
Theorem second_call_changes_nothing (bars : PriceSeries) :
  let first := calculate_technical_indicators (to_frame bars) in
  calculate_technical_indicators (snd first) = first.
Proof. destruct bars; reflexivity. Qed.

(** Flat series *)

Lemma closes_flat bars c :
  Forall (fun b => bar_close b = c) bars -> closes bars = repeat c (length bars).
Proof.
  unfold closes. induction 1 as [|b bars Hb _ IH]; [reflexivity|].
  cbn [map length repeat]. now rewrite Hb, IH.
Qed.

Lemma EMA_const alpha x c t :
  (forall k, (k <= t)%nat -> x k = c) -> EMA alpha x t = c.
Proof.
  induction t as [|t IH]; intros H; cbn [EMA].
  - apply H. lia.
  - rewrite IH by (intros k Hk; apply H; lia). rewrite (H (S t)) by lia. ring.
Qed.

Lemma Rsum_repeat c k : Rsum (repeat c k) = INR k * c.
Proof.
  unfold Rsum. induction k as [|k IH]; [cbn; ring|].
  cbn [repeat fold_right]. rewrite IH, S_INR. ring.
Qed.

Lemma Rmean_repeat c k : (0 < k)%nat -> Rmean (repeat c k) = c.
Proof.
  intros Hk. unfold Rmean. rewrite Rsum_repeat, repeat_length. field.
  apply not_0_INR. lia.
Qed.

Lemma sample_std_repeat c k : (0 < k)%nat -> sample_std (repeat c k) = 0.
Proof.
  intros Hk. unfold sample_std, sample_var. rewrite Rmean_repeat by trivial.
  rewrite map_repeat. replace ((c - c) * (c - c)) with 0 by ring.
  rewrite Rsum_repeat. replace (INR k * 0 / INR (length (repeat c k) - 1)) with 0
    by (unfold Rdiv; ring).
  apply sqrt_0.
Qed.


(** X13.  On a non-empty series with one constant close, MACD and signal
    line are zero; with at least 20 bars [sma_20] and the three Bollinger
    fields equal that close. *)
Theorem flat_series_indicators (bars : PriceSeries) (c : R) :
  bars <> [] ->
  Forall (fun b => bar_close b = c) bars ->
  exists snap,
    fst (calculate_technical_indicators (to_frame bars)) = ok snap
    /\ macd (momentum snap) = Fin 0
    /\ signal_line (momentum snap) = Fin 0
    /\ ((20 <= length bars)%nat ->
        sma_20 (moving_averages snap) = Fin c
        /\ bollinger_upper (volatility snap) = Fin c
        /\ bollinger_middle (volatility snap) = Fin c
        /\ bollinger_lower (volatility snap) = Fin c).
Proof.
  intros Hne Hflat. rewrite (run_nonempty Hne). cbv zeta.
  eexists. split; [reflexivity|].
  cbn [momentum macd signal_line moving_averages sma_20 volatility
       bollinger_upper bollinger_middle bollinger_lower].
  assert (Hcs : closes bars = repeat c (length bars)) by now apply closes_flat.
  assert (Hlen : (0 < length bars)%nat) by (destruct bars; [congruence | cbn; lia]).
  assert (Hx : forall k, (k <= length bars - 1)%nat -> nth k (closes bars) 0 = c).
  { intros k Hk. rewrite Hcs. apply nth_repeat_lt. lia. }
  assert (Hm : forall (a b : R) (k : nat), (k <= length bars - 1)%nat ->
             EMA a (fun i => nth i (closes bars) 0) k
             - EMA b (fun i => nth i (closes bars) 0) k = 0).
  { intros a b k Hk.
    rewrite !(@EMA_const _ _ c) by (intros j Hj; apply Hx; lia). ring. }
  split; [|split].
  - rewrite field_fin. fold (closes bars).
    rewrite macd_last by now apply closes_nonempty.
    rewrite closes_length. now rewrite Hm by lia.
  - rewrite field_fin. fold (closes bars).
    rewrite signal_last by now apply closes_nonempty.
    rewrite closes_length. f_equal. apply EMA_const. intros k Hk. now apply Hm.
  - intros Hn. rewrite !last_sma, !last_band by (trivial || lia).
    rewrite trailing_mean_fin, trailing_std_fin by (rewrite closes_length; lia).
    rewrite Hcs, lastn_repeat by lia.
    rewrite Rmean_repeat, sample_std_repeat by lia.
    repeat split; cbn [fmul fadd fsub fneg]; f_equal; lra.
Qed.

(** X13 at three bars closing at 100. *)
Lemma flat_series_indicators_witness :
  exists snap,
    fst (calculate_technical_indicators (to_frame flat3)) = ok snap
    /\ macd (momentum snap) = Fin 0
    /\ signal_line (momentum snap) = Fin 0
    /\ ((20 <= length flat3)%nat ->
        sma_20 (moving_averages snap) = Fin 100
        /\ bollinger_upper (volatility snap) = Fin 100
        /\ bollinger_middle (volatility snap) = Fin 100
        /\ bollinger_lower (volatility snap) = Fin 100).
Proof.
  apply (@flat_series_indicators flat3 100).
  - discriminate.
  - repeat constructor.
Defined.

(** X14.  With at least 20 bars the Bollinger bands are symmetric around
    [bollinger_middle], which is [sma_20]: upper and lower are the middle
    plus and minus twice a non-negative spread. *)
Theorem bollinger_bands_enclose (bars : PriceSeries) :
  (20 <= length bars)%nat ->
  exists snap m s,
    fst (calculate_technical_indicators (to_frame bars)) = ok snap
    /\ 0 <= s
    /\ sma_20 (moving_averages snap) = Fin m
    /\ bollinger_middle (volatility snap) = Fin m
    /\ bollinger_upper (volatility snap) = Fin (m + 2 * s)
    /\ bollinger_lower (volatility snap) = Fin (m - 2 * s).
Proof.
  intros Hn.
  assert (Hne : bars <> []) by (destruct bars; [cbn in Hn; lia | discriminate]).
  rewrite (run_nonempty Hne). cbv zeta.
  eexists. exists (Rmean (lastn 20 (closes bars))), (sample_std (lastn 20 (closes bars))).
  split; [reflexivity|].
  cbn [moving_averages sma_20 volatility bollinger_upper bollinger_middle bollinger_lower].
  rewrite !last_sma, !last_band by (trivial || lia).
  rewrite trailing_mean_fin, trailing_std_fin by (rewrite closes_length; lia).
  split; [apply sqrt_pos|].
  repeat split; cbn [fmul fadd fsub fneg]; f_equal; lra.
Qed.

(** X14 at 200 bars closing at 100. *)
Lemma bollinger_bands_enclose_witness :
  exists snap m s,
    fst (calculate_technical_indicators (to_frame flat200)) = ok snap
    /\ 0 <= s
    /\ sma_20 (moving_averages snap) = Fin m
    /\ bollinger_middle (volatility snap) = Fin m
    /\ bollinger_upper (volatility snap) = Fin (m + 2 * s)
    /\ bollinger_lower (volatility snap) = Fin (m - 2 * s).
Proof.
  apply (@bollinger_bands_enclose flat200).
  unfold flat200. rewrite mk_bars_length, repeat_length. lia.
Defined.

(** RSI warm-up *)

Lemma rsi_formula_nan : rsi_formula NaN NaN = NaN.
Proof. reflexivity. Qed.

Lemma rsi_last_short cs :
  cs <> [] -> (length cs < 14)%nat -> lastv (rsi_series (map Fin cs)) = NaN.
Proof.
  intros Hne Hn. destruct cs as [|c l]; [congruence|].
  unfold rsi_series, rsi_of_rs, lastv.
  assert (Hlen : length (deltas (c :: l)) = length l)
    by (rewrite deltas_length; cbn [length]; lia).
  cbn [length] in Hn.
  rewrite (@last_map_nonempty _ _ _ _ NaN NaN).
  2:{ intros E. apply (f_equal (@length float)) in E.
      rewrite zip_with_length in E by (rewrite !rolling_mean_length, gains_fin, losses_fin, !length_map; cbn [length]; now rewrite !length_map).
      rewrite rolling_mean_length, gains_fin, length_map in E. cbn in E. lia. }
  rewrite (@last_zip_with _ _ _ fdiv _ _ NaN NaN NaN).
  2:{ rewrite !rolling_mean_length, gains_fin, losses_fin, !length_map; cbn [length]; now rewrite !length_map. }
  2:{ intros E. apply (f_equal (@length float)) in E.
      rewrite rolling_mean_length, gains_fin, length_map in E. cbn in E. lia. }
  rewrite gains_fin, losses_fin.
  fold (lastv (rolling_mean 14 (map Fin (0 :: map gain_of (deltas (c :: l)))))).
  fold (lastv (rolling_mean 14 (map Fin (0 :: map loss_of (deltas (c :: l)))))).
  rewrite !last_rolling_mean by (discriminate || lia).
  cbn [length]. rewrite !length_map, Hlen.
  destruct (Nat.ltb_spec (S (length l)) 14); [reflexivity | lia].
Qed.

(** X16.  On a non-empty series of fewer than 14 bars the RSI is
    missing. *)
Theorem rsi_missing_below_14_bars (bars : PriceSeries) :
  bars <> [] -> (length bars < 14)%nat ->
  exists snap,
    fst (calculate_technical_indicators (to_frame bars)) = ok snap
    /\ rsi (momentum snap) = NaN.
Proof.
  intros Hne Hn. rewrite (run_nonempty Hne). cbv zeta. eexists. split; [reflexivity|].
  cbn [momentum rsi]. rewrite field_fin. fold (closes bars).
  fold (rsi_series (map Fin (closes bars))).
  apply rsi_last_short; [now apply closes_nonempty | now rewrite closes_length].
Qed.

(** X16 at three bars. *)
Lemma rsi_missing_below_14_bars_witness :
  exists snap,
    fst (calculate_technical_indicators (to_frame flat3)) = ok snap
    /\ rsi (momentum snap) = NaN.
Proof.
  apply (@rsi_missing_below_14_bars flat3).
  - discriminate.
  - cbn. lia.
Defined.

(** Deltas by position *)

Lemma deltas_nth cs i :
  (S i < length cs)%nat -> nth i (deltas cs) 0 = nth (S i) cs 0 - nth i cs 0.
Proof.
  revert i. induction cs as [|a [|b t] IH]; intros i Hi; cbn [length] in Hi; try lia.
  change (deltas (a :: b :: t)) with ((b - a) :: deltas (b :: t)).
  destruct i as [|i]; [reflexivity|].
  cbn [nth]. rewrite IH by (cbn [length]; lia). reflexivity.
Qed.

End indicator_properties.

(** * The risk metrics, further properties *)

Section risk_properties.

Import TechnicalAgent RiskAgent IndicatorSpec TrendSpec RiskSpec.

Open Scope R_scope.

(** Drawdown as the worst drop *)

Lemma fold_min_least l x :
  exists m, fold_left (fun m y => if fltb y m then y else m) (map Fin l) (Fin x) = Fin m
            /\ In m (x :: l) /\ Forall (fun y => m <= y) (x :: l).
Proof.
  revert x. induction l as [|y l IH]; intros x; cbn [map fold_left].
  - exists x. split; [reflexivity|]. split; [now left|]. constructor; [lra | constructor].
  - cbn [fltb]. unfold Rltb. destruct (Rlt_dec y x) as [Hlt|Hge].
    + destruct (IH y) as [m [E [Hin Hall]]]. exists m. split; [trivial|].
      split; [now right|]. inversion Hall; subst. constructor; [lra | now constructor].
    + destruct (IH x) as [m [E [Hin Hall]]]. exists m. split; [trivial|].
      split; [destruct Hin as [<-|Hin]; [now left | now right; right]|].
      inversion Hall; subst. constructor; [trivial|]. constructor; [lra | trivial].
Qed.

Lemma series_min_least l :
  l <> [] ->
  exists m, series_min (map Fin l) = Fin m /\ In m l /\ Forall (fun y => m <= y) l.
Proof.
  intros H. destruct l as [|x l]; [congruence|].
  unfold series_min. rewrite dropna_fin. cbn [map]. apply fold_min_least.
Qed.

Lemma drawdowns_from_length p l : length (drawdowns_from p l) = length l.
Proof. revert p. induction l as [|x l IH]; intros p; cbn; [reflexivity | now rewrite IH]. Qed.

Lemma drawdowns_as_from x t : drawdowns (x :: t) = drawdowns_from x (x :: t).
Proof. cbn [drawdowns drawdowns_from]. destruct (Rlt_dec x x); [lra | reflexivity]. Qed.

Lemma drawdowns_length l : length (drawdowns l) = length l.
Proof. destruct l as [|x t]; [reflexivity|]. cbn. now rewrite drawdowns_from_length. Qed.

Lemma drawdowns_from_nth p t : forall j,
  (j < length t)%nat ->
  exists q, nth j (drawdowns_from p t) 0 = (nth j t 0 - q) / q
            /\ (q = p \/ exists i, (i <= j)%nat /\ q = nth i t 0)
            /\ p <= q
            /\ forall k, (k <= j)%nat -> nth k t 0 <= q.
Proof.
  revert p. induction t as [|x t IH]; intros p j Hj; [cbn in Hj; lia|].
  cbn [drawdowns_from]. set (p' := if Rlt_dec p x then x else p).
  assert (Hp : p <= p' /\ x <= p' /\ (p' = p \/ p' = x))
    by (unfold p'; destruct (Rlt_dec p x); lra).
  destruct j as [|j].
  - exists p'. cbn [nth]. split; [reflexivity|]. split.
    + destruct Hp as [_ [_ [->| ->]]]; [now left | right; exists 0%nat; split; [lia | reflexivity]].
    + split; [tauto|]. intros k Hk. replace k with 0%nat by lia. cbn. tauto.
  - cbn [length] in Hj. destruct (IH p' j ltac:(lia)) as [q [E [Hq [Hle Hall]]]].
    exists q. cbn [nth]. split; [exact E|]. split.
    + destruct Hq as [->|[i [Hi ->]]].
      * destruct Hp as [_ [_ [->| ->]]]; [now left | right; exists 0%nat; split; [lia | reflexivity]].
      * right. exists (S i). split; [lia | reflexivity].
    + split; [lra|]. intros [|k] Hk; cbn [nth]; [lra | apply Hall; lia].
Qed.

Lemma drawdowns_nth l j :
  (j < length l)%nat ->
  exists i, (i <= j)%nat /\ nth j (drawdowns l) 0 = change_between l i j
            /\ forall k, (k <= j)%nat -> nth k l 0 <= nth i l 0.
Proof.
  intros Hj. destruct l as [|x t]; [cbn in Hj; lia|].
  rewrite drawdowns_as_from.
  destruct (@drawdowns_from_nth x (x :: t) j Hj) as [q [E [Hq [Hle Hall]]]].
  destruct Hq as [->|[i [Hi ->]]].
  - exists 0%nat. split; [lia|]. split; [exact E | exact Hall].
  - exists i. split; [trivial|]. split; [exact E | exact Hall].
Qed.

Lemma change_from_peak l i k j :
  Forall (fun x => 0 < x) l -> (j < length l)%nat -> (i < length l)%nat ->
  (k < length l)%nat ->
  nth k l 0 <= nth i l 0 ->
  change_between l i j <= change_between l k j.
Proof.
  intros Hl Hj Hi Hk Hle. unfold change_between.
  rewrite Forall_forall in Hl.
  assert (Hxj : 0 < nth j l 0) by (apply Hl, nth_In, Hj).
  assert (Hxi : 0 < nth i l 0) by (apply Hl, nth_In, Hi).
  assert (Hxk : 0 < nth k l 0) by (apply Hl, nth_In, Hk).
  set (a := nth j l 0) in *. set (b := nth i l 0) in *. set (c := nth k l 0) in *.
  replace ((a - b) / b) with (a * / b - 1) by (field; lra).
  replace ((a - c) / c) with (a * / c - 1) by (field; lra).
  assert (/ b <= / c) by (apply Rinv_le_contravar; lra).
  assert (a * / b <= a * / c) by (apply Rmult_le_compat_l; lra).
  lra.
Qed.

Lemma max_drawdown_worst_drop l :
  l <> [] -> Forall (fun x => 0 < x) l ->
  exists d,
    calculate_max_drawdown (map Fin l) = Fin d
    /\ (exists i j, (i <= j < length l)%nat /\ d = change_between l i j)
    /\ (forall i j, (i <= j < length l)%nat -> d <= change_between l i j).
Proof.
  intros Hne Hl. unfold calculate_max_drawdown.
  fold (drawdown_series (map Fin l) (expanding_max (map Fin l))).
  rewrite drawdown_fin by trivial.
  destruct (@series_min_least (drawdowns l)) as [d [E [Hin Hall]]].
  { intros E. apply (f_equal (@length R)) in E. rewrite drawdowns_length in E.
    destruct l; [congruence | discriminate]. }
  exists d. split; [exact E|]. split.
  - destruct (In_nth _ _ 0 Hin) as [j [Hj Ej]]. rewrite drawdowns_length in Hj.
    destruct (@drawdowns_nth l j Hj) as [i [Hi [Ei _]]].
    exists i, j. split; [lia | congruence].
  - intros i j [Hi Hj].
    destruct (@drawdowns_nth l j Hj) as [i' [Hi' [Ei' Hpeak]]].
    rewrite Forall_forall in Hall.
    assert (Hd : d <= nth j (drawdowns l) 0)
      by (apply Hall, nth_In; now rewrite drawdowns_length).
    rewrite Ei' in Hd.
    assert (change_between l i' j <= change_between l i j).
    { apply change_from_peak; trivial; try lia. apply Hpeak. lia. }
    lra.
Qed.

(** X18.  On positive prices [calculate_max_drawdown] is the worst relative
    change from a bar to the same or a later bar: it is attained by a pair
    of bars and no pair gives a smaller change. *)
Theorem max_drawdown_is_worst_drop (l : list R) :
  l <> [] -> Forall (fun x => 0 < x) l ->
  exists d,
    calculate_max_drawdown (map Fin l) = Fin d
    /\ (exists i j, (i <= j < length l)%nat /\ d = change_between l i j)
    /\ (forall i j, (i <= j < length l)%nat -> d <= change_between l i j).
Proof. apply max_drawdown_worst_drop. Qed.

(** X18 at the closes 100, 120, 80, 90. *)
Lemma max_drawdown_is_worst_drop_witness :
  exists d,
    calculate_max_drawdown (map Fin [100; 120; 80; 90]) = Fin d
    /\ (exists i j, (i <= j < length [100; 120; 80; 90])%nat
                    /\ d = change_between [100; 120; 80; 90] i j)
    /\ (forall i j, (i <= j < length [100; 120; 80; 90])%nat
                    -> d <= change_between [100; 120; 80; 90] i j).
Proof.
  apply (@max_drawdown_is_worst_drop [100; 120; 80; 90]).
  - discriminate.
  - repeat constructor; lra.
Defined.

Lemma never_falls_ordered l :
  never_falls l -> forall i j, (i <= j < length l)%nat -> nth i l 0 <= nth j l 0.
Proof.
  unfold never_falls. intros H i j [Hij Hj].
  induction j as [|j IH].
  - replace i with 0%nat by lia. lra.
  - destruct (Nat.eq_dec i (S j)) as [->|Hne]; [lra|].
    assert (nth i l 0 <= nth j l 0) by (apply IH; lia).
    rewrite Forall_forall in H.
    assert (0 <= nth j (deltas l) 0)
      by (apply H, nth_In; rewrite deltas_length; lia).
    rewrite deltas_nth in * by lia. lra.
Qed.

Lemma ordered_never_falls l :
  (forall j, (S j < length l)%nat -> nth j l 0 <= nth (S j) l 0) -> never_falls l.
Proof.
  unfold never_falls. induction l as [|a [|b t] IH]; intros H; try constructor.
  - specialize (H 0%nat). cbn in H. assert (a <= b) by (apply H; lia). lra.
  - apply IH. intros j Hj. apply (H (S j)). cbn [length] in *. lia.
Qed.

(** X19.  On positive prices the maximum drawdown is zero exactly when the
    price never falls from one bar to the next. *)
Theorem no_drawdown_iff_never_falls (l : list R) :
  l <> [] -> Forall (fun x => 0 < x) l ->
  (calculate_max_drawdown (map Fin l) = Fin 0 <-> never_falls l).
Proof.
  intros Hne Hl.
  destruct (@max_drawdown_worst_drop l Hne Hl) as [d [E [[i [j [Hij Ed]]] Hleast]]].
  rewrite E. rewrite Forall_forall in Hl.
  assert (Hpos : forall k, (k < length l)%nat -> 0 < nth k l 0)
    by (intros k Hk; apply Hl, nth_In, Hk).
  split.
  - intros Hd. injection Hd as Hd. apply ordered_never_falls.
    intros k Hk. specialize (Hleast k (S k) ltac:(lia)).
    rewrite Hd in Hleast. unfold change_between in Hleast.
    specialize (Hpos k ltac:(lia)).
    set (a := nth k l 0) in *. set (b := nth (S k) l 0) in *.
    destruct (Rle_dec a b) as [|Hn]; [trivial|].
    assert (/ a > 0) by (apply Rinv_0_lt_compat; lra).
    assert ((b - a) * / a < 0) by (apply Rmult_neg_pos; lra).
    unfold Rdiv in Hleast. lra.
  - intros Hnf. f_equal.
    pose proof (@never_falls_ordered l Hnf i j Hij) as Hord.
    assert (Hnn : forall k, (k < length l)%nat -> change_between l k k = 0).
    { intros k Hk. unfold change_between. specialize (Hpos k Hk). field. lra. }
    assert (Hd0 : d <= 0).
    { destruct l as [|x t]; [congruence|].
      rewrite <- (Hnn 0%nat) by (cbn; lia). apply Hleast. cbn [length]. lia. }
    assert (0 <= d).
    { rewrite Ed. unfold change_between.
      specialize (Hpos i ltac:(lia)).
      apply Rmult_le_pos; [lra | apply Rlt_le, Rinv_0_lt_compat, Hpos]. }
    lra.
Qed.

(** X19 at the closes 100, 101, 103. *)
Lemma no_drawdown_iff_never_falls_witness :
  calculate_max_drawdown (map Fin [100; 101; 103]) = Fin 0
  <-> never_falls [100; 101; 103].
Proof.
  apply (@no_drawdown_iff_never_falls [100; 101; 103]).
  - discriminate.
  - repeat constructor; lra.
Defined.

(** Returns, their spread and the value at risk *)

Lemma ffill_from_fin p l : ffill_from p (map Fin l) = map Fin l.
Proof. revert p. induction l as [|x l IH]; intros p; cbn; [reflexivity | now rewrite IH]. Qed.

Lemma ratios_fin x t :
  Forall (fun c => c <> 0) (x :: t) ->
  map (fun q => (q - Fin 1)%float)
      (zip_with fdiv (map Fin t) (removelast (map Fin (x :: t)))) =
  map Fin (returns_from x t).
Proof.
  revert x. induction t as [|y t IH]; intros x H; [reflexivity|].
  inversion H as [|? ? Hx Ht]; subst.
  change (zip_with fdiv (map Fin (y :: t)) (removelast (map Fin (x :: y :: t))))
    with ((Fin y / Fin x)%float
          :: zip_with fdiv (map Fin t) (removelast (map Fin (y :: t)))).
  change (returns_from x (y :: t)) with ((y / x - 1) :: returns_from y t).
  rewrite map_cons, IH by trivial. rewrite fdiv_fin by trivial. reflexivity.
Qed.

Lemma pct_change_fin l :
  Forall (fun c => c <> 0) l ->
  dropna (pct_change (map Fin l)) = map Fin (simple_returns l).
Proof.
  intros H. unfold pct_change, ffill. rewrite ffill_from_fin.
  destruct l as [|x t]; [reflexivity|].
  unfold shift. change (map Fin (x :: t)) with (Fin x :: map Fin t) at 1 2.
  cbv iota beta.
  change (zip_with fdiv (Fin x :: map Fin t) (NaN :: removelast (map Fin (x :: t))))
    with ((Fin x / NaN)%float
          :: zip_with fdiv (map Fin t) (removelast (map Fin (x :: t)))).
  rewrite map_cons, ratios_fin by trivial.
  cbn [fdiv fsub fadd fneg simple_returns]. unfold dropna.
  cbn [filter notna isnan negb]. apply dropna_fin.
Qed.

Lemma returns_from_length p l : length (returns_from p l) = length l.
Proof. revert p. induction l as [|x l IH]; intros p; cbn; [reflexivity | now rewrite IH]. Qed.

Lemma simple_returns_length l : length (simple_returns l) = (length l - 1)%nat.
Proof. destruct l as [|x t]; [reflexivity|]. cbn. rewrite returns_from_length. lia. Qed.

Lemma fleb_fin x y : fleb (Fin x) (Fin y) = if Rle_dec x y then true else false.
Proof.
  unfold fleb, fltb, feqb, Rltb, Reqb.
  destruct (Rlt_dec x y), (Req_dec_T x y), (Rle_dec x y); cbn; trivial; lra.
Qed.

Lemma insert_sorted_fin x s :
  Numpy.insert_sorted (Fin x) (map Fin s) = map Fin (Rinsert x s).
Proof.
  induction s as [|y t IH]; [reflexivity|].
  cbn [map Numpy.insert_sorted Rinsert]. rewrite fleb_fin.
  destruct (Rle_dec x y); [reflexivity|]. cbn [map]. now rewrite IH.
Qed.

Lemma sort_fin l : Numpy.sort (map Fin l) = map Fin (Rsort l).
Proof.
  unfold Numpy.sort, Rsort. induction l as [|x l IH]; [reflexivity|].
  cbn [map fold_right]. rewrite IH. apply insert_sorted_fin.
Qed.

Lemma Rinsert_perm x s : Permutation (x :: s) (Rinsert x s).
Proof.
  induction s as [|y t IH]; cbn [Rinsert]; [apply Permutation_refl|].
  destruct (Rle_dec x y); [apply Permutation_refl|].
  eapply perm_trans; [apply perm_swap | apply perm_skip, IH].
Qed.

Lemma Rsort_perm l : Permutation l (Rsort l).
Proof.
  unfold Rsort. induction l as [|x l IH]; [apply perm_nil|].
  cbn [fold_right]. eapply perm_trans; [apply perm_skip, IH | apply Rinsert_perm].
Qed.

Lemma Rinsert_sorted x s : StronglySorted Rle s -> StronglySorted Rle (Rinsert x s).
Proof.
  induction 1 as [|y t Hs IH Hy]; cbn [Rinsert].
  - constructor; constructor.
  - destruct (Rle_dec x y) as [Hle|Hgt].
    + constructor; [now constructor|]. constructor; [trivial|].
      eapply Forall_impl; [|exact Hy]. cbn. intros a Ha. lra.
    + constructor; [trivial|].
      apply (Permutation_Forall (Rinsert_perm x t)). constructor; [lra | trivial].
Qed.

Lemma Rsort_sorted l : StronglySorted Rle (Rsort l).
Proof.
  unfold Rsort. induction l as [|x l IH]; [constructor|].
  cbn [fold_right]. now apply Rinsert_sorted.
Qed.

Lemma sorted_nth s : StronglySorted Rle s ->
  forall i j, (i <= j < length s)%nat -> nth i s 0 <= nth j s 0.
Proof.
  induction 1 as [|y t Hs IH Hy]; intros i j [Hij Hj]; [cbn in Hj; lia|].
  destruct j as [|j].
  - replace i with 0%nat by lia. lra.
  - cbn [length] in Hj. destruct i as [|i]; cbn [nth].
    + rewrite Forall_forall in Hy. apply Hy, nth_In. lia.
    + apply IH. lia.
Qed.

Lemma nth_map_fin s i : (i < length s)%nat -> nth i (map Fin s) NaN = Fin (nth i s 0).
Proof. intros H. rewrite (nth_indep _ NaN (Fin 0)) by now rewrite length_map. apply map_nth. Qed.

Lemma existsb_isnan_fin l : existsb isnan (map Fin l) = false.
Proof. induction l as [|x l IH]; [reflexivity | exact IH]. Qed.

Lemma lerp_fin a b t : Numpy.lerp (Fin a) (Fin b) t = Fin (a + (b - a) * t).
Proof. unfold Numpy.lerp. destruct (Rltb t (1 / 2)); cbn; f_equal; ring. Qed.

Lemma Rsort_length l : length (Rsort l) = length l.
Proof. symmetry. apply Permutation_length, Rsort_perm. Qed.

Lemma floor_fraction num :
  (0 <= num)%Z ->
  0 <= IZR num / 100 - IZR (num / 100) < 1
  /\ IZR num / 100 - IZR (num / 100) = IZR (num mod 100) / 100.
Proof.
  intros H. pose proof (Z.mod_pos_bound num 100 ltac:(lia)) as [H0 H1].
  pose proof (Z.div_mod num 100 ltac:(lia)) as E.
  assert (ER : IZR num = 100 * IZR (num / 100) + IZR (num mod 100)).
  { rewrite E at 1. rewrite plus_IZR, mult_IZR. reflexivity. }
  apply IZR_le in H0. apply IZR_lt in H1.
  split; [|rewrite ER; field]. rewrite ER. lra.
Qed.

Lemma percentile_fin l q :
  l <> [] -> (0 <= q < 100)%Z ->
  Numpy.percentile (map Fin l) q = ok (Fin (quantile (Rsort l) q)).
Proof.
  intros Hne Hq. unfold Numpy.percentile.
  destruct (Z.ltb_spec q 0); [lia|]. destruct (Z.ltb_spec 100 q); [lia|].
  cbn [orb]. destruct l as [|x t]; [congruence|].
  change (map Fin (x :: t)) with (Fin x :: map Fin t) at 1. cbv iota beta.
  rewrite existsb_isnan_fin, sort_fin, length_map. cbv zeta.
  unfold quantile. rewrite Rsort_length.
  set (s := Rsort (x :: t)).
  assert (Hs : length s = length (x :: t)) by apply Rsort_length.
  set (n := Z.of_nat (length (x :: t))) in *.
  assert (Hn : (1 <= n)%Z) by (unfold n; cbn [length]; lia).
  set (num := ((n - 1) * q)%Z).
  assert (Hnum : (0 <= num)%Z) by (unfold num; nia).
  destruct (Z.ltb_spec num 0); [lia|].
  destruct (Z.leb_spec (100 * (n - 1)) num) as [Habove|Hbelow].
  - assert (n = 1)%Z by (unfold num in *; nia).
    assert (E0 : num = 0%Z) by (unfold num; subst n; nia).
    rewrite E0. change (0 / 100)%Z with 0%Z.
    destruct (Z.ltb_spec (-1) 0); [|lia].
    replace (Z.to_nat (n + -1)) with 0%nat by lia.
    rewrite nth_map_fin by lia. rewrite lerp_fin.
    change (Z.to_nat 0) with 0%nat.
    apply (f_equal (fun r : R => ok (Fin r))). unfold Rdiv. ring.
  - assert (Hi : (0 <= num / 100 < n - 1)%Z).
    { split; [apply Z.div_pos; lia | apply Z.div_lt_upper_bound; lia]. }
    destruct (Z.ltb_spec (num / 100) 0); [lia|].
    destruct (Z.ltb_spec (num / 100 + 1) 0); [lia|].
    replace (Z.to_nat (num / 100 + 1)) with (S (Z.to_nat (num / 100))) by lia.
    rewrite !nth_map_fin by (unfold n in *; lia).
    rewrite lerp_fin. reflexivity.
Qed.

Lemma quantile_between s q :
  StronglySorted Rle s -> s <> [] -> (0 <= q < 100)%Z ->
  nth 0 s 0 <= quantile s q <= nth (length s - 1) s 0.
Proof.
  intros Hs Hne Hq. unfold quantile.
  set (n := Z.of_nat (length s)).
  assert (Hn : (1 <= n)%Z) by (unfold n; destruct s; [congruence | cbn [length]; lia]).
  set (num := ((n - 1) * q)%Z).
  assert (Hnum : (0 <= num)%Z) by (unfold num; nia).
  destruct (floor_fraction Hnum) as [[Hg0 Hg1] _].
  set (g := IZR num / 100 - IZR (num / 100)) in *.
  set (i := Z.to_nat (num / 100)).
  destruct (Z.eq_dec n 1) as [E1|E1].
  - assert (E0 : num = 0%Z) by (unfold num; rewrite E1; lia).
    assert (Ei : i = 0%nat) by (unfold i; rewrite E0; reflexivity).
    assert (Eg : g = 0) by (unfold g; rewrite E0; cbn; lra).
    rewrite Ei, Eg. replace (length s - 1)%nat with 0%nat by (unfold n in E1; lia). lra.
  - assert (Hi : (0 <= num / 100 < n - 1)%Z).
    { split; [apply Z.div_pos; lia | apply Z.div_lt_upper_bound; unfold num; nia]. }
    assert (Hil : (S i < length s)%nat) by (unfold i, n in *; lia).
    pose proof (sorted_nth Hs (i := 0) (j := i) ltac:(lia)).
    pose proof (sorted_nth Hs (i := i) (j := S i) ltac:(lia)).
    pose proof (sorted_nth Hs (i := S i) (j := (length s - 1)%nat) ltac:(lia)).
    nra.
Qed.

Lemma quantile_mono s q1 q2 :
  StronglySorted Rle s -> s <> [] -> (0 <= q1 <= q2)%Z -> (q2 < 100)%Z ->
  quantile s q1 <= quantile s q2.
Proof.
  intros Hs Hne Hq Hq2. unfold quantile.
  set (n := Z.of_nat (length s)).
  assert (Hn : (1 <= n)%Z) by (unfold n; destruct s; [congruence | cbn [length]; lia]).
  set (num1 := ((n - 1) * q1)%Z). set (num2 := ((n - 1) * q2)%Z).
  assert (Hnum1 : (0 <= num1)%Z) by (unfold num1; nia).
  assert (Hnum2 : (0 <= num2)%Z) by (unfold num2; nia).
  assert (Hnum : (num1 <= num2)%Z) by (unfold num1, num2; nia).
  destruct (floor_fraction Hnum1) as [[Hg10 Hg11] _].
  destruct (floor_fraction Hnum2) as [[Hg20 Hg21] _].
  destruct (Z.eq_dec n 1) as [E1|E1].
  - assert (E01 : num1 = 0%Z) by (unfold num1; rewrite E1; lia).
    assert (E02 : num2 = 0%Z) by (unfold num2; rewrite E1; lia).
    rewrite E01, E02. lra.
  - assert (Hi2 : (0 <= num2 / 100 < n - 1)%Z).
    { split; [apply Z.div_pos; lia | apply Z.div_lt_upper_bound; unfold num2; nia]. }
    assert (Hi1 : (0 <= num1 / 100 <= num2 / 100)%Z).
    { split; [apply Z.div_pos; lia | apply Z.div_le_mono; lia]. }
    set (i1 := Z.to_nat (num1 / 100)) in *. set (i2 := Z.to_nat (num2 / 100)) in *.
    assert (Hil : (S i2 < length s)%nat) by (unfold i2, n in *; lia).
    assert (H12 : (i1 <= i2)%nat) by (unfold i1, i2; lia).
    pose proof (sorted_nth Hs (i := i1) (j := S i1) ltac:(lia)) as Ha.
    pose proof (sorted_nth Hs (i := i2) (j := S i2) ltac:(lia)) as Hb.
    destruct (Nat.eq_dec i1 i2) as [Ei|Ei].
    + assert (Ez : (num1 / 100 = num2 / 100)%Z) by (unfold i1, i2 in Ei; lia).
      rewrite Ei in *. rewrite Ez in *.
      assert (IZR num1 <= IZR num2) by now apply IZR_le.
      apply Rplus_le_compat_l. apply Rmult_le_compat_l; lra.
    + pose proof (sorted_nth Hs (i := S i1) (j := i2) ltac:(lia)) as Hc.
      set (g1 := IZR num1 / 100 - IZR (num1 / 100)) in *.
      set (g2 := IZR num2 / 100 - IZR (num2 / 100)) in *.
      nra.
Qed.

Lemma risk_run bars :
  (2 <= length bars)%nat ->
  Forall (fun b => bar_close b <> 0) bars ->
  let rets := simple_returns (closes bars) in
  let daily := series_std (map Fin rets) in
  calculate_volatility_metrics (to_frame bars) =
  ok {| daily_volatility := daily;
        annualized_volatility := (daily * fsqrt (Fin 252))%float;
        var_95 := Fin (quantile (Rsort rets) 5);
        var_99 := Fin (quantile (Rsort rets) 1);
        max_drawdown := calculate_max_drawdown (field bar_close bars) |}.
Proof.
  intros Hn Hnz. cbv zeta. unfold calculate_volatility_metrics.
  change (getitem (columns (to_frame bars)) "Close") with (ok (field bar_close bars)).
  cbn [rbind ok]. rewrite field_fin. fold (closes bars).
  assert (Hc : Forall (fun c => c <> 0) (closes bars)).
  { unfold closes. apply Forall_forall. intros c Hin.
    apply in_map_iff in Hin as [b [<- Hb]]. rewrite Forall_forall in Hnz. now apply Hnz. }
  rewrite pct_change_fin by trivial.
  assert (Hr : simple_returns (closes bars) <> []).
  { intros E. apply (f_equal (@length R)) in E.
    rewrite simple_returns_length, closes_length in E. cbn in E. lia. }
  rewrite !percentile_fin by (trivial || lia). reflexivity.
Qed.

(** X20.  With at least three bars and no zero close, the daily volatility
    is the sample standard deviation of the simple returns and the
    annualized volatility is that times the square root of 252. *)
Theorem volatility_is_std_of_returns (bars : PriceSeries) :
  (3 <= length bars)%nat ->
  Forall (fun b => bar_close b <> 0) bars ->
  exists snap,
    calculate_volatility_metrics (to_frame bars) = ok snap
    /\ daily_volatility snap = Fin (sample_std (simple_returns (closes bars)))
    /\ annualized_volatility snap =
       Fin (sample_std (simple_returns (closes bars)) * sqrt 252).
Proof.
  intros Hn Hnz. rewrite risk_run by (trivial || lia). cbv zeta.
  eexists. split; [reflexivity|]. cbn [daily_volatility annualized_volatility].
  unfold series_std. rewrite dropna_fin.
  rewrite std_fin by (rewrite simple_returns_length, closes_length; lia).
  split; [reflexivity|].
  rewrite fsqrt_nonneg by lra. reflexivity.
Qed.

(** X20 at the closes 100, 101, 103. *)
Lemma volatility_is_std_of_returns_witness :
  exists snap,
    calculate_volatility_metrics (to_frame rising3) = ok snap
    /\ daily_volatility snap = Fin (sample_std (simple_returns (closes rising3)))
    /\ annualized_volatility snap =
       Fin (sample_std (simple_returns (closes rising3)) * sqrt 252).
Proof.
  apply (@volatility_is_std_of_returns rising3).
  - cbn. lia.
  - repeat constructor; cbn; lra.
Defined.

(** X21.  With at least two bars and no zero close the call succeeds, and
    [var_99 <= var_95], both between the smallest and the greatest
    return. *)
Theorem value_at_risk_ordered (bars : PriceSeries) :
  (2 <= length bars)%nat ->
  Forall (fun b => bar_close b <> 0) bars ->
  exists snap v95 v99 worst best,
    calculate_volatility_metrics (to_frame bars) = ok snap
    /\ var_95 snap = Fin v95 /\ var_99 snap = Fin v99
    /\ In worst (simple_returns (closes bars))
    /\ In best (simple_returns (closes bars))
    /\ worst <= v99 /\ v99 <= v95 /\ v95 <= best.
Proof.
  intros Hn Hnz. rewrite risk_run by trivial. cbv zeta.
  set (rets := simple_returns (closes bars)).
  assert (Hr : Rsort rets <> []).
  { intros E. apply (f_equal (@length R)) in E.
    unfold rets in E. rewrite Rsort_length, simple_returns_length, closes_length in E.
    cbn in E. lia. }
  pose proof (Rsort_sorted rets) as Hs.
  assert (Hlen : (0 < length (Rsort rets))%nat)
    by (destruct (Rsort rets); [congruence | cbn; lia]).
  eexists. exists (quantile (Rsort rets) 5), (quantile (Rsort rets) 1),
    (nth 0 (Rsort rets) 0), (nth (length (Rsort rets) - 1) (Rsort rets) 0).
  split; [reflexivity|]. cbn [var_95 var_99].
  split; [reflexivity|]. split; [reflexivity|].
  split. { apply (Permutation_in _ (Permutation_sym (Rsort_perm rets))), nth_In. lia. }
  split. { apply (Permutation_in _ (Permutation_sym (Rsort_perm rets))), nth_In. lia. }
  split; [apply quantile_between; trivial; lia|].
  split; [apply quantile_mono; trivial; lia|].
  apply quantile_between; trivial; lia.
Qed.

(** X21 at the closes 100, 101, 103. *)
Lemma value_at_risk_ordered_witness :
  exists snap v95 v99 worst best,
    calculate_volatility_metrics (to_frame rising3) = ok snap
    /\ var_95 snap = Fin v95 /\ var_99 snap = Fin v99
    /\ In worst (simple_returns (closes rising3))
    /\ In best (simple_returns (closes rising3))
    /\ worst <= v99 /\ v99 <= v95 /\ v95 <= best.
Proof.
  apply (@value_at_risk_ordered rising3).
  - cbn. lia.
  - repeat constructor; cbn; lra.
Defined.

End risk_properties.

(** * The sentiment scores *)

Section sentiment_properties.

Import IndicatorSpec SentimentAgent SentimentSpec.

Open Scope R_scope.

Lemma count_up_bounds text ws : forall s,
  (s <= count_up text s ws <= s + Z.of_nat (length ws))%Z.
Proof.
  unfold count_up. induction ws as [|w ws IH]; intros s; cbn [fold_left length]; [lia|].
  destruct (contains w (lower text)).
  - specialize (IH (s + 1)%Z). lia.
  - specialize (IH s). lia.
Qed.

Lemma count_down_bounds text ws : forall s,
  (s - Z.of_nat (length ws) <= count_down text s ws <= s)%Z.
Proof.
  unfold count_down. induction ws as [|w ws IH]; intros s; cbn [fold_left length]; [lia|].
  destruct (contains w (lower text)).
  - specialize (IH (s - 1)%Z). lia.
  - specialize (IH s). lia.
Qed.

Lemma count_up_none text ws s :
  Forall (fun w => contains w (lower text) = false) ws -> count_up text s ws = s.
Proof.
  unfold count_up. intros H. revert s.
  induction H as [|w ws Hw _ IH]; intros s; cbn [fold_left]; [reflexivity|].
  rewrite Hw. apply IH.
Qed.

Lemma count_down_none text ws s :
  Forall (fun w => contains w (lower text) = false) ws -> count_down text s ws = s.
Proof.
  unfold count_down. intros H. revert s.
  induction H as [|w ws Hw _ IH]; intros s; cbn [fold_left]; [reflexivity|].
  rewrite Hw. apply IH.
Qed.

Lemma keyword_score_range text : (-6 <= keyword_score text <= 6)%Z.
Proof.
  unfold keyword_score.
  pose proof (count_up_bounds text positive_keywords 0) as Hp.
  pose proof (count_down_bounds text negative_keywords
                (count_up text 0 positive_keywords)) as Hn.
  cbn [positive_keywords negative_keywords length] in *. lia.
Qed.

Ltac case_clamp :=
  unfold py_min;
  match goal with |- context [Rlt_dec ?a ?b] => destruct (Rlt_dec a b) end;
  unfold py_max;
  match goal with |- context [Rlt_dec ?a ?b] => destruct (Rlt_dec a b) end;
  try lra.

Lemma clamp_values z :
  (-6 <= z <= 6)%Z ->
  In (py_max (-1) (py_min 1 (IZR z / 2))) [-1; -1 / 2; 0; 1 / 2; 1].
Proof.
  intros H.
  assert (Hz : z = (-6)%Z \/ z = (-5)%Z \/ z = (-4)%Z \/ z = (-3)%Z \/ z = (-2)%Z
               \/ z = (-1)%Z \/ z = 0%Z \/ z = 1%Z \/ z = 2%Z \/ z = 3%Z
               \/ z = 4%Z \/ z = 5%Z \/ z = 6%Z) by lia.
  repeat (destruct Hz as [->|Hz]); try subst z; case_clamp; cbn [In]; lra.
Qed.

Lemma clamp_range x : -1 <= py_max (-1) (py_min 1 x) <= 1.
Proof.
  case_clamp.
Qed.

(** X22.  [calculate_text_sentiment] takes one of the five values
    -1, -1/2, 0, 1/2, 1. *)
Theorem text_sentiment_values (text : string) :
  In (calculate_text_sentiment text) [-1; -1 / 2; 0; 1 / 2; 1].
Proof. apply clamp_values, keyword_score_range. Qed.

(** X23.  A text in which no negative keyword occurs has a non-negative
    score, and the score 0 when no positive keyword occurs either. *)
Theorem text_sentiment_sign (text : string) :
  Forall (fun w => contains w (lower text) = false) negative_keywords ->
  0 <= calculate_text_sentiment text
  /\ (Forall (fun w => contains w (lower text) = false) positive_keywords ->
      calculate_text_sentiment text = 0).
Proof.
  intros Hneg. unfold calculate_text_sentiment, keyword_score.
  rewrite (@count_down_none text negative_keywords _ Hneg).
  pose proof (count_up_bounds text positive_keywords 0) as Hp.
  split.
  - assert (0 <= IZR (count_up text 0 positive_keywords)) by (apply IZR_le; lia).
    case_clamp.
  - intros Hpos. rewrite (@count_up_none text positive_keywords _ Hpos).
    case_clamp.
Qed.

(** X23 at a headline with two positive keywords. *)
Lemma text_sentiment_sign_witness :
  0 <= calculate_text_sentiment "Strong growth lifts shares"
  /\ (Forall (fun w => contains w (lower "Strong growth lifts shares") = false)
             positive_keywords ->
      calculate_text_sentiment "Strong growth lifts shares" = 0).
Proof.
  apply (@text_sentiment_sign "Strong growth lifts shares").
  repeat constructor.
Defined.

Lemma lower_char_idem c : lower_char (lower_char c) = lower_char c.
Proof. destruct c as [[] [] [] [] [] [] [] []]; reflexivity. Qed.

Lemma lower_idem s : lower (lower s) = lower s.
Proof. induction s as [|c s IH]; cbn [lower]; [reflexivity|]. now rewrite lower_char_idem, IH. Qed.

(** X24.  The score does not depend on the case of the letters. *)
Theorem text_sentiment_ignores_case (text : string) :
  calculate_text_sentiment (lower text) = calculate_text_sentiment text.
Proof.
  unfold calculate_text_sentiment, keyword_score, count_up, count_down.
  now rewrite lower_idem.
Qed.

(** News *)

Lemma Rmean_bounds a b l :
  l <> [] -> Forall (fun x => a <= x <= b) l -> a <= Rmean l <= b.
Proof.
  intros Hne H. unfold Rmean.
  assert (Hs : INR (length l) * a <= Rsum l <= INR (length l) * b).
  { unfold Rsum. clear Hne. induction H as [|x l Hx _ IH].
    - cbn. lra.
    - cbn [fold_right length]. rewrite S_INR. lra. }
  assert (Hn : 0 < INR (length l)) by now apply INR_length_pos.
  assert (Hi : 0 < / INR (length l)) by now apply Rinv_0_lt_compat.
  unfold Rdiv. split.
  - replace a with (INR (length l) * a * / INR (length l)) by (field; lra).
    apply Rmult_le_compat_r; lra.
  - replace b with (INR (length l) * b * / INR (length l)) by (field; lra).
    apply Rmult_le_compat_r; lra.
Qed.

Lemma mean_of_scores {A} (f : A -> R) (l : list A) a b :
  l <> [] -> (forall x, a <= f x <= b) ->
  exists s, mean (map (fun x => Fin (f x)) l) = Fin s /\ a <= s <= b.
Proof.
  intros Hne Hf. rewrite <- (map_map f Fin).
  assert (Hm : map f l <> []) by (destruct l; [congruence | discriminate]).
  rewrite mean_fin by trivial. eexists. split; [reflexivity|].
  apply Rmean_bounds; [trivial|]. apply Forall_forall. intros y Hy.
  apply in_map_iff in Hy as [x [<- _]]. apply Hf.
Qed.

(** X25.  The news sentiment is a number between -1 and 1, and the article
    count is the number of articles, at most 10; both are 0 without
    news. *)
Theorem news_sentiment_range (news : option (list article)) :
  exists s,
    sentiment_score (analyze_news_sentiment news) = Fin s
    /\ -1 <= s <= 1
    /\ article_count (analyze_news_sentiment news) =
       match news with
       | None => 0%nat
       | Some l => Nat.min 10 (length l)
       end.
Proof.
  destruct news as [[|a l]|]; try (exists 0; cbn; repeat split; lra).
  unfold analyze_news_sentiment.
  set (f := fun a0 : article => calculate_text_sentiment (title a0)).
  destruct (@mean_of_scores _ f (firstn 10 (a :: l)) (-1) 1) as [s [E Hs]].
  - discriminate.
  - intros x. apply clamp_range.
  - exists s. cbn [sentiment_score article_count].
    change (map (fun a0 : article => Fin (calculate_text_sentiment (title a0)))
                (firstn 10 (a :: l)))
      with (map (fun x => Fin (f x)) (firstn 10 (a :: l))).
    split; [|split; [exact Hs|]].
    + rewrite <- E. reflexivity.
    + rewrite length_map, length_firstn. reflexivity.
Qed.

(** X26.  Only the first ten articles count: articles after them change
    neither the score nor the count. *)
Theorem news_sentiment_first_ten (news extra : list article) :
  (10 <= length news)%nat ->
  analyze_news_sentiment (Some (news ++ extra)%list) = analyze_news_sentiment (Some news)
  /\ article_count (analyze_news_sentiment (Some news)) = 10%nat.
Proof.
  intros Hn.
  assert (E : firstn 10 (news ++ extra)%list = firstn 10 news).
  { rewrite firstn_app. replace (10 - length news)%nat with 0%nat by lia.
    cbn [firstn]. apply app_nil_r. }
  destruct news as [|a l]; [cbn in Hn; lia|].
  unfold analyze_news_sentiment. change ((a :: l) ++ extra)%list with (a :: (l ++ extra)%list).
  cbv iota beta. change (a :: (l ++ extra)%list) with ((a :: l) ++ extra)%list.
  rewrite E. split; [reflexivity|].
  cbn [article_count]. rewrite length_map, length_firstn. lia.
Qed.

(** X26 at ten headlines followed by two more. *)
Lemma news_sentiment_first_ten_witness :
  analyze_news_sentiment (Some (ten_headlines ++ late_headlines)%list)
  = analyze_news_sentiment (Some ten_headlines)
  /\ article_count (analyze_news_sentiment (Some ten_headlines)) = 10%nat.
Proof.
  apply (@news_sentiment_first_ten ten_headlines late_headlines).
  cbn. lia.
Defined.

(** Recommendations *)

Lemma grade_score_range c : 0 <= grade_score c <= 1.
Proof.
  destruct c as [s| |]; cbn [grade_score]; try lra.
  unfold recommendation_map. cbn [lookup].
  repeat match goal with
         | |- context [String.eqb ?a ?b] => destruct (String.eqb a b); try lra
         end.
Qed.

(** X27.  The recommendation sentiment is a number between 0 and 1, for
    every table of recommendations and without one. *)
Theorem recommendation_sentiment_range (recommendations : option Recommendations) :
  exists s,
    rec_sentiment_score (analyze_recommendation_sentiment recommendations) = Fin s
    /\ 0 <= s <= 1.
Proof.
  unfold analyze_recommendation_sentiment. cbv zeta.
  destruct recommendations as [r|]; [|exists 0; cbn; split; [reflexivity | lra]].
  destruct (rec_empty r); [exists 0; cbn; split; [reflexivity | lra]|].
  destruct (find_grade_col r) as [g|]; [|exists 0; cbn; split; [reflexivity | lra]].
  destruct (lookup g (rec_columns r)) as [col|]; [|exists 0; cbn; split; [reflexivity | lra]].
  cbn [rec_sentiment_score].
  destruct (cells col) as [|c cs] eqn:E; [exists 0; cbn; split; [reflexivity | lra]|].
  destruct (@mean_of_scores _ grade_score (c :: cs) 0 1) as [s [Es Hs]].
  - discriminate.
  - apply grade_score_range.
  - exists s. split; [|exact Hs]. rewrite <- Es. reflexivity.
Qed.

End sentiment_properties.

(** * Holdings and period statistics *)

Section holdings_properties.

Import IndicatorSpec CorporateInfoUtils ConcentrationRisk.

Open Scope R_scope.

Lemma lookup_head_column k n (cols : list (string * Series)) :
  lookup k (map (fun c => (fst c, firstn n (snd c))) cols) =
  option_map (firstn n) (lookup k cols).
Proof.
  induction cols as [|[k' v] cols IH]; [reflexivity|].
  cbn [map lookup fst snd]. destruct (String.eqb k k'); [reflexivity | exact IH].
Qed.

Lemma series_sum_fin l : series_sum (map Fin l) = Fin (Rsum l).
Proof. unfold series_sum. rewrite dropna_fin. apply fsum_fin. Qed.

Lemma frame_with_column_not_empty (df : DataFrame) k s :
  index df <> [] -> lookup k (columns df) = Some s -> frame_empty df = false.
Proof.
  intros Hi Hc. unfold frame_empty.
  destruct (index df); [congruence|]. destruct (columns df); [discriminate | reflexivity].
Qed.

Lemma concentration_run holders major shares :
  index holders <> [] ->
  lookup "Shares"%string (columns holders) = Some (map Fin shares) ->
  analyze_concentration_risk (Some holders) major =
  ok {| institutional_concentration :=
          (Fin (Rsum (firstn 5 shares)) / Fin (Rsum shares))%float;
        institutional_holders_count := length (index holders);
        major_holders_count := len_or_zero major |}.
Proof.
  intros Hi Hc. unfold analyze_concentration_risk.
  rewrite (@frame_with_column_not_empty _ _ _ Hi Hc). cbn [negb].
  unfold getitem. cbn [head columns]. rewrite lookup_head_column, Hc.
  cbn [option_map rbind ok]. rewrite firstn_map, !series_sum_fin. reflexivity.
Qed.

Lemma wrap_int64_small z : (- 2 ^ 63 <= z < 2 ^ 63)%Z -> wrap_int64 z = z.
Proof. intros H. unfold wrap_int64. rewrite Z.mod_small; lia. Qed.

Lemma Zsum_nonneg l : Forall (fun z => (0 <= z)%Z) l -> (0 <= Zsum l)%Z.
Proof. unfold Zsum. induction 1; cbn [fold_right]; lia. Qed.

Lemma int64_sum_from acc l :
  (0 <= acc)%Z -> Forall (fun z => (0 <= z)%Z) l -> (acc + Zsum l < 2 ^ 63)%Z ->
  fold_left (fun a x => wrap_int64 (a + x)) l acc = (acc + Zsum l)%Z.
Proof.
  intros Ha Hl. revert acc Ha. induction Hl as [|x l Hx Hl IH]; intros acc Ha Hs.
  - cbn. lia.
  - pose proof (Zsum_nonneg Hl) as Hn. unfold Zsum in *. cbn [fold_right fold_left] in *.
    rewrite wrap_int64_small by lia. rewrite IH by lia. lia.
Qed.

Lemma int64_sum_exact l :
  Forall (fun z => (0 <= z)%Z) l -> (Zsum l < 2 ^ 63)%Z -> int64_sum l = Zsum l.
Proof. intros Hl Hs. unfold int64_sum. now rewrite int64_sum_from. Qed.

Lemma Zsum_firstn_le n l :
  Forall (fun z => (0 <= z)%Z) l -> (0 <= Zsum (firstn n l) <= Zsum l)%Z.
Proof.
  intros H. revert n. unfold Zsum. induction H as [|x l Hx Hl IH]; intros [|n];
    cbn [firstn fold_right]; try lia.
  - pose proof (Zsum_nonneg Hl) as Hs. unfold Zsum in Hs. lia.
  - specialize (IH n). lia.
Qed.

(** X28.  For a non-empty table of institutional holders whose numbers of
    shares are 64-bit integers, none negative, with a positive total below
    2^63, the concentration is the share of the first five rows in the
    total: a number between 0 and 1, and 1 when there are at most five
    holders. *)
Theorem concentration_is_top_five_share
  (holders : HoldersTable) (major : option DataFrame) :
  holder_index holders <> [] ->
  Forall (fun z => (0 <= z)%Z) (Shares holders) ->
  (0 < Zsum (Shares holders) < 2 ^ 63)%Z ->
  let r := analyze_concentration_risk_int64 (Some holders) major in
  exists c,
    institutional_concentration r = Fin c
    /\ c = IZR (Zsum (firstn 5 (Shares holders))) / IZR (Zsum (Shares holders))
    /\ 0 <= c <= 1
    /\ ((length (Shares holders) <= 5)%nat -> c = 1)
    /\ institutional_holders_count r = length (holder_index holders).
Proof.
  intros Hi Hnn Hs r.
  pose proof (@Zsum_firstn_le 5 (Shares holders) Hnn) as [H0 H1].
  assert (Hf : Forall (fun z => (0 <= z)%Z) (firstn 5 (Shares holders))).
  { apply Forall_forall. intros x Hx. rewrite Forall_forall in Hnn. apply Hnn.
    rewrite <- (firstn_skipn 5 (Shares holders)). apply in_or_app. now left. }
  assert (Hpos : 0 < IZR (Zsum (Shares holders))) by (apply IZR_lt; lia).
  assert (Hinv : 0 < / IZR (Zsum (Shares holders))) by now apply Rinv_0_lt_compat.
  exists (IZR (Zsum (firstn 5 (Shares holders))) / IZR (Zsum (Shares holders))).
  unfold r, analyze_concentration_risk_int64, holders_empty.
  destruct (holder_index holders) eqn:E; [congruence|].
  cbn [negb institutional_concentration institutional_holders_count holders_head Shares].
  rewrite !int64_sum_exact by (trivial; lia).
  split; [apply fdiv_fin; lra|]. split; [reflexivity|].
  split; [|split; [|reflexivity]].
  - unfold Rdiv. split.
    + apply Rmult_le_pos; [apply IZR_le; lia | lra].
    + replace 1 with (IZR (Zsum (Shares holders)) * / IZR (Zsum (Shares holders)))
        by (field; lra).
      apply Rmult_le_compat_r; [lra | apply IZR_le; lia].
  - intros Hlen. rewrite firstn_all2 by trivial. field. lra.
Qed.

(** X28 at six holders. *)
Lemma concentration_is_top_five_share_witness :
  let r := analyze_concentration_risk_int64
             (Some (holders_table [40; 30; 10; 10; 5; 5]%Z)) None in
  exists c,
    institutional_concentration r = Fin c
    /\ c = IZR (Zsum (firstn 5 [40; 30; 10; 10; 5; 5]%Z))
           / IZR (Zsum [40; 30; 10; 10; 5; 5]%Z)
    /\ 0 <= c <= 1
    /\ ((length [40; 30; 10; 10; 5; 5]%Z <= 5)%nat -> c = 1)
    /\ institutional_holders_count r = 6%nat.
Proof.
  apply (@concentration_is_top_five_share (holders_table [40; 30; 10; 10; 5; 5]%Z) None).
  - discriminate.
  - repeat constructor; lia.
  - cbn. lia.
Defined.

(** Beyond 64 bits the sums wrap around: for six holders of 2^62 shares
    each, the first five add up to 2^62, all six to -2^63, and the
    concentration is -1/2. *)
Example concentration_wraps_around :
  institutional_concentration
    (analyze_concentration_risk_int64
       (Some (holders_table (repeat (2 ^ 62)%Z 6))) None)
  = Fin (- (1 / 2)).
Proof.
  unfold analyze_concentration_risk_int64, holders_empty, holders_table.
  cbn [holder_index repeat length seq map negb holders_head Shares firstn
       institutional_concentration].
  replace (int64_sum [2 ^ 62; 2 ^ 62; 2 ^ 62; 2 ^ 62; 2 ^ 62]%Z)
    with (2 ^ 62)%Z by (vm_compute; reflexivity).
  replace (int64_sum [2 ^ 62; 2 ^ 62; 2 ^ 62; 2 ^ 62; 2 ^ 62; 2 ^ 62]%Z)
    with (- 2 ^ 63)%Z by (vm_compute; reflexivity).
  rewrite fdiv_fin.
  - f_equal. change (2 ^ 62)%Z with 4611686018427387904%Z.
    change (- 2 ^ 63)%Z with (-9223372036854775808)%Z. lra.
  - change (- 2 ^ 63)%Z with (-9223372036854775808)%Z. lra.
Qed.

(** X29.  When every holder of a non-empty table has zero shares the
    concentration is NaN (0/0): the call neither fails nor returns 0. *)
Theorem concentration_of_zero_holdings
  (holders : DataFrame) (major : option DataFrame) (shares : list R) :
  index holders <> [] ->
  lookup "Shares"%string (columns holders) = Some (map Fin shares) ->
  Forall (fun x => x = 0) shares ->
  exists r,
    analyze_concentration_risk (Some holders) major = ok r
    /\ institutional_concentration r = NaN.
Proof.
  intros Hi Hc Hz. rewrite (@concentration_run holders major shares Hi Hc).
  eexists. split; [reflexivity|]. cbn [institutional_concentration].
  rewrite (Rsum_zero Hz).
  assert (Hf : Forall (fun x => x = 0) (firstn 5 shares)).
  { apply Forall_forall. intros x Hx. rewrite Forall_forall in Hz.
    apply Hz. rewrite <- (firstn_skipn 5 shares). apply in_or_app. now left. }
  rewrite (Rsum_zero Hf). apply fdiv_zero_zero.
Qed.

(** X29 at two holders without shares. *)
Lemma concentration_of_zero_holdings_witness :
  exists r,
    analyze_concentration_risk (Some (holders_frame [0; 0])) None = ok r
    /\ institutional_concentration r = NaN.
Proof.
  apply (@concentration_of_zero_holdings (holders_frame [0; 0]) None [0; 0]).
  - discriminate.
  - reflexivity.
  - repeat constructor.
Defined.

(** Period statistics *)

Lemma period_stats_run hist c cs period :
  index hist <> [] ->
  lookup "Close"%string (columns hist) = Some (map Fin (c :: cs)) ->
  c <> 0 ->
  _get_period_stats (Some hist) period =
  ok (Some {| start := Fin c;
              end_ := Fin (last cs c);
              change := Fin (last cs c - c);
              change_percent := Fin ((last cs c - c) / c * 100) |}).
Proof.
  intros Hi Hc Hnz. unfold _get_period_stats.
  rewrite (@frame_with_column_not_empty _ _ _ Hi Hc).
  unfold getitem. rewrite Hc. cbn [rbind ok map iloc_first iloc_final].
  assert (E : last (Fin c :: map Fin cs) NaN = Fin (last cs c)).
  { change (Fin c :: map Fin cs) with (map Fin (c :: cs)).
    rewrite (@last_map_nonempty _ _ Fin (c :: cs) NaN c) by discriminate.
    f_equal. destruct cs; reflexivity. }
  rewrite E. cbn [fsub fadd fneg]. rewrite fdiv_fin by trivial. reflexivity.
Qed.

(** X30.  The period argument of [_get_period_stats] is not used: all six
    entries of ["periods"] hold the same statistics, first and last close of
    the whole history, their difference and the relative change in per
    cent. *)
Theorem every_period_spans_the_history (hist : DataFrame) (c : R) (cs : list R) :
  index hist <> [] ->
  lookup "Close"%string (columns hist) = Some (map Fin (c :: cs)) ->
  c <> 0 ->
  let whole := {| start := Fin c;
                  end_ := Fin (last cs c);
                  change := Fin (last cs c - c);
                  change_percent := Fin ((last cs c - c) / c * 100) |} in
  periods (Some hist) =
  ok [ ("1d"%string, Some whole); ("1w"%string, Some whole);
       ("1m"%string, Some whole); ("3m"%string, Some whole);
       ("6m"%string, Some whole); ("1y"%string, Some whole) ].
Proof.
  intros Hi Hc Hnz. cbv zeta. unfold periods, period_labels.
  cbn [period_entries]. rewrite !(fun p => @period_stats_run hist c cs p Hi Hc Hnz). reflexivity.
Qed.

(** X30 at the closes 100, 101, 103. *)
Lemma every_period_spans_the_history_witness :
  let whole := {| start := Fin 100;
                  end_ := Fin (last [101; 103] 100);
                  change := Fin (last [101; 103] 100 - 100);
                  change_percent := Fin ((last [101; 103] 100 - 100) / 100 * 100) |} in
  periods (Some (to_frame TrendSpec.rising3)) =
  ok [ ("1d"%string, Some whole); ("1w"%string, Some whole);
       ("1m"%string, Some whole); ("3m"%string, Some whole);
       ("6m"%string, Some whole); ("1y"%string, Some whole) ].
Proof.
  apply (@every_period_spans_the_history (to_frame TrendSpec.rising3) 100 [101; 103]).
  - discriminate.
  - reflexivity.
  - lra.
Defined.

End holdings_properties.
